(** * Solana Wingman scripts: a shallow embedding of the action pipeline

    The development follows the TypeScript sources under [scripts/]:
    - [utils/token-helpers.ts]  the token amount codec,
    - [utils/connection.ts]     the shared connection,
    - [utils/wallet.ts]         identity resolution,
    - [config.ts]               configuration read from the environment,
    - [actions/*.ts]            one orchestrator per command.

    JavaScript values are modelled as the code has them: a [number] is an
    IEEE-754 binary64 value ([spec_float] with precision 53 and maximal
    exponent 1024, round to nearest even), a [bigint] is a [Z], a string is
    a [string] of bytes (UTF-8).  Exceptions are explicit results. *)

From Stdlib Require Import ZArith Lia List Bool String Ascii Strings.Byte.
From Stdlib Require Import Floats.SpecFloat.
Import ListNotations.

Local Open Scope string_scope.
Local Open Scope Z_scope.

#[local] Set Warnings "-register-all".

(* ===================================================================== *)
(** ** JavaScript numbers *)
(* ===================================================================== *)

Module JS.

Definition prec : Z := 53.
Definition emax : Z := 1024.

(** A JavaScript [number]. *)
Definition Number : Type := spec_float.

Definition NaN : Number := S754_nan.

(** [x * y] on numbers. *)
Definition mul (x y : Number) : Number := SFmul prec emax x y.

(** [x / y] on numbers. *)
Definition div (x y : Number) : Number := SFdiv prec emax x y.

(** The number nearest to the integer [z] (ties to even), as an integer
    literal or an integer-valued computation denotes it. *)
Definition of_Z (z : Z) : Number := binary_normalize prec emax z 0 false.

(** The number nearest to the decimal [m / 10^n] (ties to even): the
    value of the decimal literal with digits [m] and [n] fractional
    digits. *)
Definition of_decimal (m : Z) (n : Z) : Number :=
  match m with
  | Z0 => S754_zero false
  | Zpos p => div (S754_finite false p 0) (S754_finite false (Z.to_pos (10 ^ n)) 0)
  | Zneg p => div (S754_finite true p 0) (S754_finite false (Z.to_pos (10 ^ n)) 0)
  end.

(** [10 ** n] for an integer-valued exponent [n]: the number nearest to
    the power (exact for [0 <= n <= 22], [Infinity] from [n = 309] on). *)
Definition pow10 (n : Z) : Number :=
  if 0 <=? n then of_Z (10 ^ n) else of_decimal 1 (- n).

(** [Math.round(x)]: the integral number closest to [x], ties towards
    +Infinity; [NaN], the infinities and the zeros are returned as they
    are, and a negative [x] of magnitude at most one half gives -0. *)
Definition Math_round (x : Number) : Number :=
  match x with
  | S754_finite s m e =>
      if 0 <=? e then x
      else
        let k := - e in
        let z := (2 * cond_Zopp s (Zpos m) + 2 ^ k) / 2 ^ (k + 1) in
        if z =? 0 then S754_zero s else of_Z z
  | _ => x
  end.

(** [BigInt(x)] for a number [x]: the integer [x] denotes, and a
    [RangeError] ([None]) when [x] is not an integral number. *)
Definition BigInt (x : Number) : option Z :=
  match x with
  | S754_zero _ => Some 0
  | S754_finite s m e =>
      if 0 <=? e then Some (cond_Zopp s (Zpos m * 2 ^ e))
      else if Zpos m mod 2 ^ (- e) =? 0
           then Some (cond_Zopp s (Zpos m / 2 ^ (- e)))
           else None
  | S754_infinity _ | S754_nan => None
  end.

Definition is_finite (x : Number) : bool :=
  match x with
  | S754_zero _ | S754_finite _ _ _ => true
  | _ => false
  end.

Definition is_negative (x : Number) : bool :=
  match x with
  | S754_finite true _ _ => true
  | _ => false
  end.

(** The sign carried by a number that is not [NaN]. *)
Definition has_sign (s : bool) (x : Number) : Prop :=
  match x with
  | S754_zero s' | S754_infinity s' | S754_finite s' _ _ => s' = s
  | S754_nan => True
  end.

(** *** Strings *)

Definition digit_char (d : Z) : ascii :=
  ascii_of_nat (48 + Z.to_nat d).

(** Decimal digits of a non-negative integer, most significant first,
    in front of [acc]. *)
Fixpoint digits_aux (fuel : nat) (n : Z) (acc : string) : string :=
  match fuel with
  | O => acc
  | S fuel' =>
      let acc' := String (digit_char (n mod 10)) acc in
      if n <? 10 then acc' else digits_aux fuel' (n / 10) acc'
  end.

Definition digits (n : Z) : string :=
  digits_aux (S (Z.to_nat (Z.log2 n))) n "".

(** [z.toString()] for a bigint [z]. *)
Definition BigInt_toString (z : Z) : string :=
  if z <? 0 then String "-" (digits (- z)) else digits z.

Fixpoint repeat_char (c : ascii) (n : nat) : string :=
  match n with
  | O => ""
  | S n' => String c (repeat_char c n')
  end.

(** [s.padStart(len, "0")] with a one-character filler. *)
Definition padStart (len : Z) (c : ascii) (s : string) : string :=
  repeat_char c (Z.to_nat len - String.length s) ++ s.

(** [s.replace(/0+$/, "")]: the string without its trailing zeros. *)
Fixpoint strip_trailing_zeros (s : string) : string :=
  match s with
  | "" => ""
  | String c rest =>
      match strip_trailing_zeros rest with
      | "" => if Ascii.eqb c "0" then "" else String c ""
      | rest' => String c rest'
      end
  end.

(** Truthiness of a string. *)
Definition nonempty (s : string) : bool :=
  match s with "" => false | _ => true end.

(** Truthiness of a number: neither a zero nor [NaN]. *)
Definition truthy_number (x : Number) : bool :=
  match x with
  | S754_zero _ | S754_nan => false
  | _ => true
  end.

(** [a || b] where [a] is a string or [undefined]. *)
Definition or_else (a : option string) (b : string) : string :=
  match a with
  | Some s => if nonempty s then s else b
  | None => b
  end.

(** A string or [undefined] used as a condition: [Some s] when it is
    truthy (a non-empty string [s]). *)
Definition truthy (a : option string) : option string :=
  match a with
  | Some s => if nonempty s then Some s else None
  | None => None
  end.

Definition is_white_space (c : ascii) : bool :=
  let n := nat_of_ascii c in
  (Nat.eqb n 32 || (Nat.leb 9 n && Nat.leb n 13))%bool.

Fixpoint skip_white_space (s : string) : string :=
  match s with
  | String c rest => if is_white_space c then skip_white_space rest else s
  | "" => ""
  end.

Definition digit_value (c : ascii) : option Z :=
  let n := nat_of_ascii c in
  if (Nat.leb 48 n && Nat.leb n 57)%bool then Some (Z.of_nat n - 48) else None.

(** Value of the longest prefix of decimal digits; [acc] is the value
    read so far, [None] before the first digit. *)
Fixpoint digits_prefix (s : string) (acc : option Z) : option Z :=
  match s with
  | String c rest =>
      match digit_value c with
      | Some d =>
          digits_prefix rest
            (Some (10 * match acc with Some a => a | None => 0 end + d))
      | None => acc
      end
  | "" => acc
  end.

(** [parseInt(s, 10)] (white space of the ASCII range). *)
Definition parseInt10 (s : string) : Number :=
  let s1 := skip_white_space s in
  let '(neg, s2) :=
    match s1 with
    | String "-" rest => (true, rest)
    | String "+" rest => (false, rest)
    | _ => (false, s1)
    end in
  match digits_prefix s2 None with
  | None => NaN
  | Some z => if z =? 0 then S754_zero neg else of_Z (if neg then - z else z)
  end.

Fixpoint repeat_string (s : string) (n : nat) : string :=
  match n with
  | O => ""
  | S n' => s ++ repeat_string s n'
  end.

(** A line feed and a double quote, for template literals. *)
Definition nl : string := String (ascii_of_nat 10) "".
Definition dq : string := String (ascii_of_nat 34) "".

End JS.

(* ===================================================================== *)
(** ** utils/token-helpers.ts: the token amount codec *)
(* ===================================================================== *)

Module TokenHelpers.

(** [Math.round(uiAmount * 10 ** decimals)], the number handed to
    [BigInt]. *)
Definition scaled (uiAmount : JS.Number) (decimals : Z) : JS.Number :=
  JS.Math_round (JS.mul uiAmount (JS.pow10 decimals)).

(** [toTokenAmount(uiAmount, decimals)]; [None] is the [RangeError] of
    [BigInt]. *)
Definition toTokenAmount (uiAmount : JS.Number) (decimals : Z) : option Z :=
  JS.BigInt (scaled uiAmount decimals).

(** [fromTokenAmount(raw, decimals)]; [None] is a [RangeError] (of
    [BigInt], or of a division by [0n]). *)
Definition fromTokenAmount (raw : Z) (decimals : Z) : option string :=
  match JS.BigInt (JS.pow10 decimals) with
  | None => None
  | Some divisor =>
      if divisor =? 0 then None
      else
        let whole := Z.quot raw divisor in
        let frac := Z.rem raw divisor in
        let fracStr :=
          JS.strip_trailing_zeros
            (JS.padStart decimals "0" (JS.BigInt_toString frac)) in
        Some (if JS.nonempty fracStr
              then JS.BigInt_toString whole ++ "." ++ fracStr
              else JS.BigInt_toString whole)
  end.

(** The exact-integer reference of the specification: quotient and
    remainder by [10^decimals], the remainder padded to [decimals]
    digits, trailing zeros stripped, the separator dropped when no
    fractional digit is left. *)
Definition toDisplay_ref (baseUnits : Z) (decimals : Z) : string :=
  let divisor := 10 ^ decimals in
  let whole := baseUnits / divisor in
  let frac := baseUnits mod divisor in
  let fracStr :=
    JS.strip_trailing_zeros (JS.padStart decimals "0" (JS.digits frac)) in
  if JS.nonempty fracStr
  then JS.digits whole ++ "." ++ fracStr
  else JS.digits whole.

(** The canonical string of the decimal [m / 10^n]: its digits with the
    trailing fractional zeros stripped. *)
Definition decimal_string (m n : Z) : string := toDisplay_ref m n.

(** Display amount to base units and back, from the decimal literal. *)
Definition round_trip (m n decimals : Z) : option string :=
  match toTokenAmount (JS.of_decimal m n) decimals with
  | None => None
  | Some raw => fromTokenAmount raw decimals
  end.

End TokenHelpers.

(* ===================================================================== *)
(** ** The runtime: values, library functions, the outside world *)
(* ===================================================================== *)

Module Runtime.

(** Result of a call that may throw; [Throw msg] carries [err.message]. *)
Inductive Res (A : Type) : Type :=
| Val (a : A)
| Throw (msg : string).
Arguments Val {A} a.
Arguments Throw {A} msg.

Definition Bytes : Type := list byte.

Record PublicKey := { pk_bytes : Bytes }.

(** A [Keypair] of web3.js: the public key and the 64 secret bytes. *)
Record Keypair := { publicKey : PublicKey; secretKey : Bytes }.

(** A [Connection] object; [conn_id] is the identity of the object. *)
Record Connection :=
  { conn_id : nat; rpcEndpoint : string; conn_commitment : string }.

(** JSON values, as [res.json()] returns them. *)
Inductive Json :=
| JNull
| JBool (b : bool)
| JNum (x : JS.Number)
| JStr (s : string)
| JArr (items : list Json)
| JObj (fields : list (string * Json)).

(** A [Response] of [fetch]; reading the body may fail. *)
Record Response :=
  { ok : bool; body_text : Res string; body_json : Res Json }.

Record VersionedTransaction :=
  { vt_message : Bytes; vt_signatures : list Bytes }.

(** What [getOrCreateAssociatedTokenAccount] resolves to. *)
Record Account := { acc_address : PublicKey; acc_amount : Z }.

(** An entry of [getParsedTokenAccountsByOwner(...).value]. *)
Record TokenAccount :=
  { ta_pubkey : PublicKey; ta_mint : string;
    ta_uiAmountString : string; ta_decimals : JS.Number }.

Inductive Instruction :=
| Parsed (program : string) (parsed : Json)
| PartiallyDecoded (programId : PublicKey) (data : string).

Record TxMeta :=
  { fee : JS.Number; err : option Json;
    computeUnitsConsumed : option JS.Number;
    logMessages : option (list string) }.

Record ParsedTransaction :=
  { slot : JS.Number; blockTime : option JS.Number;
    meta : option TxMeta;
    accountKeys : list (PublicKey * bool);
    instructions : list Instruction }.

(** The [SystemProgram.transfer] instruction of transfer-sol. *)
Record Transaction :=
  { fromPubkey : PublicKey; toPubkey : PublicKey; lamports : JS.Number }.

(** The library functions the scripts call (web3.js, spl-token, bs58 and
    the JavaScript built-ins that are not modelled above). *)
Class Platform := {
  bs58_decode : string -> Res Bytes;
  Keypair_fromSecretKey : Bytes -> Res Keypair;
  (** [Uint8Array.from(JSON.parse(raw))] *)
  Uint8Array_from_JSON : string -> Res Bytes;
  PublicKey_new : string -> Res PublicKey;
  toBase58 : PublicKey -> string;
  clusterApiUrl : string -> Res string;
  (** the endpoint check of [new Connection(url, commitment)] *)
  Connection_check : string -> Res unit;
  parseFloat : string -> JS.Number;
  Number_toString : JS.Number -> string;
  Number_toFixed : JS.Number -> Z -> string;
  (** message of the [RangeError] of [BigInt(x)] *)
  BigInt_error : JS.Number -> string;
  (** message of the [TypeError] of a property read on [null] *)
  null_property_error : string -> string;
  JSON_stringify : Json -> string;
  (** [JSON.stringify(v, null, 2)], [undefined] printed as such *)
  JSON_stringify_pretty : option Json -> string;
  (** [new Date(ms).toISOString()] *)
  Date_toISOString : JS.Number -> Res string;
  (** [Buffer.from(v, "base64")] *)
  Buffer_from_base64 : option Json -> Res Bytes;
  VersionedTransaction_deserialize : Bytes -> Res VersionedTransaction;
  (** [tx.sign([signer])]: the signer must be a required signer of the
      message (looked up by public key), then its signature is stored *)
  VersionedTransaction_signer_check :
    VersionedTransaction -> PublicKey -> Res unit;
  VersionedTransaction_add_signature :
    VersionedTransaction -> Keypair -> VersionedTransaction;
  VersionedTransaction_serialize : VersionedTransaction -> Bytes;
  (** message of the [TypeError] of destructuring [null] *)
  null_destructure_error : string -> string;
  (** [`${v}`] for a JSON value or [undefined] *)
  js_ToString : option Json -> string;
  SystemProgram_transfer :
    PublicKey -> PublicKey -> JS.Number -> Res Transaction;
  (** [getAssociatedTokenAddressSync(mint, owner)] *)
  getAssociatedTokenAddressSync : PublicKey -> PublicKey -> Res PublicKey
}.

(** Requests that reach the RPC node through a connection (directly or
    inside a helper of web3.js or spl-token). *)
Inductive RpcCall :=
| GetBalance (address : PublicKey)
| GetParsedTokenAccountsByOwner (owner : PublicKey)
| RequestAirdrop (address : PublicKey) (lamports : JS.Number)
| GetLatestBlockhash
| ConfirmTransaction (signature : string)
    (anchor : option (string * JS.Number)) (commitment : string)
| SendAndConfirmTransaction (tx : Transaction) (signers : list Keypair)
| GetMint (mint : PublicKey)
| GetOrCreateAssociatedTokenAccount
    (payer : Keypair) (mint owner : PublicKey)
| CreateMint (payer : Keypair) (mintAuthority freezeAuthority : PublicKey)
    (decimals : JS.Number) (mintKeypair : Keypair)
| MintTo (payer : Keypair) (mint destination : PublicKey)
    (authority : Keypair) (amount : Z)
| Transfer (payer : Keypair) (source destination : PublicKey)
    (owner : Keypair) (amount : Z)
| SendRawTransaction (raw : Bytes) (skipPreflight : bool) (maxRetries : Z)
| GetParsedTransaction (signature : string) (maxSupportedVersion : Z).

Inductive HttpRequest :=
| HttpGet (url : string) (params : list (string * string))
| HttpPost (url : string) (headers : list (string * string)) (body : Json).

(** What a run does, in order. *)
Inductive Event :=
| EvLog (line : string)
| EvError (line : string)
| EvUncaught (msg : string)
| EvNewConnection (c : Connection)
| EvRpc (c : Connection) (call : RpcCall)
| EvFetch (req : HttpRequest)
| EvReadFile (path : string)
| EvExists (path : string)
| EvExec (cmd : string)
| EvGenerateKeypair.

(** The environment of one process and the answers of the outside world
    to the calls the process makes. *)
Record World := {
  w_env : string -> option string;
  w_argv : list string;
  w_readFile : string -> Res string;
  w_exists : string -> bool;
  w_execSync : string -> bool;
  w_generate : Keypair;
  w_getBalance : Res JS.Number;
  w_tokenAccounts : Res (list TokenAccount);
  w_requestAirdrop : Res string;
  w_latestBlockhash : Res (string * JS.Number);
  w_confirm : Res unit;
  w_sendAndConfirm : Res string;
  w_getMint : Res Z;
  w_getOrCreateATA : Res Account;
  w_createMint : Res PublicKey;
  w_mintTo : Res string;
  w_transfer : Res string;
  w_sendRaw : Res string;
  w_getParsedTransaction : Res (option ParsedTransaction);
  w_quote : Res Response;
  w_swap : Res Response
}.

(** *** The process monad: module state, trace, exceptions, exit *)

Record Proc := {
  _connection : option Connection;
  next_id : nat;
  trace : list Event
}.

Definition initial : Proc :=
  {| _connection := None; next_id := O; trace := [] |}.

Inductive Outcome (A : Type) : Type :=
| Done (a : A)
| Thrown (msg : string)
| Exited (code : Z).
Arguments Done {A} a.
Arguments Thrown {A} msg.
Arguments Exited {A} code.

Definition M (A : Type) : Type := Proc -> Outcome A * Proc.

Definition ret {A} (a : A) : M A := fun st => (Done a, st).

Definition bind {A B} (m : M A) (k : A -> M B) : M B :=
  fun st =>
    match m st with
    | (Done a, st') => k a st'
    | (Thrown msg, st') => (Thrown msg, st')
    | (Exited code, st') => (Exited code, st')
    end.

Definition throw {A} (msg : string) : M A := fun st => (Thrown msg, st).

(** [process.exit(code)] *)
Definition process_exit {A} (code : Z) : M A := fun st => (Exited code, st).

Definition lift {A} (r : Res A) : M A :=
  match r with
  | Val a => ret a
  | Throw msg => throw msg
  end.

Definition emit (e : Event) : M unit :=
  fun st =>
    (Done tt,
     {| _connection := _connection st; next_id := next_id st;
        trace := trace st ++ [e] |}).

Definition console_log (line : string) : M unit := emit (EvLog line).
Definition console_error (line : string) : M unit := emit (EvError line).

(** A request through [c], answered by the world. *)
Definition rpc {A} (c : Connection) (call : RpcCall) (answer : Res A) : M A :=
  bind (emit (EvRpc c call)) (fun _ => lift answer).

Definition fetch (req : HttpRequest) (answer : Res Response) : M Response :=
  bind (emit (EvFetch req)) (fun _ => lift answer).

(** What holds of the outcome and of the final state of [m] run from
    [st]. *)
Definition wp {A} (m : M A) (Q : Outcome A -> Proc -> Prop) (st : Proc) : Prop :=
  Q (fst (m st)) (snd (m st)).

End Runtime.

Export Runtime.

Declare Scope proc_scope.
Delimit Scope proc_scope with proc.
Notation "x <- m ;; k" := (bind m (fun x => k))
  (at level 61, m at next level, right associativity) : proc_scope.
Notation "m ;; k" := (bind m (fun _ => k))
  (at level 61, right associativity) : proc_scope.

Local Open Scope proc_scope.

(* ===================================================================== *)
(** ** config.ts *)
(* ===================================================================== *)

Module Config.

Record t := { NETWORK : string; RPC_URL : string; WALLET_PATH : string }.

Definition COMMITMENT : string := "confirmed".
Definition JUPITER_API_URL : string := "https://quote-api.jup.ag/v6".
Definition LAMPORTS_PER_SOL : JS.Number := JS.of_Z 1000000000.

(** [process.env.SOLANA_NETWORK || "mainnet-beta"] *)
Definition network (w : World) : string :=
  JS.or_else (w_env w "SOLANA_NETWORK") "mainnet-beta".

(** [`${process.env.HOME || process.env.USERPROFILE}`] *)
Definition home (w : World) : string :=
  match w_env w "HOME" with
  | Some h =>
      if JS.nonempty h then h
      else match w_env w "USERPROFILE" with Some u => u | None => "undefined" end
  | None =>
      match w_env w "USERPROFILE" with Some u => u | None => "undefined" end
  end.

(** Evaluation of the module; [clusterApiUrl] may throw. *)
Definition load `{Platform} (w : World) : Res t :=
  let network := network w in
  let wallet_path :=
    JS.or_else (w_env w "WALLET_PATH") (home w ++ "/.config/solana/id.json") in
  match w_env w "SOLANA_RPC_URL" with
  | Some url =>
      if JS.nonempty url
      then Val {| NETWORK := network; RPC_URL := url; WALLET_PATH := wallet_path |}
      else
        match clusterApiUrl network with
        | Val url' =>
            Val {| NETWORK := network; RPC_URL := url'; WALLET_PATH := wallet_path |}
        | Throw msg => Throw msg
        end
  | None =>
      match clusterApiUrl network with
      | Val url' =>
          Val {| NETWORK := network; RPC_URL := url'; WALLET_PATH := wallet_path |}
      | Throw msg => Throw msg
      end
  end.

End Config.

(* ===================================================================== *)
(** ** utils/connection.ts *)
(* ===================================================================== *)

Module ConnectionUtil.

(** [new Connection(url, commitment)]: a fresh object. *)
Definition new_Connection `{Platform} (url commitment : string) : M Connection :=
  _ <- lift (Connection_check url) ;;
  fun st =>
    let c := {| conn_id := next_id st; rpcEndpoint := url;
                conn_commitment := commitment |} in
    (Done c,
     {| _connection := _connection st; next_id := S (next_id st);
        trace := trace st ++ [EvNewConnection c] |}).

Definition set_connection (c : Connection) : M unit :=
  fun st =>
    (Done tt,
     {| _connection := Some c; next_id := next_id st; trace := trace st |}).

Definition getConnection `{Platform} (cfg : Config.t) : M Connection :=
  fun st =>
    match _connection st with
    | None =>
        (c <- new_Connection (Config.RPC_URL cfg) Config.COMMITMENT ;;
         set_connection c ;;
         ret c) st
    | Some c => (Done c, st)
    end.

(** The arguments default to [RPC_URL] and [COMMITMENT] when they are
    [undefined]. *)
Definition createConnection `{Platform} (cfg : Config.t)
    (url commitment : option string) : M Connection :=
  new_Connection
    (match url with Some u => u | None => Config.RPC_URL cfg end)
    (match commitment with Some c => c | None => Config.COMMITMENT end).

(** A call into the module, and a sequence of calls made one after the
    other by one process (an exception of one call is caught by the
    caller and does not end the sequence). *)
Inductive Call :=
| CallGet
| CallCreate (url commitment : option string).

Definition call `{Platform} (cfg : Config.t) (c : Call) : M Connection :=
  match c with
  | CallGet => getConnection cfg
  | CallCreate url commitment => createConnection cfg url commitment
  end.

Fixpoint run_calls `{Platform} (cfg : Config.t) (cs : list Call) (st : Proc)
  : list (Outcome Connection) * Proc :=
  match cs with
  | [] => ([], st)
  | c :: rest =>
      let '(o, st') := call cfg c st in
      let '(os, st'') := run_calls cfg rest st' in
      (o :: os, st'')
  end.

(** [c] is the shared instance, and was constructed before now. *)
Definition shared_is (c : Connection) (st : Proc) : Prop :=
  _connection st = Some c /\ (conn_id c < next_id st)%nat.

End ConnectionUtil.

(* ===================================================================== *)
(** ** utils/wallet.ts *)
(* ===================================================================== *)

Module Wallet.

Definition readFileSync (w : World) (path : string) : M string :=
  emit (EvReadFile path) ;; lift (w_readFile w path).

(** [Keypair.fromSecretKey(Uint8Array.from(JSON.parse(raw)))] *)
Definition keypair_of_json `{Platform} (raw : string) : Res Keypair :=
  match Uint8Array_from_JSON raw with
  | Val secret => Keypair_fromSecretKey secret
  | Throw msg => Throw msg
  end.

(** [Keypair.fromSecretKey(bs58.decode(base58Key))] *)
Definition keypair_of_base58 `{Platform} (base58Key : string) : Res Keypair :=
  match bs58_decode base58Key with
  | Val secret => Keypair_fromSecretKey secret
  | Throw msg => Throw msg
  end.

Definition loadKeypairFromFile `{Platform} (cfg : Config.t) (w : World)
    (path : option string) : M Keypair :=
  raw <- readFileSync w
           (match path with Some p => p | None => Config.WALLET_PATH cfg end) ;;
  lift (keypair_of_json raw).

Definition loadKeypairFromBase58 `{Platform} (base58Key : string) : M Keypair :=
  lift (keypair_of_base58 base58Key).

Definition resolveKeypair `{Platform} (cfg : Config.t) (w : World) : M Keypair :=
  match w_env w "WALLET_PRIVATE_KEY" with
  | Some envKey =>
      if JS.nonempty envKey then loadKeypairFromBase58 envKey
      else loadKeypairFromFile cfg w None
  | None => loadKeypairFromFile cfg w None
  end.

End Wallet.

(* ===================================================================== *)
(** ** actions/*.ts: the orchestrators *)
(* ===================================================================== *)

Module Actions.

Import Config ConnectionUtil Wallet.

Section WithPlatform.

Context `{Platform}.
Variable cfg : Config.t.
Variable w : World.

(** [process.argv[2 + i]] *)
Definition arg (i : nat) : option string := nth_error (w_argv w) i.

(** [`${n}`] for a length. *)
Definition show_length {A} (l : list A) : string :=
  JS.digits (Z.of_nat (List.length l)).

Definition rule : string := JS.repeat_string "─" 60.

(** [toTokenAmount] with its exception. *)
Definition toTokenAmountM (uiAmount : JS.Number) (decimals : Z) : M Z :=
  match TokenHelpers.toTokenAmount uiAmount decimals with
  | Some raw => ret raw
  | None => throw (BigInt_error (TokenHelpers.scaled uiAmount decimals))
  end.

(** [for (const x of xs) body(x)] *)
Fixpoint for_each {A} (xs : list A) (body : A -> M unit) : M unit :=
  match xs with
  | [] => ret tt
  | x :: rest => body x ;; for_each rest body
  end.

(** *** airdrop-devnet.ts *)

Definition airdrop_main : M unit :=
  (if String.eqb (NETWORK cfg) "mainnet-beta"
   then
     console_error "Airdrop is not available on mainnet. Use devnet or testnet." ;;
     process_exit 1
   else ret tt) ;;
  connection <- getConnection cfg ;;
  let amountSOL := parseFloat (JS.or_else (arg 0) "2") in
  address <-
    match JS.truthy (arg 1) with
    | Some addressStr => lift (PublicKey_new addressStr)
    | None => kp <- resolveKeypair cfg w ;; ret (publicKey kp)
    end ;;
  let lamports := JS.Math_round (JS.mul amountSOL LAMPORTS_PER_SOL) in
  console_log ("Requesting " ++ Number_toString amountSOL ++ " SOL airdrop on "
               ++ NETWORK cfg ++ "...") ;;
  console_log ("Address: " ++ toBase58 address) ;;
  sig <- rpc connection (RequestAirdrop address lamports) (w_requestAirdrop w) ;;
  console_log ("Airdrop requested: " ++ sig) ;;
  console_log "Confirming..." ;;
  anchor <- rpc connection GetLatestBlockhash (w_latestBlockhash w) ;;
  rpc connection (ConfirmTransaction sig (Some anchor) "confirmed") (w_confirm w) ;;
  balance <- rpc connection (GetBalance address) (w_getBalance w) ;;
  console_log ("✓ Airdrop confirmed. New balance: "
               ++ Number_toString (JS.div balance LAMPORTS_PER_SOL) ++ " SOL").

(** *** check-balance.ts *)

Definition balance_main : M unit :=
  connection <- getConnection cfg ;;
  address <-
    match JS.truthy (arg 0) with
    | Some addressStr => lift (PublicKey_new addressStr)
    | None => kp <- resolveKeypair cfg w ;; ret (publicKey kp)
    end ;;
  console_log ("Network: " ++ NETWORK cfg) ;;
  console_log ("Address: " ++ toBase58 address) ;;
  console_log rule ;;
  lamports <- rpc connection (GetBalance address) (w_getBalance w) ;;
  let sol := JS.div lamports LAMPORTS_PER_SOL in
  console_log ("SOL Balance: " ++ Number_toFixed sol 9 ++ " SOL ("
               ++ Number_toString lamports ++ " lamports)") ;;
  tokenAccounts <-
    rpc connection (GetParsedTokenAccountsByOwner address) (w_tokenAccounts w) ;;
  match tokenAccounts with
  | _ :: _ =>
      console_log (JS.nl ++ "Token Accounts (" ++ show_length tokenAccounts ++ "):") ;;
      console_log rule ;;
      for_each tokenAccounts (fun ta =>
        console_log ("  Mint:    " ++ ta_mint ta) ;;
        console_log ("  ATA:     " ++ toBase58 (ta_pubkey ta)) ;;
        console_log ("  Balance: " ++ ta_uiAmountString ta ++ " (decimals: "
                     ++ Number_toString (ta_decimals ta) ++ ")") ;;
        console_log "")
  | [] => console_log (JS.nl ++ "No SPL token accounts found.")
  end.

(** *** transfer-sol.ts *)

Definition transfer_sol_main : M unit :=
  match JS.truthy (arg 0), JS.truthy (arg 1) with
  | Some recipient, Some amountStr =>
      connection <- getConnection cfg ;;
      payer <- resolveKeypair cfg w ;;
      to <- lift (PublicKey_new recipient) ;;
      let lamports :=
        JS.Math_round (JS.mul (parseFloat amountStr) LAMPORTS_PER_SOL) in
      console_log ("Transferring " ++ amountStr ++ " SOL to " ++ toBase58 to ++ "...") ;;
      console_log ("From: " ++ toBase58 (publicKey payer)) ;;
      tx <- lift (SystemProgram_transfer (publicKey payer) to lamports) ;;
      sig <- rpc connection (SendAndConfirmTransaction tx [payer])
               (w_sendAndConfirm w) ;;
      console_log ("✓ Transaction confirmed: " ++ sig)
  | _, _ =>
      console_error "Usage: ts-node actions/transfer-sol.ts <recipient> <amountSOL>" ;;
      process_exit 1
  end.

(** *** create-token-account.ts *)

Definition create_account_main : M unit :=
  match JS.truthy (arg 0) with
  | Some mintStr =>
      connection <- getConnection cfg ;;
      payer <- resolveKeypair cfg w ;;
      mint <- lift (PublicKey_new mintStr) ;;
      owner <-
        match JS.truthy (arg 1) with
        | Some ownerStr => lift (PublicKey_new ownerStr)
        | None => ret (publicKey payer)
        end ;;
      console_log "Creating token account..." ;;
      console_log ("  Mint:  " ++ toBase58 mint) ;;
      console_log ("  Owner: " ++ toBase58 owner) ;;
      ata <- rpc connection (GetOrCreateAssociatedTokenAccount payer mint owner)
               (w_getOrCreateATA w) ;;
      console_log ("✓ Token account: " ++ toBase58 (acc_address ata)) ;;
      console_log ("  Balance: " ++ JS.BigInt_toString (acc_amount ata))
  | None =>
      console_error "Usage: ts-node actions/create-token-account.ts <mint> [owner]" ;;
      process_exit 1
  end.

(** *** create-token.ts *)

(** [parseInt(process.argv[2] || "9", 10)] *)
Definition create_token_decimals : JS.Number :=
  JS.parseInt10 (JS.or_else (arg 0) "9").

Definition create_token_main : M unit :=
  let decimals := create_token_decimals in
  connection <- getConnection cfg ;;
  payer <- resolveKeypair cfg w ;;
  emit EvGenerateKeypair ;;
  let mintKeypair := w_generate w in
  console_log ("Creating token mint with " ++ Number_toString decimals
               ++ " decimals...") ;;
  console_log ("Payer / Mint Authority: " ++ toBase58 (publicKey payer)) ;;
  mint <- rpc connection
            (CreateMint payer (publicKey payer) (publicKey payer) decimals mintKeypair)
            (w_createMint w) ;;
  console_log ("✓ Token mint created: " ++ toBase58 mint) ;;
  console_log ("  Decimals:        " ++ Number_toString decimals) ;;
  console_log ("  Mint authority:  " ++ toBase58 (publicKey payer)) ;;
  console_log ("  Freeze authority: " ++ toBase58 (publicKey payer)).

(** *** mint-tokens.ts *)

Definition mint_tokens_main : M unit :=
  match JS.truthy (arg 0), JS.truthy (arg 1), JS.truthy (arg 2) with
  | Some mintStr, Some recipientStr, Some amountStr =>
      connection <- getConnection cfg ;;
      authority <- resolveKeypair cfg w ;;
      mint <- lift (PublicKey_new mintStr) ;;
      recipient <- lift (PublicKey_new recipientStr) ;;
      let amount := parseFloat amountStr in
      decimals <- rpc connection (GetMint mint) (w_getMint w) ;;
      rawAmount <- toTokenAmountM amount decimals ;;
      recipientATA <-
        rpc connection (GetOrCreateAssociatedTokenAccount authority mint recipient)
          (w_getOrCreateATA w) ;;
      console_log ("Minting " ++ Number_toString amount ++ " tokens...") ;;
      console_log ("  Mint:      " ++ toBase58 mint) ;;
      console_log ("  To:        " ++ toBase58 (acc_address recipientATA)) ;;
      console_log ("  Authority: " ++ toBase58 (publicKey authority)) ;;
      sig <- rpc connection
               (MintTo authority mint (acc_address recipientATA) authority rawAmount)
               (w_mintTo w) ;;
      console_log ("✓ Minted " ++ Number_toString amount ++ " tokens: " ++ sig)
  | _, _, _ =>
      console_error "Usage: ts-node actions/mint-tokens.ts <mint> <recipient> <amount>" ;;
      process_exit 1
  end.

(** *** transfer-token.ts *)

Definition transfer_token_main : M unit :=
  match JS.truthy (arg 0), JS.truthy (arg 1), JS.truthy (arg 2) with
  | Some mintStr, Some recipientStr, Some amountStr =>
      connection <- getConnection cfg ;;
      payer <- resolveKeypair cfg w ;;
      mint <- lift (PublicKey_new mintStr) ;;
      recipient <- lift (PublicKey_new recipientStr) ;;
      let amount := parseFloat amountStr in
      decimals <- rpc connection (GetMint mint) (w_getMint w) ;;
      rawAmount <- toTokenAmountM amount decimals ;;
      senderATA <- lift (getAssociatedTokenAddressSync mint (publicKey payer)) ;;
      recipientAccount <-
        rpc connection (GetOrCreateAssociatedTokenAccount payer mint recipient)
          (w_getOrCreateATA w) ;;
      console_log ("Transferring " ++ Number_toString amount ++ " tokens (mint: "
                   ++ toBase58 mint ++ ")...") ;;
      console_log ("From ATA: " ++ toBase58 senderATA) ;;
      console_log ("To ATA:   " ++ toBase58 (acc_address recipientAccount)) ;;
      sig <- rpc connection
               (Transfer payer senderATA (acc_address recipientAccount) payer rawAmount)
               (w_transfer w) ;;
      console_log ("✓ Token transfer confirmed: " ++ sig)
  | _, _, _ =>
      console_error "Usage: ts-node actions/transfer-token.ts <mint> <recipient> <amount>" ;;
      process_exit 1
  end.

(** *** swap-jupiter.ts *)

(** A property read [j.name]: [undefined] when absent, a [TypeError] on
    [null]. *)
Definition get_field (j : Json) (name : string) : Res (option Json) :=
  match j with
  | JNull => Throw (null_property_error name)
  | JObj fields =>
      Val (match find (fun kv => String.eqb (fst kv) name) fields with
           | Some kv => Some (snd kv)
           | None => None
           end)
  | _ => Val None
  end.

(** A destructuring [const { name } = j]. *)
Definition destructure (j : Json) (name : string) : Res (option Json) :=
  match j with
  | JNull => Throw (null_destructure_error name)
  | _ => get_field j name
  end.

Definition swap_main : M unit :=
  match JS.truthy (arg 0), JS.truthy (arg 1), JS.truthy (arg 2) with
  | Some inputMintStr, Some outputMintStr, Some amountStr =>
      connection <- getConnection cfg ;;
      payer <- resolveKeypair cfg w ;;
      inputMint <- lift (PublicKey_new inputMintStr) ;;
      outputMint <- lift (PublicKey_new outputMintStr) ;;
      let slippageBps := JS.parseInt10 (JS.or_else (arg 3) "50") in
      let amount := parseFloat amountStr in
      decimals <- rpc connection (GetMint inputMint) (w_getMint w) ;;
      rawAmount <- toTokenAmountM amount decimals ;;
      console_log ("Swapping " ++ Number_toString amount ++ " of "
                   ++ toBase58 inputMint ++ " → " ++ toBase58 outputMint) ;;
      console_log ("Slippage: " ++ Number_toString slippageBps ++ " bps") ;;
      quoteRes <-
        fetch (HttpGet (JUPITER_API_URL ++ "/quote")
                 [("inputMint", toBase58 inputMint);
                  ("outputMint", toBase58 outputMint);
                  ("amount", JS.BigInt_toString rawAmount);
                  ("slippageBps", Number_toString slippageBps)])
          (w_quote w) ;;
      (if ok quoteRes then ret tt
       else text <- lift (body_text quoteRes) ;;
            throw ("Jupiter quote failed: " ++ text)) ;;
      quote <- lift (body_json quoteRes) ;;
      outAmount <- lift (get_field quote "outAmount") ;;
      console_log ("Quote received — estimated out: " ++ js_ToString outAmount) ;;
      swapRes <-
        fetch (HttpPost (JUPITER_API_URL ++ "/swap")
                 [("Content-Type", "application/json")]
                 (JObj [("quoteResponse", quote);
                        ("userPublicKey", JStr (toBase58 (publicKey payer)));
                        ("wrapAndUnwrapSol", JBool true)]))
          (w_swap w) ;;
      (if ok swapRes then ret tt
       else text <- lift (body_text swapRes) ;;
            throw ("Jupiter swap failed: " ++ text)) ;;
      swapJson <- lift (body_json swapRes) ;;
      swapTransaction <- lift (destructure swapJson "swapTransaction") ;;
      txBuf <- lift (Buffer_from_base64 swapTransaction) ;;
      tx <- lift (VersionedTransaction_deserialize txBuf) ;;
      lift (VersionedTransaction_signer_check tx (publicKey payer)) ;;
      let signed := VersionedTransaction_add_signature tx payer in
      sig <- rpc connection
               (SendRawTransaction (VersionedTransaction_serialize signed) false 3)
               (w_sendRaw w) ;;
      rpc connection (ConfirmTransaction sig None "confirmed") (w_confirm w) ;;
      console_log ("✓ Swap confirmed: " ++ sig)
  | _, _, _ =>
      console_error "Usage: ts-node actions/swap-jupiter.ts <inputMint> <outputMint> <amount> [slippageBps]" ;;
      process_exit 1
  end.

(** *** deploy-program.ts *)

Definition deploy_main : M unit :=
  match JS.truthy (arg 0), JS.truthy (arg 1) with
  | Some programKeypairPath, Some soBinaryPath =>
      emit (EvExists soBinaryPath) ;;
      (if w_exists w soBinaryPath then ret tt
       else
         console_error ("Binary not found: " ++ soBinaryPath) ;;
         console_error "Did you run `anchor build` or `cargo build-sbf`?" ;;
         process_exit 1) ;;
      raw <- readFileSync w programKeypairPath ;;
      kp <- lift (keypair_of_json raw) ;;
      console_log ("Program ID: " ++ toBase58 (publicKey kp)) ;;
      console_log ("Binary:     " ++ soBinaryPath) ;;
      console_log ("RPC:        " ++ RPC_URL cfg) ;;
      console_log "" ;;
      let cmd :=
        "solana program deploy " ++ JS.dq ++ soBinaryPath ++ JS.dq
        ++ " --program-id " ++ JS.dq ++ programKeypairPath ++ JS.dq
        ++ " --url " ++ JS.dq ++ RPC_URL cfg ++ JS.dq in
      console_log ("Running: " ++ cmd ++ JS.nl) ;;
      emit (EvExec cmd) ;;
      if w_execSync w cmd
      then console_log (JS.nl ++ "✓ Program deployed successfully")
      else
        console_error (JS.nl ++ "Deploy failed. Check output above for details.") ;;
        process_exit 1
  | _, _ =>
      console_error "Usage: ts-node actions/deploy-program.ts <programKeypairPath> <soBinaryPath>" ;;
      console_error "" ;;
      console_error "  programKeypairPath — Path to the program keypair JSON" ;;
      console_error "  soBinaryPath       — Path to the compiled .so file" ;;
      console_error "" ;;
      console_error "Example:" ;;
      console_error "  ts-node actions/deploy-program.ts target/deploy/my_program-keypair.json target/deploy/my_program.so" ;;
      process_exit 1
  end.

(** *** fetch-tx.ts *)

Definition json_truthy (j : Json) : bool :=
  match j with
  | JNull => false
  | JBool b => b
  | JNum x => JS.truthy_number x
  | JStr s => JS.nonempty s
  | JArr _ | JObj _ => true
  end.

(** [tx.meta?.err], when it is truthy. *)
Definition meta_err (tx : ParsedTransaction) : option Json :=
  match meta tx with
  | Some m =>
      match err m with
      | Some e => if json_truthy e then Some e else None
      | None => None
      end
  | None => None
  end.

Definition show_instruction (ix : Instruction) : M unit :=
  match ix with
  | Parsed program parsed =>
      console_log ("  Program: " ++ program) ;;
      type <- lift (get_field parsed "type") ;;
      console_log ("  Type:    " ++ js_ToString type) ;;
      info <- lift (get_field parsed "info") ;;
      console_log ("  Info:    " ++ JSON_stringify_pretty info)
  | PartiallyDecoded programId data =>
      console_log ("  Program: " ++ toBase58 programId) ;;
      console_log ("  Data:    " ++ data)
  end ;;
  console_log "".

Definition fetch_tx_main : M unit :=
  match JS.truthy (arg 0) with
  | Some signature =>
      connection <- getConnection cfg ;;
      console_log ("Fetching transaction on " ++ NETWORK cfg ++ "...") ;;
      console_log ("Signature: " ++ signature ++ JS.nl) ;;
      found <- rpc connection (GetParsedTransaction signature 0)
                 (w_getParsedTransaction w) ;;
      match found with
      | None =>
          console_error "Transaction not found. It may still be processing or the signature is invalid." ;;
          process_exit 1
      | Some tx =>
          console_log rule ;;
          console_log ("Slot:           " ++ Number_toString (slot tx)) ;;
          time <-
            match blockTime tx with
            | Some t =>
                if JS.truthy_number t
                then lift (Date_toISOString (JS.mul t (JS.of_Z 1000)))
                else ret "N/A"
            | None => ret "N/A"
            end ;;
          console_log ("Block Time:     " ++ time) ;;
          console_log ("Fee:            "
                       ++ match meta tx with
                          | Some m => Number_toString (fee m)
                          | None => "undefined"
                          end ++ " lamports") ;;
          console_log ("Status:         "
                       ++ match meta_err tx with
                          | Some _ => "FAILED"
                          | None => "SUCCESS"
                          end) ;;
          match meta_err tx with
          | Some e => console_log ("Error:          " ++ JSON_stringify e)
          | None => ret tt
          end ;;
          console_log ("Compute Units:  "
                       ++ match meta tx with
                          | Some m =>
                              match computeUnitsConsumed m with
                              | Some u => Number_toString u
                              | None => "N/A"
                              end
                          | None => "N/A"
                          end) ;;
          let signers :=
            map (fun k => toBase58 (fst k))
                (filter (fun k => snd k) (accountKeys tx)) in
          console_log (JS.nl ++ "Signers (" ++ show_length signers ++ "):") ;;
          for_each signers (fun s => console_log ("  " ++ s)) ;;
          console_log (JS.nl ++ "Instructions (" ++ show_length (instructions tx) ++ "):") ;;
          for_each (instructions tx) show_instruction ;;
          match meta tx with
          | Some m =>
              match logMessages m with
              | Some (l :: logs) =>
                  console_log "Log Messages:" ;;
                  for_each (l :: logs) (fun line => console_log ("  " ++ line))
              | _ => ret tt
              end
          | None => ret tt
          end
      end
  | None =>
      console_error "Usage: ts-node actions/fetch-tx.ts <signature>" ;;
      process_exit 1
  end.

End WithPlatform.

(** *** The scripts as processes *)

Inductive Orchestrator :=
| Balance
| Airdrop
| TransferSol
| TransferToken
| CreateToken
| CreateTokenAccount
| MintTokens
| SwapJupiter
| DeployProgram
| FetchTx.

Definition main_of `{Platform} (o : Orchestrator) (cfg : Config.t) (w : World)
  : M unit :=
  match o with
  | Balance => balance_main cfg w
  | Airdrop => airdrop_main cfg w
  | TransferSol => transfer_sol_main cfg w
  | TransferToken => transfer_token_main cfg w
  | CreateToken => create_token_main cfg w
  | CreateTokenAccount => create_account_main cfg w
  | MintTokens => mint_tokens_main cfg w
  | SwapJupiter => swap_main cfg w
  | DeployProgram => deploy_main cfg w
  | FetchTx => fetch_tx_main cfg w
  end.

(** The first argument of [console.error] in the [catch] handler. *)
Definition failure_prefix (o : Orchestrator) : string :=
  match o with
  | Balance => "Balance check failed:"
  | Airdrop => "Airdrop failed:"
  | TransferSol => "Transfer failed:"
  | TransferToken => "Token transfer failed:"
  | CreateToken => "Create token failed:"
  | CreateTokenAccount => "Create token account failed:"
  | MintTokens => "Mint failed:"
  | SwapJupiter => "Swap failed:"
  | DeployProgram => "Deploy failed:"
  | FetchTx => "Fetch failed:"
  end.

Record Run := { exit_code : Z; events : list Event }.

(** How a run of [main().catch((err) => { console.error(prefix,
    err.message); process.exit(1); })] ends. *)
Definition result_of (prefix : string) (o : Outcome unit) (st : Proc) : Run :=
  match o with
  | Done _ => {| exit_code := 0; events := trace st |}
  | Exited code => {| exit_code := code; events := trace st |}
  | Thrown msg =>
      {| exit_code := 1;
         events := trace st ++ [EvError (prefix ++ " " ++ msg)] |}
  end.

(** [main] from the initial state of the process. *)
Definition run_main (main : M unit) (prefix : string) : Run :=
  result_of prefix (fst (main initial)) (snd (main initial)).

(** One invocation of a script: the modules are evaluated (an exception
    there is uncaught), then [main] runs. *)
Definition script `{Platform} (o : Orchestrator) (w : World) : Run :=
  match Config.load w with
  | Val cfg => run_main (main_of o cfg w) (failure_prefix o)
  | Throw msg => {| exit_code := 1; events := [EvUncaught msg] |}
  end.

(** *** Observations on a run *)

Inductive Stream := Stdout | Stderr.

Definition console_of (e : Event) : option (Stream * string) :=
  match e with
  | EvLog line => Some (Stdout, line)
  | EvError line => Some (Stderr, line)
  | EvUncaught msg => Some (Stderr, msg)
  | _ => None
  end.

(** What the process writes to the console, in order. *)
Fixpoint console (evs : list Event) : list (Stream * string) :=
  match evs with
  | [] => []
  | e :: rest =>
      match console_of e with
      | Some line => line :: console rest
      | None => console rest
      end
  end.

(** Contact with the network: a connection is constructed, a request is
    sent to the RPC node, an HTTP request is made. *)
Definition is_network (e : Event) : bool :=
  match e with
  | EvNewConnection _ | EvRpc _ _ | EvFetch _ => true
  | _ => false
  end.

(** A submission of signed transaction bytes. *)
Definition is_submission (e : Event) : bool :=
  match e with
  | EvRpc _ (SendRawTransaction _ _ _) => true
  | _ => false
  end.

(** A request for a fresh blockhash. *)
Definition is_anchor_fetch (e : Event) : bool :=
  match e with
  | EvRpc _ GetLatestBlockhash => true
  | _ => false
  end.

(** Every submission in the trace comes after a request for a fresh
    blockhash made since the previous submission; [fresh] tells whether
    one has been made so far. *)
Fixpoint anchored (fresh : bool) (evs : list Event) : bool :=
  match evs with
  | [] => true
  | e :: rest =>
      if is_submission e then fresh && anchored false rest
      else anchored (fresh || is_anchor_fetch e) rest
  end.

Definition submissions (evs : list Event) : nat :=
  List.length (filter is_submission evs).

(** Neither a submission nor a request for a blockhash. *)
Definition is_quiet (e : Event) : bool :=
  negb (is_submission e) && negb (is_anchor_fetch e).

Definition quiet (st : Proc) : Prop :=
  Forall (fun e => is_quiet e = true) (trace st).

(** The options of a submission are [skipPreflight: false] and
    [maxRetries: 3]. *)
Definition with_swap_options (e : Event) : Prop :=
  forall c raw skipPreflight maxRetries,
    e = EvRpc c (SendRawTransaction raw skipPreflight maxRetries) ->
    skipPreflight = false /\ maxRetries = 3.

(** The submission discipline of the swap script in the world [w]: at
    most one submission, made with the options above, no request for a
    blockhash, and exit status 1 when the submission or its confirmation
    fails. *)
Definition swap_post (w : World) (r : Run) : Prop :=
  (submissions (events r) <= 1)%nat
  /\ Forall (fun e => is_anchor_fetch e = false) (events r)
  /\ Forall with_swap_options (events r)
  /\ (forall msg,
        w_sendRaw w = Throw msg \/ w_confirm w = Throw msg ->
        submissions (events r) = 1%nat -> exit_code r = 1).

End Actions.

(* ===================================================================== *)
(** ** Secret key material: what two runs may differ in *)
(* ===================================================================== *)

Module Secrecy.

Import Wallet Actions.

(** What a key pair, or the failure to load one, shows of itself: the
    public key, or the message of the exception. *)
Definition public_part (r : Res Keypair) : Res PublicKey :=
  match r with
  | Val kp => Val (publicKey kp)
  | Throw msg => Throw msg
  end.

(** The public part of what WALLET_PRIVATE_KEY decodes to. *)
Definition env_view `{Platform} (envKey : option string) : option (Res PublicKey) :=
  match JS.truthy envKey with
  | Some k => Some (public_part (keypair_of_base58 k))
  | None => None
  end.

(** The public part of what the key file at [path] decodes to. *)
Definition file_view `{Platform} (files : string -> Res string) (path : string)
  : Res PublicKey :=
  match files path with
  | Val raw => public_part (keypair_of_json raw)
  | Throw msg => Throw msg
  end.

(** The world [w] with other secret key material: the value of
    WALLET_PRIVATE_KEY and the content of the files. *)
Definition with_secrets (w : World) (envKey : option string)
    (files : string -> Res string) : World :=
  {| w_env := fun name =>
       if String.eqb name "WALLET_PRIVATE_KEY" then envKey else w_env w name;
     w_argv := w_argv w;
     w_readFile := files;
     w_exists := w_exists w;
     w_execSync := w_execSync w;
     w_generate := w_generate w;
     w_getBalance := w_getBalance w;
     w_tokenAccounts := w_tokenAccounts w;
     w_requestAirdrop := w_requestAirdrop w;
     w_latestBlockhash := w_latestBlockhash w;
     w_confirm := w_confirm w;
     w_sendAndConfirm := w_sendAndConfirm w;
     w_getMint := w_getMint w;
     w_getOrCreateATA := w_getOrCreateATA w;
     w_createMint := w_createMint w;
     w_mintTo := w_mintTo w;
     w_transfer := w_transfer w;
     w_sendRaw := w_sendRaw w;
     w_getParsedTransaction := w_getParsedTransaction w;
     w_quote := w_quote w;
     w_swap := w_swap w |}.

(** Two states an observer of the console cannot tell apart. *)
Definition same_console (s1 s2 : Proc) : Prop :=
  _connection s1 = _connection s2
  /\ next_id s1 = next_id s2
  /\ console (trace s1) = console (trace s2).

Definition same_outcome {A} (R : A -> A -> Prop) (o1 o2 : Outcome A) : Prop :=
  match o1, o2 with
  | Done a, Done b => R a b
  | Thrown m1, Thrown m2 => m1 = m2
  | Exited c1, Exited c2 => c1 = c2
  | _, _ => False
  end.

(** Two computations that run in lockstep for the observer, with results
    related by [R]. *)
Definition lockstep {A} (R : A -> A -> Prop) (m1 m2 : M A) : Prop :=
  forall s1 s2,
    same_console s1 s2 ->
    same_outcome R (fst (m1 s1)) (fst (m2 s2))
    /\ same_console (snd (m1 s1)) (snd (m2 s2)).

Definition same_public_key (k1 k2 : Keypair) : Prop :=
  publicKey k1 = publicKey k2.

End Secrecy.

(* ===================================================================== *)
(** ** A sample platform and sample worlds *)
(* ===================================================================== *)

Module Sample.

(** A platform with simple library functions: a key pair has the first
    secret byte as public key, public keys print as their bytes. *)
Definition platform : Platform := {|
  bs58_decode := fun s => Val (list_byte_of_string s);
  Keypair_fromSecretKey := fun b =>
    match b with
    | x :: _ => Val {| publicKey := {| pk_bytes := [x] |}; secretKey := b |}
    | [] => Throw "bad secret key size"
    end;
  Uint8Array_from_JSON := fun raw => Val (list_byte_of_string raw);
  PublicKey_new := fun s =>
    if JS.nonempty s then Val {| pk_bytes := list_byte_of_string s |}
    else Throw "Invalid public key input";
  toBase58 := fun pk => string_of_list_byte (pk_bytes pk);
  clusterApiUrl := fun n => Val ("https://api." ++ n ++ ".solana.com");
  Connection_check := fun url =>
    if String.prefix "http" url then Val tt
    else Throw "Endpoint URL must start with `http:` or `https:`.";
  parseFloat := JS.parseInt10;
  Number_toString := fun x =>
    match JS.BigInt x with Some z => JS.BigInt_toString z | None => "NaN" end;
  Number_toFixed := fun x _ =>
    match JS.BigInt x with Some z => JS.BigInt_toString z | None => "NaN" end;
  BigInt_error := fun _ => "The number cannot be converted to a BigInt";
  null_property_error := fun _ => "Cannot read properties of null";
  JSON_stringify := fun _ => "{}";
  JSON_stringify_pretty := fun _ => "{}";
  Date_toISOString := fun _ => Val "1970-01-01T00:00:00.000Z";
  Buffer_from_base64 := fun v =>
    match v with
    | Some (JStr s) => Val (list_byte_of_string s)
    | _ => Throw "The first argument must be of type string"
    end;
  VersionedTransaction_deserialize := fun b =>
    Val {| vt_message := b; vt_signatures := [] |};
  VersionedTransaction_signer_check := fun _ _ => Val tt;
  VersionedTransaction_add_signature := fun tx kp =>
    {| vt_message := vt_message tx;
       vt_signatures := [pk_bytes (publicKey kp)] |};
  VersionedTransaction_serialize := fun tx => vt_message tx;
  null_destructure_error := fun _ => "Cannot destructure property of null";
  js_ToString := fun v =>
    match v with Some (JStr s) => s | _ => "undefined" end;
  SystemProgram_transfer := fun a b l =>
    Val {| fromPubkey := a; toPubkey := b; lamports := l |};
  getAssociatedTokenAddressSync := fun mint owner => Val owner
|}.

Definition key : Keypair :=
  {| publicKey := {| pk_bytes := ["M"%byte] |};
     secretKey := ["M"%byte; "x"%byte] |}.

(** A test-network world in which every request succeeds; the identity
    comes from WALLET_PRIVATE_KEY. *)
Definition world : World := {|
  w_env := fun name =>
    if String.eqb name "WALLET_PRIVATE_KEY" then Some "Kalpha"
    else if String.eqb name "SOLANA_NETWORK" then Some "devnet"
    else None;
  w_argv := ["In"; "Out"; "1"];
  w_readFile := fun _ => Val "Kfile";
  w_exists := fun _ => true;
  w_execSync := fun _ => true;
  w_generate := key;
  w_getBalance := Val (JS.of_Z 5);
  w_tokenAccounts := Val [];
  w_requestAirdrop := Val "sig";
  w_latestBlockhash := Val ("hash", JS.of_Z 100);
  w_confirm := Val tt;
  w_sendAndConfirm := Val "sig";
  w_getMint := Val 9;
  w_getOrCreateATA := Val {| acc_address := {| pk_bytes := [] |}; acc_amount := 0 |};
  w_createMint := Val {| pk_bytes := ["M"%byte] |};
  w_mintTo := Val "sig";
  w_transfer := Val "sig";
  w_sendRaw := Val "sig";
  w_getParsedTransaction := Val None;
  w_quote := Val {| ok := true; body_text := Val "";
                    body_json := Val (JObj [("outAmount", JStr "42")]) |};
  w_swap := Val {| ok := true; body_text := Val "";
                   body_json := Val (JObj [("swapTransaction", JStr "tx")]) |}
|}.

(** The same world without any variable set: the network defaults to
    the production network, the identity comes from the key file. *)
Definition mainnet_world : World := {|
  w_env := fun _ => None;
  w_argv := [];
  w_readFile := w_readFile world;
  w_exists := w_exists world;
  w_execSync := w_execSync world;
  w_generate := w_generate world;
  w_getBalance := w_getBalance world;
  w_tokenAccounts := w_tokenAccounts world;
  w_requestAirdrop := w_requestAirdrop world;
  w_latestBlockhash := w_latestBlockhash world;
  w_confirm := w_confirm world;
  w_sendAndConfirm := w_sendAndConfirm world;
  w_getMint := w_getMint world;
  w_getOrCreateATA := w_getOrCreateATA world;
  w_createMint := w_createMint world;
  w_mintTo := w_mintTo world;
  w_transfer := w_transfer world;
  w_sendRaw := w_sendRaw world;
  w_getParsedTransaction := w_getParsedTransaction world;
  w_quote := w_quote world;
  w_swap := w_swap world
|}.

Definition config : Config.t :=
  {| Config.NETWORK := "devnet";
     Config.RPC_URL := "https://api.devnet.solana.com";
     Config.WALLET_PATH := "undefined/.config/solana/id.json" |}.

Definition mainnet_config : Config.t :=
  {| Config.NETWORK := "mainnet-beta";
     Config.RPC_URL := "https://api.mainnet-beta.solana.com";
     Config.WALLET_PATH := "undefined/.config/solana/id.json" |}.

(** [w] with other answers to the submission and to its confirmation. *)
Definition with_answers (w : World) (sendRaw : Res string) (confirm : Res unit)
  : World := {|
  w_env := w_env w;
  w_argv := w_argv w;
  w_readFile := w_readFile w;
  w_exists := w_exists w;
  w_execSync := w_execSync w;
  w_generate := w_generate w;
  w_getBalance := w_getBalance w;
  w_tokenAccounts := w_tokenAccounts w;
  w_requestAirdrop := w_requestAirdrop w;
  w_latestBlockhash := w_latestBlockhash w;
  w_confirm := confirm;
  w_sendAndConfirm := w_sendAndConfirm w;
  w_getMint := w_getMint w;
  w_getOrCreateATA := w_getOrCreateATA w;
  w_createMint := w_createMint w;
  w_mintTo := w_mintTo w;
  w_transfer := w_transfer w;
  w_sendRaw := sendRaw;
  w_getParsedTransaction := w_getParsedTransaction w;
  w_quote := w_quote w;
  w_swap := w_swap w
|}.

(** The submitted transaction is never confirmed: its blockhash expires. *)
Definition expired_world : World :=
  with_answers world (Val "sig")
    (Throw "Signature sig has expired: block height exceeded.").

(** The submission is rejected: the balance does not cover the swap. *)
Definition rejected_world : World :=
  with_answers world
    (Throw "Transaction simulation failed: insufficient funds") (Val tt).

End Sample.

(* ===================================================================== *)
(** ** utils/token-helpers.ts: the token account helpers *)
(* ===================================================================== *)

Module TokenAccounts.

(** [deriveATA(wallet, mint)]: the arguments are handed to
    [getAssociatedTokenAddressSync] in the other order. *)
Definition deriveATA `{Platform} (wallet mint : PublicKey) : Res PublicKey :=
  getAssociatedTokenAddressSync mint wallet.

(** [ensureATA(connection, payer, mint, owner)] *)
Definition ensureATA (w : World) (connection : Connection) (payer : Keypair)
    (mint owner : PublicKey) : M Account :=
  rpc connection (GetOrCreateAssociatedTokenAccount payer mint owner)
    (w_getOrCreateATA w).

End TokenAccounts.

(* ===================================================================== *)
(** ** What a run does and does not do *)
(* ===================================================================== *)

Module Traces.

Import Actions.

(** [P] holds of every event so far. *)
Definition throughout (P : Event -> Prop) (st : Proc) : Prop :=
  Forall P (trace st).

(** A line on the standard error stream. *)
Definition is_stderr (e : Event) : bool :=
  match e with
  | EvError _ | EvUncaught _ => true
  | _ => false
  end.

(** The event changes nothing outside the process: it is no request that
    moves funds, creates an account or a mint, or submits a transaction,
    no HTTP request, no command, no key generation. *)
Definition is_read_only (e : Event) : bool :=
  match e with
  | EvRpc _ (GetBalance _)
  | EvRpc _ (GetParsedTokenAccountsByOwner _)
  | EvRpc _ GetLatestBlockhash
  | EvRpc _ (GetMint _)
  | EvRpc _ (GetParsedTransaction _ _) => true
  | EvRpc _ _ | EvFetch _ | EvExec _ | EvGenerateKeypair => false
  | _ => true
  end.

(** The number of leading arguments a script asks for before it does
    anything else. *)
Definition required_args (o : Orchestrator) : nat :=
  match o with
  | Balance | Airdrop | CreateToken => 0
  | CreateTokenAccount | FetchTx => 1
  | TransferSol | DeployProgram => 2
  | TransferToken | MintTokens | SwapJupiter => 3
  end.

(** How a run reports its result: status 0 and nothing on the standard
    error stream, or status 1 and a line on the standard error stream as
    the last thing the run does. *)
Definition reported (r : Run) : Prop :=
  (exit_code r = 0 /\ Forall (fun e => is_stderr e = false) (events r))
  \/ (exit_code r = 1
      /\ exists before e, events r = (before ++ [e])%list /\ is_stderr e = true).

(** The answers of the outside world that a script depends on: the
    requests it makes were all answered without an exception (and for the
    deployment, the command succeeded). *)
Definition succeeded (o : Orchestrator) (w : World) : Prop :=
  match o with
  | Balance =>
      exists lamports accounts,
        w_getBalance w = Val lamports /\ w_tokenAccounts w = Val accounts
  | Airdrop =>
      exists sig anchor balance,
        w_requestAirdrop w = Val sig /\ w_latestBlockhash w = Val anchor
        /\ w_confirm w = Val tt /\ w_getBalance w = Val balance
  | TransferSol => exists sig, w_sendAndConfirm w = Val sig
  | TransferToken =>
      exists decimals account sig,
        w_getMint w = Val decimals /\ w_getOrCreateATA w = Val account
        /\ w_transfer w = Val sig
  | CreateToken => exists mint, w_createMint w = Val mint
  | CreateTokenAccount => exists account, w_getOrCreateATA w = Val account
  | MintTokens =>
      exists decimals account sig,
        w_getMint w = Val decimals /\ w_getOrCreateATA w = Val account
        /\ w_mintTo w = Val sig
  | SwapJupiter =>
      exists decimals quoteRes swapRes sig,
        w_getMint w = Val decimals
        /\ w_quote w = Val quoteRes /\ ok quoteRes = true
        /\ w_swap w = Val swapRes /\ ok swapRes = true
        /\ w_sendRaw w = Val sig /\ w_confirm w = Val tt
  | DeployProgram => exists cmd, w_execSync w cmd = true
  | FetchTx => exists tx, w_getParsedTransaction w = Val (Some tx)
  end.

End Traces.

(* ===================================================================== *)
(** ** What the requests of a script carry *)
(* ===================================================================== *)

Module Requests.

Import Config Wallet Actions TokenAccounts.

Section WithPlatform.

Context `{Platform}.
Variable cfg : Config.t.
Variable w : World.

(** transfer-sol.ts: the transaction that is sent moves
    [Math.round(parseFloat(amount) * LAMPORTS_PER_SOL)] lamports from the
    identity to the recipient, and the identity is its only signer. *)
Definition transfer_sol_request (e : Event) : Prop :=
  forall c tx signers,
    e = EvRpc c (SendAndConfirmTransaction tx signers) ->
    exists recipient amountStr to payer,
      JS.truthy (arg w 0) = Some recipient
      /\ JS.truthy (arg w 1) = Some amountStr
      /\ PublicKey_new recipient = Val to
      /\ fst (resolveKeypair cfg w initial) = Done payer
      /\ SystemProgram_transfer (publicKey payer) to
           (JS.Math_round (JS.mul (parseFloat amountStr) LAMPORTS_PER_SOL))
         = Val tx
      /\ signers = [payer].

(** The account of the recipient is looked up (or created) for the mint
    and the recipient of the arguments, paid by the identity. *)
Definition recipient_account_request (e : Event) : Prop :=
  forall c payer mint owner,
    e = EvRpc c (GetOrCreateAssociatedTokenAccount payer mint owner) ->
    exists mintStr recipientStr,
      JS.truthy (arg w 0) = Some mintStr
      /\ JS.truthy (arg w 1) = Some recipientStr
      /\ PublicKey_new mintStr = Val mint
      /\ PublicKey_new recipientStr = Val owner
      /\ fst (resolveKeypair cfg w initial) = Done payer.

(** transfer-token.ts: the transfer is signed and paid by the identity,
    goes from the identity's derived account to the account answered for
    the recipient, and its amount is [toTokenAmount] of the amount
    argument at the number of decimals read from the mint. *)
Definition transfer_token_request (e : Event) : Prop :=
  (forall c payer source destination owner amount,
     e = EvRpc c (Transfer payer source destination owner amount) ->
     exists mintStr amountStr mint decimals account,
       JS.truthy (arg w 0) = Some mintStr
       /\ JS.truthy (arg w 2) = Some amountStr
       /\ PublicKey_new mintStr = Val mint
       /\ fst (resolveKeypair cfg w initial) = Done payer
       /\ owner = payer
       /\ w_getMint w = Val decimals
       /\ TokenHelpers.toTokenAmount (parseFloat amountStr) decimals = Some amount
       /\ deriveATA (publicKey payer) mint = Val source
       /\ w_getOrCreateATA w = Val account
       /\ destination = acc_address account)
  /\ recipient_account_request e.

(** mint-tokens.ts: the identity pays and is the mint authority, the
    tokens go to the account answered for the recipient, and the amount is
    [toTokenAmount] of the amount argument at the number of decimals read
    from the mint. *)
Definition mint_tokens_request (e : Event) : Prop :=
  (forall c payer mint destination authority amount,
     e = EvRpc c (MintTo payer mint destination authority amount) ->
     exists mintStr amountStr decimals account,
       JS.truthy (arg w 0) = Some mintStr
       /\ JS.truthy (arg w 2) = Some amountStr
       /\ PublicKey_new mintStr = Val mint
       /\ fst (resolveKeypair cfg w initial) = Done authority
       /\ payer = authority
       /\ w_getMint w = Val decimals
       /\ TokenHelpers.toTokenAmount (parseFloat amountStr) decimals = Some amount
       /\ w_getOrCreateATA w = Val account
       /\ destination = acc_address account)
  /\ recipient_account_request e.

(** create-token-account.ts: the owner is the second argument when it is
    given, and the identity otherwise. *)
Definition create_account_request (e : Event) : Prop :=
  forall c payer mint owner,
    e = EvRpc c (GetOrCreateAssociatedTokenAccount payer mint owner) ->
    exists mintStr,
      JS.truthy (arg w 0) = Some mintStr
      /\ PublicKey_new mintStr = Val mint
      /\ fst (resolveKeypair cfg w initial) = Done payer
      /\ match JS.truthy (arg w 1) with
         | Some ownerStr => PublicKey_new ownerStr = Val owner
         | None => owner = publicKey payer
         end.

(** airdrop-devnet.ts: an airdrop is requested only when NETWORK is not
    "mainnet-beta", for [Math.round(parseFloat(amount || "2") *
    LAMPORTS_PER_SOL)] lamports, to the address of the arguments or else
    to the identity; and what is confirmed is the signature the request
    answered, with the blockhash fetched for it. *)
Definition airdrop_request (e : Event) : Prop :=
  (forall c address lamports,
     e = EvRpc c (RequestAirdrop address lamports) ->
     String.eqb (NETWORK cfg) "mainnet-beta" = false
     /\ lamports
        = JS.Math_round
            (JS.mul (parseFloat (JS.or_else (arg w 0) "2")) LAMPORTS_PER_SOL)
     /\ match JS.truthy (arg w 1) with
        | Some addressStr => PublicKey_new addressStr = Val address
        | None =>
            exists kp,
              fst (resolveKeypair cfg w initial) = Done kp
              /\ address = publicKey kp
        end)
  /\ (forall c sig anchor commitment,
        e = EvRpc c (ConfirmTransaction sig anchor commitment) ->
        w_requestAirdrop w = Val sig
        /\ commitment = "confirmed"
        /\ exists a, w_latestBlockhash w = Val a /\ anchor = Some a).

(** swap-jupiter.ts: the quote is asked for [toTokenAmount] of the amount
    argument at the decimals read from the input mint, with the slippage
    of the fourth argument or else 50; the swap is built from the quote
    as it was answered, for the identity; and what is submitted is the
    transaction of the answer, signed by the identity. *)
Definition swap_request (e : Event) : Prop :=
  (forall url params,
     e = EvFetch (HttpGet url params) ->
     exists inputStr outputStr amountStr inputMint outputMint decimals rawAmount,
       JS.truthy (arg w 0) = Some inputStr
       /\ JS.truthy (arg w 1) = Some outputStr
       /\ JS.truthy (arg w 2) = Some amountStr
       /\ PublicKey_new inputStr = Val inputMint
       /\ PublicKey_new outputStr = Val outputMint
       /\ w_getMint w = Val decimals
       /\ TokenHelpers.toTokenAmount (parseFloat amountStr) decimals
          = Some rawAmount
       /\ url = JUPITER_API_URL ++ "/quote"
       /\ params
          = [("inputMint", toBase58 inputMint);
             ("outputMint", toBase58 outputMint);
             ("amount", JS.BigInt_toString rawAmount);
             ("slippageBps",
              Number_toString (JS.parseInt10 (JS.or_else (arg w 3) "50")))])
  /\ (forall url headers body,
        e = EvFetch (HttpPost url headers body) ->
        exists quoteRes quote payer,
          w_quote w = Val quoteRes
          /\ ok quoteRes = true
          /\ body_json quoteRes = Val quote
          /\ fst (resolveKeypair cfg w initial) = Done payer
          /\ url = JUPITER_API_URL ++ "/swap"
          /\ body = JObj [("quoteResponse", quote);
                          ("userPublicKey", JStr (toBase58 (publicKey payer)));
                          ("wrapAndUnwrapSol", JBool true)])
  /\ (forall c raw skipPreflight maxRetries,
        e = EvRpc c (SendRawTransaction raw skipPreflight maxRetries) ->
        exists swapRes swapJson field txBuf tx payer,
          w_swap w = Val swapRes
          /\ ok swapRes = true
          /\ body_json swapRes = Val swapJson
          /\ destructure swapJson "swapTransaction" = Val field
          /\ Buffer_from_base64 field = Val txBuf
          /\ VersionedTransaction_deserialize txBuf = Val tx
          /\ fst (resolveKeypair cfg w initial) = Done payer
          /\ VersionedTransaction_signer_check tx (publicKey payer) = Val tt
          /\ raw = VersionedTransaction_serialize
                     (VersionedTransaction_add_signature tx payer)).

(** deploy-program.ts: the script itself makes no contact with the
    network; it reads the program key file and runs the command only
    after the binary was found, and the command names the binary, the key
    file and the configured RPC URL. *)
Definition deploy_step (e : Event) : Prop :=
  is_network e = false
  /\ (forall path,
        e = EvReadFile path ->
        exists soBinaryPath,
          JS.truthy (arg w 0) = Some path
          /\ JS.truthy (arg w 1) = Some soBinaryPath
          /\ w_exists w soBinaryPath = true)
  /\ (forall cmd,
        e = EvExec cmd ->
        exists programKeypairPath soBinaryPath raw kp,
          JS.truthy (arg w 0) = Some programKeypairPath
          /\ JS.truthy (arg w 1) = Some soBinaryPath
          /\ w_exists w soBinaryPath = true
          /\ w_readFile w programKeypairPath = Val raw
          /\ keypair_of_json raw = Val kp
          /\ cmd = "solana program deploy " ++ JS.dq ++ soBinaryPath ++ JS.dq
                   ++ " --program-id " ++ JS.dq ++ programKeypairPath ++ JS.dq
                   ++ " --url " ++ JS.dq ++ RPC_URL cfg ++ JS.dq).

(** check-balance.ts: both queries are for the address of the first
    argument when it is given, and for the identity otherwise. *)
Definition balance_request (e : Event) : Prop :=
  forall c call,
    e = EvRpc c call ->
    exists address,
      (call = GetBalance address
       \/ call = GetParsedTokenAccountsByOwner address)
      /\ match JS.truthy (arg w 0) with
         | Some addressStr => PublicKey_new addressStr = Val address
         | None =>
             exists kp,
               fst (resolveKeypair cfg w initial) = Done kp
               /\ address = publicKey kp
         end.

(** fetch-tx.ts: the only request is the lookup of the signature of the
    first argument, with [maxSupportedVersion: 0]. *)
Definition fetch_tx_request (e : Event) : Prop :=
  forall c call,
    e = EvRpc c call ->
    exists signature,
      JS.truthy (arg w 0) = Some signature
      /\ call = GetParsedTransaction signature 0.

(** The connection every request goes through: the first one the
    process constructs, to RPC_URL, at the commitment of the
    configuration. *)
Definition the_connection : Connection :=
  {| conn_id := 0; rpcEndpoint := RPC_URL cfg; conn_commitment := COMMITMENT |}.

Definition through_the_connection (e : Event) : Prop :=
  (forall c, e = EvNewConnection c -> c = the_connection)
  /\ (forall c call, e = EvRpc c call -> c = the_connection).

End WithPlatform.

End Requests.

(* ===================================================================== *)
(** ** More sample worlds *)
(* ===================================================================== *)

Module Scenario.

(** [w] started with other environment variables and arguments. *)
Definition with_process (w : World) (env : string -> option string)
    (argv : list string) : World := {|
  w_env := env;
  w_argv := argv;
  w_readFile := w_readFile w;
  w_exists := w_exists w;
  w_execSync := w_execSync w;
  w_generate := w_generate w;
  w_getBalance := w_getBalance w;
  w_tokenAccounts := w_tokenAccounts w;
  w_requestAirdrop := w_requestAirdrop w;
  w_latestBlockhash := w_latestBlockhash w;
  w_confirm := w_confirm w;
  w_sendAndConfirm := w_sendAndConfirm w;
  w_getMint := w_getMint w;
  w_getOrCreateATA := w_getOrCreateATA w;
  w_createMint := w_createMint w;
  w_mintTo := w_mintTo w;
  w_transfer := w_transfer w;
  w_sendRaw := w_sendRaw w;
  w_getParsedTransaction := w_getParsedTransaction w;
  w_quote := w_quote w;
  w_swap := w_swap w
|}.

(** SOLANA_NETWORK names the test network while SOLANA_RPC_URL points
    to a node of the production network. *)
Definition mismatched_world : World :=
  with_process Sample.world
    (fun name =>
       if String.eqb name "SOLANA_NETWORK" then Some "devnet"
       else if String.eqb name "SOLANA_RPC_URL"
            then Some "https://api.mainnet-beta.solana.com"
            else None)
    ["1"; "Addr"].

(** No variable is set; the key file cannot be read. *)
Definition keyless_world : World := {|
  w_env := fun _ => None;
  w_argv := ["Addr"];
  w_readFile := fun _ => Throw "ENOENT: no such file or directory";
  w_exists := fun _ => false;
  w_execSync := w_execSync Sample.world;
  w_generate := w_generate Sample.world;
  w_getBalance := w_getBalance Sample.world;
  w_tokenAccounts := w_tokenAccounts Sample.world;
  w_requestAirdrop := w_requestAirdrop Sample.world;
  w_latestBlockhash := w_latestBlockhash Sample.world;
  w_confirm := w_confirm Sample.world;
  w_sendAndConfirm := w_sendAndConfirm Sample.world;
  w_getMint := w_getMint Sample.world;
  w_getOrCreateATA := w_getOrCreateATA Sample.world;
  w_createMint := w_createMint Sample.world;
  w_mintTo := w_mintTo Sample.world;
  w_transfer := w_transfer Sample.world;
  w_sendRaw := w_sendRaw Sample.world;
  w_getParsedTransaction := w_getParsedTransaction Sample.world;
  w_quote := w_quote Sample.world;
  w_swap := w_swap Sample.world
|}.

End Scenario.

(* ===================================================================== *)
(** ** Rounding: where an exact value lies *)
(* ===================================================================== *)

Module Rounding.

(** Where the exact quotient [A / D] lies with respect to the integer
    [m], as a [location] tells it: at [m], strictly between [m] and
    [m + 1/2], at [m + 1/2], or strictly between [m + 1/2] and [m + 1]. *)
Definition located (m : Z) (l : location) (A D : Z) : Prop :=
  match l with
  | loc_Exact => A = m * D
  | loc_Inexact Lt => m * D < A /\ 2 * A < (2 * m + 1) * D
  | loc_Inexact Eq => 2 * A = (2 * m + 1) * D
  | loc_Inexact Gt => (2 * m + 1) * D < 2 * A /\ A < (m + 1) * D
  end.

End Rounding.

(* ===================================================================== *)
(** ** The calls into utils/connection.ts, as a specification *)
(* ===================================================================== *)

Module ConnectionSpec.

Import Config ConnectionUtil.

(** The URL and the commitment a call of [createConnection] constructs
    with. *)
Definition url_of (cfg : Config.t) (url : option string) : string :=
  match url with Some u => u | None => Config.RPC_URL cfg end.

Definition commitment_of (commitment : option string) : string :=
  match commitment with Some k => k | None => Config.COMMITMENT end.

(** The connections that the [createConnection] calls of a sequence
    returned. *)
Fixpoint created (calls : list Call) (os : list (Outcome Connection))
  : list Connection :=
  match calls, os with
  | CallCreate _ _ :: calls', Done c :: os' => c :: created calls' os'
  | _ :: calls', _ :: os' => created calls' os'
  | _, _ => []
  end.

(** What a call returns while [c] is the shared instance: [getConnection]
    returns [c]; [createConnection] returns a connection built from its
    arguments whenever the constructor accepts the URL, and throws what
    the constructor throws otherwise. *)
Definition returns `{Platform} (cfg : Config.t) (c : Connection) (cl : Call)
    (o : Outcome Connection) : Prop :=
  match cl with
  | CallGet => o = Done c
  | CallCreate url commitment =>
      match Connection_check (url_of cfg url) with
      | Val _ =>
          exists c',
            o = Done c'
            /\ rpcEndpoint c' = url_of cfg url
            /\ conn_commitment c' = commitment_of commitment
      | Throw msg => o = Thrown msg
      end
  end.

End ConnectionSpec.

(* ===================================================================== *)
(** ** Submission attempts *)
(* ===================================================================== *)

Module Attempts.

Import Actions.

(** The two classes of failure a retry policy tells apart. *)
Inductive FailureClass := Transient | Deterministic.

(** The submission, or the confirmation of what was submitted, fails with
    the exception [msg]. *)
Definition failed_with (w : World) (msg : string) : Prop :=
  w_sendRaw w = Throw msg
  \/ exists sig, w_sendRaw w = Val sig /\ w_confirm w = Throw msg.

(** The submissions of a run after the first one. *)
Definition retries (r : Run) : nat := (submissions (events r) - 1)%nat.

(** The run ends with the events [tail], and has no submission before
    them. *)
Definition ends_with (r : Run) (tail : list Event) : Prop :=
  exists before,
    events r = (before ++ tail)%list
    /\ Forall (fun e => is_submission e = false) before.

(** A run of the swap script in the world [w] either never reaches the
    submission, or submits once and ends right after it: with the
    failure line and status 1 when the submission throws; with the
    confirmation request, then the failure line and status 1 when the
    confirmation throws; with the confirmation request, the success line
    and status 0 otherwise.  Nothing is sent after a failure. *)
Definition single_attempt (w : World) (r : Run) : Prop :=
  submissions (events r) = O
  \/ exists c raw,
       let submit := EvRpc c (SendRawTransaction raw false 3) in
       match w_sendRaw w with
       | Throw msg =>
           ends_with r [submit;
                        EvError (failure_prefix SwapJupiter ++ " " ++ msg)]
           /\ exit_code r = 1
       | Val sig =>
           let confirm := EvRpc c (ConfirmTransaction sig None "confirmed") in
           match w_confirm w with
           | Throw msg =>
               ends_with r [submit; confirm;
                            EvError (failure_prefix SwapJupiter ++ " " ++ msg)]
               /\ exit_code r = 1
           | Val _ =>
               ends_with r [submit; confirm;
                            EvLog ("✓ Swap confirmed: " ++ sig)]
               /\ exit_code r = 0
           end
       end.

End Attempts.

(* ===================================================================== *)
(** ** A platform with the messages of Node *)
(* ===================================================================== *)

Module Node.

Import Actions.

(** The message of the [SyntaxError] that [JSON.parse] throws on Node (V8)
    for a text whose first character begins no JSON value: it quotes
    that character and the text itself (its first ten characters when it
    is longer), as in
    [Unexpected token 's', "s3cr3t" is not valid JSON]. *)
Definition quoted (raw : string) : string :=
  if Nat.leb (String.length raw) 10 then JS.dq ++ raw ++ JS.dq
  else JS.dq ++ String.substring 0 10 raw ++ JS.dq ++ "...".

Definition JSON_parse_error (raw : string) : string :=
  match raw with
  | "" => "Unexpected end of JSON input"
  | String c _ =>
      "Unexpected token '" ++ String c "" ++ "', " ++ quoted raw
      ++ " is not valid JSON"
  end.

(** The sample platform with that [JSON.parse]: a text that begins a
    JSON array is decoded as the sample platform does, any other text is
    taken to begin no JSON value. *)
Definition platform : Platform := {|
  bs58_decode := @bs58_decode Sample.platform;
  Keypair_fromSecretKey := @Keypair_fromSecretKey Sample.platform;
  Uint8Array_from_JSON := fun raw =>
    match raw with
    | String "[" _ => @Uint8Array_from_JSON Sample.platform raw
    | _ => Throw (JSON_parse_error raw)
    end;
  PublicKey_new := @PublicKey_new Sample.platform;
  toBase58 := @toBase58 Sample.platform;
  clusterApiUrl := @clusterApiUrl Sample.platform;
  Connection_check := @Connection_check Sample.platform;
  parseFloat := @parseFloat Sample.platform;
  Number_toString := @Number_toString Sample.platform;
  Number_toFixed := @Number_toFixed Sample.platform;
  BigInt_error := @BigInt_error Sample.platform;
  null_property_error := @null_property_error Sample.platform;
  JSON_stringify := @JSON_stringify Sample.platform;
  JSON_stringify_pretty := @JSON_stringify_pretty Sample.platform;
  Date_toISOString := @Date_toISOString Sample.platform;
  Buffer_from_base64 := @Buffer_from_base64 Sample.platform;
  VersionedTransaction_deserialize :=
    @VersionedTransaction_deserialize Sample.platform;
  VersionedTransaction_signer_check :=
    @VersionedTransaction_signer_check Sample.platform;
  VersionedTransaction_add_signature :=
    @VersionedTransaction_add_signature Sample.platform;
  VersionedTransaction_serialize :=
    @VersionedTransaction_serialize Sample.platform;
  null_destructure_error := @null_destructure_error Sample.platform;
  js_ToString := @js_ToString Sample.platform;
  SystemProgram_transfer := @SystemProgram_transfer Sample.platform;
  getAssociatedTokenAddressSync :=
    @getAssociatedTokenAddressSync Sample.platform
|}.

(** WALLET_PRIVATE_KEY is not set, and the key file holds the secret as
    plain text instead of a JSON array. *)
Definition misformatted_world : World :=
  Secrecy.with_secrets Sample.world None (fun _ => Val "s3cr3t").

End Node.

(* ===================================================================== *)
(** * Facts *)
(* ===================================================================== *)

Import TokenHelpers Config ConnectionUtil Wallet Actions Secrecy.

Local Open Scope proc_scope.

(** ** Strings and decimal digits *)

Section StringFacts.

Lemma append_nil_r (s : string) : s ++ "" = s.
Proof. induction s as [|c s IH]; simpl; [reflexivity | now rewrite IH]. Qed.

Lemma append_assoc (s t u : string) : (s ++ t) ++ u = s ++ (t ++ u).
Proof. induction s as [|c s IH]; simpl; [reflexivity | now rewrite IH]. Qed.

Lemma length_append (s t : string) :
  String.length (s ++ t) = (String.length s + String.length t)%nat.
Proof. induction s as [|c s IH]; simpl; [reflexivity | now rewrite IH]. Qed.

Lemma length_repeat_char c n : String.length (JS.repeat_char c n) = n.
Proof. induction n as [|n IH]; simpl; [reflexivity | now rewrite IH]. Qed.

Lemma repeat_char_plus c a b :
  JS.repeat_char c (a + b) = JS.repeat_char c a ++ JS.repeat_char c b.
Proof. induction a as [|a IH]; simpl; [reflexivity | now rewrite IH]. Qed.

Lemma repeat_char_snoc c n :
  JS.repeat_char c n ++ String c "" = String c (JS.repeat_char c n).
Proof. induction n as [|n IH]; simpl; [reflexivity | now rewrite IH]. Qed.

Lemma strip_zeros_only n : JS.strip_trailing_zeros (JS.repeat_char "0" n) = "".
Proof. induction n as [|n IH]; simpl; [reflexivity | now rewrite IH]. Qed.

Lemma strip_append_zeros s n :
  JS.strip_trailing_zeros (s ++ JS.repeat_char "0" n) = JS.strip_trailing_zeros s.
Proof.
  induction s as [|c s IH]; simpl.
  - apply strip_zeros_only.
  - now rewrite IH.
Qed.

Lemma digits_aux_acc fuel : forall n acc,
  JS.digits_aux fuel n acc = JS.digits_aux fuel n "" ++ acc.
Proof.
  induction fuel as [|fuel IH]; intros n acc; simpl; [reflexivity|].
  destruct (n <? 10); [reflexivity|].
  rewrite IH, (IH _ (String _ "")), append_assoc. reflexivity.
Qed.

(** Any fuel above the binary size of [n] gives the same digits. *)
Lemma digits_aux_fuel F : forall G n acc,
  (1 <= F)%nat -> (1 <= G)%nat ->
  0 <= n < 2 ^ Z.of_nat F -> n < 2 ^ Z.of_nat G ->
  JS.digits_aux F n acc = JS.digits_aux G n acc.
Proof.
  induction F as [|F IH]; intros G n acc HF HG Hn HnG; [lia|].
  destruct G as [|G]; [lia|]. simpl.
  destruct (Z.ltb_spec n 10) as [Hlt|Hge]; [reflexivity|].
  assert (Hpow : forall k : nat, n < 2 ^ Z.of_nat (S k) ->
                 (1 <= k)%nat /\ n / 10 < 2 ^ Z.of_nat k).
  { intros k Hk. rewrite Nat2Z.inj_succ, Z.pow_succ_r in Hk by lia.
    assert (n / 10 < 2 ^ Z.of_nat k)
      by (apply Z.div_lt_upper_bound; lia).
    split; [|assumption].
    destruct k; [simpl in Hk; lia | lia]. }
  destruct (Hpow F (proj2 Hn)) as [HF1 HF2].
  destruct (Hpow G HnG) as [HG1 HG2].
  apply IH; try assumption.
  split; [apply Z.div_pos; lia | assumption].
Qed.

Lemma fuel_enough n : 0 <= n -> n < 2 ^ Z.of_nat (S (Z.to_nat (Z.log2 n))).
Proof.
  intros Hn. rewrite Nat2Z.inj_succ, Z2Nat.id by apply Z.log2_nonneg.
  destruct (Z.eq_dec n 0) as [->|Hnz]; [reflexivity|].
  apply Z.log2_spec. lia.
Qed.

Lemma digits_small n : 0 <= n < 10 -> JS.digits n = String (JS.digit_char n) "".
Proof.
  intros Hn. unfold JS.digits. simpl.
  destruct (Z.ltb_spec n 10); [|lia].
  now rewrite Z.mod_small.
Qed.

Lemma digits_step n :
  10 <= n ->
  JS.digits n = JS.digits (n / 10) ++ String (JS.digit_char (n mod 10)) "".
Proof.
  intros Hn. unfold JS.digits at 1. simpl.
  destruct (Z.ltb_spec n 10); [lia|].
  rewrite digits_aux_acc. f_equal.
  assert (0 <= n / 10) by (apply Z.div_pos; lia).
  assert (0 < Z.log2 n) by (apply Z.log2_pos; lia).
  apply digits_aux_fuel.
  - lia.
  - lia.
  - split; [assumption|].
    rewrite Z2Nat.id by lia.
    apply Z.div_lt_upper_bound; [lia|].
    pose proof (Z.log2_spec n ltac:(lia)) as [_ Hs].
    rewrite Z.pow_succ_r in Hs by lia. lia.
  - apply fuel_enough. assumption.
Qed.

Lemma digits_times_ten r : 0 < r -> JS.digits (10 * r) = JS.digits r ++ "0".
Proof.
  intros Hr. rewrite digits_step by lia.
  replace (10 * r / 10) with r by (rewrite Z.mul_comm, Z.div_mul; lia).
  replace ((10 * r) mod 10) with 0 by (rewrite Z.mul_comm, Z.mod_mul; lia).
  reflexivity.
Qed.

Lemma digits_times_pow10 r (k : nat) :
  0 < r -> JS.digits (r * 10 ^ Z.of_nat k) = JS.digits r ++ JS.repeat_char "0" k.
Proof.
  intros Hr. induction k as [|k IH].
  - simpl. now rewrite Z.mul_1_r, append_nil_r.
  - rewrite Nat2Z.inj_succ, Z.pow_succ_r by lia.
    replace (r * (10 * 10 ^ Z.of_nat k)) with (10 * (r * 10 ^ Z.of_nat k)) by ring.
    rewrite digits_times_ten by (apply Z.mul_pos_pos; lia).
    rewrite IH, append_assoc. f_equal.
    change "0" with (JS.repeat_char "0" 1).
    rewrite <- repeat_char_plus. f_equal. lia.
Qed.

(** A number below [10^n] has at most [n] digits. *)
Lemma digits_length (n : nat) : forall r,
  (1 <= n)%nat -> 0 <= r < 10 ^ Z.of_nat n ->
  (String.length (JS.digits r) <= n)%nat.
Proof.
  induction n as [|n IH]; intros r Hn Hr; [lia|].
  destruct (Z_lt_ge_dec r 10) as [Hlt|Hge].
  - rewrite digits_small by lia. simpl. lia.
  - rewrite digits_step by lia. rewrite length_append. simpl.
    rewrite Nat2Z.inj_succ, Z.pow_succ_r in Hr by lia.
    assert (r / 10 < 10 ^ Z.of_nat n) by (apply Z.div_lt_upper_bound; lia).
    assert (0 <= r / 10) by (apply Z.div_pos; lia).
    assert (1 <= n)%nat by (destruct n; [simpl in *; lia | lia]).
    specialize (IH (r / 10) ltac:(assumption) ltac:(lia)). lia.
Qed.

End StringFacts.

(** ** The token amount codec *)

Section CodecFacts.

Lemma digits_zero : JS.digits 0 = "0".
Proof. reflexivity. Qed.

Lemma BigInt_toString_nonneg z : 0 <= z -> JS.BigInt_toString z = JS.digits z.
Proof.
  intros Hz. unfold JS.BigInt_toString.
  destruct (Z.ltb_spec z 0); [lia | reflexivity].
Qed.

(** Padding commutes with appending [k] zeros when the padded length
    grows by [k] as well. *)
Lemma padStart_append_zeros (n k : nat) s :
  JS.padStart (Z.of_nat (n + k)) "0" (s ++ JS.repeat_char "0" k)
  = JS.padStart (Z.of_nat n) "0" s ++ JS.repeat_char "0" k.
Proof.
  unfold JS.padStart.
  rewrite !Nat2Z.id, length_append, length_repeat_char, append_assoc.
  do 2 f_equal. lia.
Qed.

Lemma strip_pad_zero (n : nat) :
  JS.strip_trailing_zeros (JS.padStart (Z.of_nat n) "0" "0") = "".
Proof.
  unfold JS.padStart.
  change "0" with (JS.repeat_char "0" 1) at 2.
  now rewrite strip_append_zeros, strip_zeros_only.
Qed.

(** The fractional digits do not change when the amount and the number
    of decimals are scaled together. *)
Lemma fraction_scale (n k : nat) r :
  0 <= r ->
  JS.strip_trailing_zeros
    (JS.padStart (Z.of_nat (n + k)) "0" (JS.digits (r * 10 ^ Z.of_nat k)))
  = JS.strip_trailing_zeros (JS.padStart (Z.of_nat n) "0" (JS.digits r)).
Proof.
  intros Hr. destruct (Z.eq_dec r 0) as [->|Hnz].
  - rewrite Z.mul_0_l, digits_zero, !strip_pad_zero. reflexivity.
  - rewrite digits_times_pow10 by lia.
    now rewrite padStart_append_zeros, strip_append_zeros.
Qed.

Lemma toDisplay_ref_scale m n k :
  0 <= m -> 0 <= n -> 0 <= k ->
  toDisplay_ref (m * 10 ^ k) (n + k) = toDisplay_ref m n.
Proof.
  intros Hm Hn Hk. unfold toDisplay_ref.
  assert (Hpn : 0 < 10 ^ n) by (apply Z.pow_pos_nonneg; lia).
  assert (Hpk : 0 < 10 ^ k) by (apply Z.pow_pos_nonneg; lia).
  rewrite Z.pow_add_r by lia.
  rewrite Z.div_mul_cancel_r, Z.mul_mod_distr_r by lia.
  assert (Hr : 0 <= m mod 10 ^ n) by (apply Z.mod_pos_bound; lia).
  replace (n + k) with (Z.of_nat (Z.to_nat n + Z.to_nat k)) by lia.
  replace (10 ^ k) with (10 ^ Z.of_nat (Z.to_nat k)) by (f_equal; lia).
  rewrite fraction_scale by assumption.
  rewrite (Z2Nat.id n) by lia. reflexivity.
Qed.

(** [BigInt(10 ** decimals)] is the exact power up to 22 decimals. *)
Lemma divisor_exact decimals :
  0 <= decimals <= 22 -> JS.BigInt (JS.pow10 decimals) = Some (10 ^ decimals).
Proof.
  intros Hd.
  assert (Hk : exists k : nat, (k <= 22)%nat /\ decimals = Z.of_nat k)
    by (exists (Z.to_nat decimals); lia).
  destruct Hk as (k & Hk & ->).
  do 23 (destruct k as [|k]; [vm_compute; reflexivity|]). lia.
Qed.

(** Up to 22 decimals [fromTokenAmount] is the exact-integer reference on
    every non-negative amount, however large. *)
Lemma fromTokenAmount_ref raw decimals :
  0 <= raw -> 0 <= decimals <= 22 ->
  fromTokenAmount raw decimals = Some (toDisplay_ref raw decimals).
Proof.
  intros Hraw Hd. unfold fromTokenAmount, toDisplay_ref.
  rewrite divisor_exact by assumption.
  assert (Hp : 0 < 10 ^ decimals) by (apply Z.pow_pos_nonneg; lia).
  destruct (Z.eqb_spec (10 ^ decimals) 0) as [E|_]; [lia|].
  rewrite Z.quot_div_nonneg, Z.rem_mod_nonneg by lia.
  rewrite !BigInt_toString_nonneg; [reflexivity | |].
  - apply Z.div_pos; lia.
  - apply Z.mod_pos_bound; lia.
Qed.

End CodecFacts.

(** Whenever [toTokenAmount] returns the exact scaled integer
    [m * 10^(decimals - n)], [fromTokenAmount] gives back the canonical
    string of the decimal [m / 10^n] (up to 22 decimals). *)
Lemma round_trip_from_exact m n decimals :
  0 <= m -> 0 <= n <= decimals -> decimals <= 22 ->
  toTokenAmount (JS.of_decimal m n) decimals = Some (m * 10 ^ (decimals - n)) ->
  round_trip m n decimals = Some (decimal_string m n).
Proof.
  intros Hm Hn Hd Hexact. unfold round_trip, decimal_string.
  rewrite Hexact.
  assert (Hpk : 0 < 10 ^ (decimals - n)) by (apply Z.pow_pos_nonneg; lia).
  rewrite fromTokenAmount_ref by (try apply Z.mul_nonneg_nonneg; lia).
  f_equal.
  replace decimals with (n + (decimals - n)) at 2 by ring.
  apply toDisplay_ref_scale; lia.
Qed.

(** C1 fails as stated: 9007199254740991 (no fractional digit) at one
    decimal comes back as "9007199254740990.4". *)
Lemma round_trip_counterexample :
  round_trip 9007199254740991 0 1 = Some "9007199254740990.4"
  /\ decimal_string 9007199254740991 0 = "9007199254740991"
  /\ ~ (forall m n decimals,
          0 <= m -> 0 <= n <= decimals ->
          round_trip m n decimals = Some (decimal_string m n)).
Proof.
  split; [vm_compute; reflexivity|].
  split; [vm_compute; reflexivity|].
  intros H. specialize (H 9007199254740991 0 1 ltac:(lia) ltac:(lia)).
  vm_compute in H. discriminate H.
Qed.

(** The same loss at an everyday precision: 10000000.000000001 at 9
    decimals comes back as "10000000.000000002". *)
Example round_trip_nine_decimals :
  round_trip 10000000000000001 9 9 = Some "10000000.000000002"
  /\ decimal_string 10000000000000001 9 = "10000000.000000001".
Proof. split; vm_compute; reflexivity. Qed.

(** C5: at 23 decimals [fromTokenAmount] leaves the exact-integer
    reference: the divisor [BigInt(10 ** 23)] is 99999999999999991611392. *)
Theorem fromTokenAmount_23_decimals :
  JS.BigInt (JS.pow10 23) = Some 99999999999999991611392
  /\ fromTokenAmount (10 ^ 23) 23 = Some "1.00000000000000008388608"
  /\ toDisplay_ref (10 ^ 23) 23 = "1".
Proof. repeat split; vm_compute; reflexivity. Qed.


(** ** Numbers: signs and sizes *)

Section NumberFacts.

Lemma digits2_pos_bound p : Z.pos p < 2 ^ Z.pos (digits2_pos p).
Proof.
  induction p as [p IH|p IH|]; simpl digits2_pos;
    rewrite ?Pos2Z.inj_succ, ?Z.pow_succ_r by lia; lia.
Qed.

(** The mantissa of a binary64 value is below [2^53]. *)
Lemma valid_mantissa_bound s m e :
  valid_binary JS.prec JS.emax (S754_finite s m e) = true -> Z.pos m < 2 ^ 53.
Proof.
  unfold valid_binary, bounded, canonical_mantissa, fexp, JS.prec.
  intros H. apply andb_prop in H. destruct H as [H _].
  apply Z.eqb_eq in H.
  pose proof (digits2_pos_bound m) as Hb.
  assert (Hd : Z.pos (digits2_pos m) <= 53) by lia.
  apply Z.lt_le_trans with (1 := Hb).
  apply Z.pow_le_mono_r; lia.
Qed.

(** No binary64 value is [10^23]: whatever [10 ** 23] evaluates to, the
    divisor of [fromTokenAmount] at 23 decimals is not the power of ten. *)
Lemma ten_pow_23_not_a_number x :
  valid_binary JS.prec JS.emax x = true -> JS.BigInt x <> Some (10 ^ 23).
Proof.
  intros Hv Hx. destruct x as [s|s| |s m e]; try discriminate.
  pose proof (valid_mantissa_bound s m e Hv) as Hm.
  unfold JS.BigInt in Hx.
  destruct (Z.leb_spec 0 e) as [He|He].
  - assert (Hs : cond_Zopp s (Z.pos m * 2 ^ e) = 10 ^ 23) by congruence.
    assert (Hpos : 0 < 2 ^ e) by (apply Z.pow_pos_nonneg; lia).
    assert (Hprod : 0 < Z.pos m * 2 ^ e) by (apply Z.mul_pos_pos; lia).
    destruct s; unfold cond_Zopp in Hs; [lia|].
    destruct (Z_lt_le_dec e 24) as [Hlt|Hge].
    + assert (2 ^ e <= 2 ^ 23) by (apply Z.pow_le_mono_r; lia).
      assert (Z.pos m * 2 ^ e < 2 ^ 53 * 2 ^ 23); [|lia].
      apply Z.le_lt_trans with (Z.pos m * 2 ^ 23); [|lia].
      apply Z.mul_le_mono_nonneg_l; lia.
    + assert (Hdiv : (2 ^ 24 | 10 ^ 23)).
      { exists (Z.pos m * 2 ^ (e - 24)). rewrite <- Hs, <- Z.mul_assoc.
        rewrite <- Z.pow_add_r by lia. do 2 f_equal. lia. }
      apply Z.mod_divide in Hdiv; [|lia]. vm_compute in Hdiv. discriminate.
  - destruct (Z.eqb_spec (Z.pos m mod 2 ^ (- e)) 0) as [E|E]; [|discriminate].
    assert (Hs : cond_Zopp s (Z.pos m / 2 ^ (- e)) = 10 ^ 23) by congruence.
    assert (Hpos : 0 < 2 ^ (- e)) by (apply Z.pow_pos_nonneg; lia).
    assert (Hq : 0 <= Z.pos m / 2 ^ (- e)) by (apply Z.div_pos; lia).
    assert (Hle : Z.pos m / 2 ^ (- e) <= Z.pos m).
    { apply Z.div_le_upper_bound; [lia|]. nia. }
    destruct s; unfold cond_Zopp in Hs; lia.
Qed.

Lemma binary_round_aux_sign s m e l :
  JS.has_sign s (binary_round_aux JS.prec JS.emax s m e l).
Proof.
  unfold binary_round_aux.
  destruct (shr_fexp JS.prec JS.emax m e l) as [mrs' e'].
  destruct (shr_fexp JS.prec JS.emax _ e' loc_Exact) as [mrs'' e''].
  destruct (shr_m mrs''); simpl; auto.
  destruct (_ <=? _); simpl; reflexivity.
Qed.

Lemma binary_round_sign s m e :
  JS.has_sign s (binary_round JS.prec JS.emax s m e).
Proof.
  unfold binary_round.
  destruct (shl_align _ _ _) as [mz ez]. apply binary_round_aux_sign.
Qed.

Lemma of_Z_sign z : JS.has_sign (z <? 0) (JS.of_Z z).
Proof.
  destruct z; simpl; [reflexivity | apply binary_round_sign ..].
Qed.

Lemma div_sign s p s' q e e' :
  JS.has_sign (xorb s s')
    (JS.div (S754_finite s p e) (S754_finite s' q e')).
Proof.
  unfold JS.div, SFdiv.
  destruct (SFdiv_core_binary _ _ _ _ _ _) as [[mz ez] lz].
  apply binary_round_aux_sign.
Qed.

Lemma pow10_sign decimals : JS.has_sign false (JS.pow10 decimals).
Proof.
  unfold JS.pow10. destruct (0 <=? decimals).
  - assert (H : 0 <= 10 ^ decimals) by (apply Z.pow_nonneg; lia).
    pose proof (of_Z_sign (10 ^ decimals)) as Hs.
    destruct (Z.ltb_spec (10 ^ decimals) 0); [lia | exact Hs].
  - unfold JS.of_decimal. apply (div_sign false 1 false).
Qed.

Lemma mul_sign s m e y :
  JS.has_sign false y -> JS.has_sign s (JS.mul (S754_finite s m e) y).
Proof.
  destruct y as [s'|s'| |s' m' e']; intros Hy; simpl in Hy; subst;
    unfold JS.mul, SFmul; rewrite ?xorb_false_r; simpl; auto.
  apply binary_round_aux_sign.
Qed.

(** Rounding a negative number never gives a positive integer. *)
Lemma round_negative_le m e :
  e < 0 -> (2 * cond_Zopp true (Z.pos m) + 2 ^ (- e)) / 2 ^ (- e + 1) <= 0.
Proof.
  intros He. unfold cond_Zopp.
  assert (Hp : 0 < 2 ^ (- e)) by (apply Z.pow_pos_nonneg; lia).
  rewrite Z.pow_add_r, Z.pow_1_r by lia.
  assert (H : (2 * - Z.pos m + 2 ^ (- e)) / (2 ^ (- e) * 2) < 1); [|lia].
  apply Z.div_lt_upper_bound; lia.
Qed.

Lemma Math_round_sign x :
  JS.has_sign true x -> JS.has_sign true (JS.Math_round x).
Proof.
  destruct x as [s|s| |s m e]; try (simpl; auto; fail).
  intros Hs; simpl in Hs; subst s. unfold JS.Math_round.
  destruct (Z.leb_spec 0 e) as [He|He]; [exact eq_refl|].
  pose proof (round_negative_le m e He) as Hz.
  set (z := (2 * cond_Zopp true (Z.pos m) + 2 ^ (- e)) / 2 ^ (- e + 1)) in *.
  destruct (Z.eqb_spec z 0) as [E|E]; [exact eq_refl|].
  pose proof (of_Z_sign z) as Hs.
  destruct (Z.ltb_spec z 0); [exact Hs | lia].
Qed.

Lemma BigInt_sign x z :
  JS.has_sign true x -> JS.BigInt x = Some z -> z <= 0.
Proof.
  destruct x as [s|s| |s m e]; try (simpl; discriminate).
  - intros _ [= <-]. lia.
  - intros Hs Hz; simpl in Hs; subst s. unfold JS.BigInt, cond_Zopp in Hz.
    destruct (Z.leb_spec 0 e).
    + injection Hz as <-.
      assert (0 <= 2 ^ e) by (apply Z.pow_nonneg; lia).
      assert (0 <= Z.pos m * 2 ^ e) by (apply Z.mul_nonneg_nonneg; lia).
      change (- (Z.pos m * 2 ^ e) <= 0). lia.
    + destruct (_ =? 0); [|discriminate].
      injection Hz as <-.
      assert (0 <= Z.pos m / 2 ^ (- e))
        by (apply Z.div_pos; [lia|]; apply Z.pow_pos_nonneg; lia).
      change (- (Z.pos m / 2 ^ (- e)) <= 0). lia.
Qed.

Lemma mul_nonfinite x y :
  JS.is_finite x = false -> JS.is_finite (JS.mul x y) = false.
Proof.
  destruct x as [s|s| |s m e]; try discriminate; intros _;
    destruct y as [s'|s'| |s' m' e']; reflexivity.
Qed.

Lemma Math_round_nonfinite x :
  JS.is_finite x = false -> JS.Math_round x = x.
Proof. destruct x; try discriminate; reflexivity. Qed.

Lemma BigInt_nonfinite x : JS.is_finite x = false -> JS.BigInt x = None.
Proof. destruct x; try discriminate; reflexivity. Qed.

End NumberFacts.





(** ** Symbolic execution of a process *)

Section WpFacts.

Context `{Platform}.

Lemma wp_bind {A B} (m : M A) (k : A -> M B) Q st :
  wp m (fun o st' =>
          match o with
          | Done a => wp (k a) Q st'
          | Thrown msg => Q (Thrown msg) st'
          | Exited code => Q (Exited code) st'
          end) st ->
  wp (bind m k) Q st.
Proof.
  unfold wp, bind. destruct (m st) as [[a|msg|code] st']; simpl; auto.
Qed.

Lemma wp_ret {A} (a : A) (Q : Outcome A -> Proc -> Prop) st :
  Q (Done a) st -> wp (ret a) Q st.
Proof. exact (fun q => q). Qed.

Lemma wp_throw {A} msg (Q : Outcome A -> Proc -> Prop) st :
  Q (Thrown msg) st -> wp (throw msg) Q st.
Proof. exact (fun q => q). Qed.

Lemma wp_exit {A} code (Q : Outcome A -> Proc -> Prop) st :
  Q (Exited code) st -> wp (process_exit code) Q st.
Proof. exact (fun q => q). Qed.

Lemma wp_emit e (Q : Outcome unit -> Proc -> Prop) st :
  Q (Done tt) {| _connection := _connection st; next_id := next_id st;
                 trace := trace st ++ [e] |} ->
  wp (emit e) Q st.
Proof. exact (fun q => q). Qed.

Lemma wp_lift {A} (r : Res A) (Q : Outcome A -> Proc -> Prop) st :
  match r with
  | Val a => Q (Done a) st
  | Throw msg => Q (Thrown msg) st
  end ->
  wp (lift r) Q st.
Proof. destruct r; exact (fun q => q). Qed.

Lemma wp_new_Connection url commitment (Q : Outcome Connection -> Proc -> Prop) st :
  match Connection_check url with
  | Val _ =>
      let c := {| conn_id := next_id st; rpcEndpoint := url;
                  conn_commitment := commitment |} in
      Q (Done c) {| _connection := _connection st; next_id := S (next_id st);
                    trace := trace st ++ [EvNewConnection c] |}
  | Throw msg => Q (Thrown msg) st
  end ->
  wp (new_Connection url commitment) Q st.
Proof.
  unfold wp, new_Connection, bind, lift.
  destruct (Connection_check url) as [[]|msg]; exact (fun q => q).
Qed.

Lemma wp_getConnection cfg (Q : Outcome Connection -> Proc -> Prop) st :
  match _connection st with
  | Some c => Q (Done c) st
  | None =>
      match Connection_check (RPC_URL cfg) with
      | Val _ =>
          let c := {| conn_id := next_id st; rpcEndpoint := RPC_URL cfg;
                      conn_commitment := COMMITMENT |} in
          Q (Done c) {| _connection := Some c; next_id := S (next_id st);
                        trace := trace st ++ [EvNewConnection c] |}
      | Throw msg => Q (Thrown msg) st
      end
  end ->
  wp (getConnection cfg) Q st.
Proof.
  unfold wp, getConnection.
  destruct (_connection st) as [c|] eqn:Hc; [exact (fun q => q)|].
  unfold bind, new_Connection, lift.
  destruct (Connection_check (RPC_URL cfg)) as [[]|msg]; exact (fun q => q).
Qed.

Lemma wp_run_main (main : M unit) prefix (R : Run -> Prop) :
  wp main (fun o st => R (result_of prefix o st)) initial ->
  R (run_main main prefix).
Proof. exact (fun q => q). Qed.

Lemma wp_bind_inv {A B} (I : Proc -> Prop) (m : M A) (k : A -> M B) Q st :
  wp m (fun o st' =>
          match o with
          | Done a => I st'
          | Thrown msg => Q (Thrown msg) st'
          | Exited code => Q (Exited code) st'
          end) st ->
  (forall a st', I st' -> wp (k a) Q st') ->
  wp (bind m k) Q st.
Proof.
  intros Hm Hk. apply wp_bind. unfold wp in *.
  destruct (m st) as [[a|msg|code] st']; simpl in *; auto.
Qed.

End WpFacts.

(** One step of symbolic execution of a [wp] goal. *)
Ltac wp_step :=
  cbv beta iota;
  lazymatch goal with
  | |- wp (bind _ _) _ _ => apply wp_bind
  | |- wp (ret _) _ _ => apply wp_ret
  | |- wp (throw _) _ _ => apply wp_throw
  | |- wp (process_exit _) _ _ => apply wp_exit
  | |- wp (emit _) _ _ => apply wp_emit
  | |- wp (console_log _) _ _ => apply wp_emit
  | |- wp (console_error _) _ _ => apply wp_emit
  | |- wp (lift ?r) _ _ => apply wp_lift; destruct r eqn:?
  | |- wp (rpc _ _ _) _ _ => unfold rpc
  | |- wp (fetch _ _) _ _ => unfold fetch
  | |- wp (readFileSync _ _) _ _ => unfold readFileSync
  | |- wp (getConnection _) _ _ =>
      apply wp_getConnection; simpl _connection;
      destruct (Connection_check _) eqn:?
  | |- wp (resolveKeypair _ _) _ _ => unfold resolveKeypair
  | |- wp (loadKeypairFromFile _ _ _) _ _ => unfold loadKeypairFromFile
  | |- wp (loadKeypairFromBase58 _) _ _ => unfold loadKeypairFromBase58
  | |- wp (toTokenAmountM _ _) _ _ => unfold toTokenAmountM
  | |- wp (match ?x with _ => _ end) _ _ => destruct x eqn:?
  | |- wp (let _ := _ in _) _ _ => cbv zeta
  | |- let _ := _ in _ => cbv zeta
  end.

Ltac wp_run := repeat wp_step.

(** ** The shared connection *)

Section ConnectionFacts.

Context `{Platform}.
Variable cfg : Config.t.

Lemma new_Connection_done url commitment st :
  Connection_check url = Val tt ->
  new_Connection url commitment st
  = (Done {| conn_id := next_id st; rpcEndpoint := url;
             conn_commitment := commitment |},
     {| _connection := _connection st; next_id := S (next_id st);
        trace := trace st ++ [EvNewConnection
                   {| conn_id := next_id st; rpcEndpoint := url;
                      conn_commitment := commitment |}] |}).
Proof.
  intros Hc. unfold new_Connection, bind, lift. rewrite Hc. reflexivity.
Qed.

Lemma new_Connection_inv url commitment st o st' :
  new_Connection url commitment st = (o, st') ->
  (_connection st' = _connection st /\ (next_id st <= next_id st')%nat)
  /\ (forall c, o = Done c ->
        conn_id c = next_id st /\ rpcEndpoint c = url
        /\ conn_commitment c = commitment /\ (next_id st < next_id st')%nat).
Proof.
  unfold new_Connection, bind, lift.
  destruct (Connection_check url) as [[]|msg]; simpl; intros [= <- <-]; simpl.
  - split; [split; [reflexivity | lia]|].
    intros c [= <-]. simpl. repeat split; lia.
  - split; [split; [reflexivity | lia]|]. discriminate.
Qed.

Lemma getConnection_shared c st :
  _connection st = Some c -> getConnection cfg st = (Done c, st).
Proof. intros Hc. unfold getConnection. rewrite Hc. reflexivity. Qed.

End ConnectionFacts.

Import ConnectionSpec.

Section FreshFacts.
Context `{Platform}.
Variable cfg : Config.t.

Lemma createConnection_done url commitment st :
  Connection_check (url_of cfg url) = Val tt ->
  createConnection cfg url commitment st
  = (Done {| conn_id := next_id st; rpcEndpoint := url_of cfg url;
             conn_commitment := commitment_of commitment |},
     {| _connection := _connection st; next_id := S (next_id st);
        trace := trace st
                 ++ [EvNewConnection
                       {| conn_id := next_id st; rpcEndpoint := url_of cfg url;
                          conn_commitment := commitment_of commitment |}] |}).
Proof. intros Hc. unfold createConnection. apply new_Connection_done, Hc. Qed.

Lemma createConnection_thrown url commitment st msg :
  Connection_check (url_of cfg url) = Throw msg ->
  createConnection cfg url commitment st = (Thrown msg, st).
Proof.
  intros Hc. unfold createConnection, new_Connection, bind, lift.
  fold (url_of cfg url). rewrite Hc. reflexivity.
Qed.

(** Along a sequence of calls the identifiers of the connections that
    [createConnection] returned are those allocated by the sequence:
    from [next_id] at the start, below [next_id] at the end, and
    increasing. *)
Lemma run_calls_fresh c calls : forall st,
  shared_is c st ->
  let r := run_calls cfg calls st in
  Forall2 (returns cfg c) calls (fst r)
  /\ shared_is c (snd r)
  /\ (next_id st <= next_id (snd r))%nat
  /\ Forall (fun c' => (next_id st <= conn_id c' < next_id (snd r))%nat)
       (created calls (fst r))
  /\ NoDup (map conn_id (created calls (fst r))).
Proof.
  induction calls as [|cl calls IH]; intros st Hs; cbn [run_calls].
  - cbn. repeat split; try constructor; try apply Hs; lia.
  - destruct cl as [|url commitment]; cbn [call].
    + rewrite (getConnection_shared cfg c st (proj1 Hs)).
      specialize (IH st Hs). cbv zeta in IH.
      destruct (run_calls cfg calls st) as [os st2]. cbn [fst snd created] in *.
      destruct IH as (I1 & I2 & I3 & I4 & I5).
      repeat split; try assumption; try apply I2.
      constructor; [reflexivity | assumption].
    + destruct (Connection_check (url_of cfg url)) as [[]|msg] eqn:Hc.
      * rewrite (createConnection_done url commitment st Hc).
        match goal with |- context [run_calls cfg calls ?s] =>
          assert (Hs1 : shared_is c s)
            by (destruct Hs as [Ha Hb]; split; cbn; [exact Ha | lia]);
          specialize (IH s Hs1); cbv zeta in IH;
          destruct (run_calls cfg calls s) as [os st2]
        end.
        cbn [fst snd created next_id map] in *.
        destruct IH as (I1 & I2 & I3 & I4 & I5).
        split; [|split; [exact I2|split; [lia|split]]].
        -- constructor; [|exact I1]. cbn [returns]. rewrite Hc.
           eexists. repeat split.
        -- constructor; [cbn; lia|].
           eapply Forall_impl; [|exact I4]. cbn. intros c' Hc'. lia.
        -- constructor; [|exact I5].
           intros Hin. apply in_map_iff in Hin. destruct Hin as (c' & Hid & Hin).
           rewrite Forall_forall in I4. specialize (I4 c' Hin). cbn in Hid. lia.
      * rewrite (createConnection_thrown url commitment st msg Hc).
        specialize (IH st Hs). cbv zeta in IH.
        destruct (run_calls cfg calls st) as [os st2]. cbn [fst snd created] in *.
        destruct IH as (I1 & I2 & I3 & I4 & I5).
        repeat split; try assumption; try apply I2.
        constructor; [|assumption]. cbn [returns]. rewrite Hc. reflexivity.
Qed.

End FreshFacts.



(** ** The orchestrators *)

Section ProcessFacts.

Context `{Platform}.

Lemma load_network w cfg : Config.load w = Val cfg -> NETWORK cfg = Config.network w.
Proof.
  unfold Config.load. intros Hl.
  destruct (w_env w "SOLANA_RPC_URL") as [url|];
    [destruct (JS.nonempty url)|];
    try destruct (clusterApiUrl (Config.network w));
    try discriminate; injection Hl as <-; reflexivity.
Qed.

Lemma bind_done {A B} (m : M A) (k : A -> M B) st a st' :
  m st = (Done a, st') -> bind m k st = k a st'.
Proof. intros Hm. unfold bind. now rewrite Hm. Qed.

Lemma bind_thrown {A B} (m : M A) (k : A -> M B) st msg st' :
  m st = (Thrown msg, st') -> bind m k st = (Thrown msg, st').
Proof. intros Hm. unfold bind. now rewrite Hm. Qed.

Lemma bind_exited {A B} (m : M A) (k : A -> M B) st code st' :
  m st = (Exited code, st') -> bind m k st = (Exited code, st').
Proof. intros Hm. unfold bind. now rewrite Hm. Qed.

End ProcessFacts.

(** C7.  With the production network configured, the airdrop script
    exits with status 1 and its run contains no contact with the network:
    no connection is constructed, no request is sent; when the modules
    load, all it does is print the rejection. *)
Theorem airdrop_rejects_mainnet `{Platform} (w : World) :
  Config.network w = "mainnet-beta" ->
  exit_code (script Airdrop w) = 1
  /\ Forall (fun e => is_network e = false) (events (script Airdrop w))
  /\ (forall cfg, Config.load w = Val cfg ->
        events (script Airdrop w)
        = [EvError "Airdrop is not available on mainnet. Use devnet or testnet."]).
Proof.
  intros Hnet. unfold script.
  destruct (Config.load w) as [cfg|msg] eqn:Hload.
  - pose proof (load_network w cfg Hload) as Hn. rewrite Hnet in Hn.
    assert (Hrun : run_main (main_of Airdrop cfg w) (failure_prefix Airdrop)
                   = {| exit_code := 1;
                        events := [EvError "Airdrop is not available on mainnet. Use devnet or testnet."] |}).
    { unfold run_main, main_of, airdrop_main. rewrite Hn.
      rewrite String.eqb_refl. reflexivity. }
    rewrite Hrun. simpl. split; [reflexivity|]. split.
    + repeat constructor.
    + intros cfg' [= <-]. reflexivity.
  - simpl. split; [reflexivity|]. split.
    + repeat constructor.
    + intros cfg' Hc. discriminate Hc.
Qed.

Lemma airdrop_rejects_mainnet_witness :
  Config.network Sample.mainnet_world = "mainnet-beta"
  /\ exit_code (@script Sample.platform Airdrop Sample.mainnet_world) = 1
  /\ Forall (fun e => is_network e = false)
       (events (@script Sample.platform Airdrop Sample.mainnet_world)).
Proof.
  split; [reflexivity|].
  destruct (@airdrop_rejects_mainnet Sample.platform Sample.mainnet_world eq_refl)
    as (Hexit & Hquiet & _).
  split; assumption.
Defined.

Section WalletFacts.
Context `{Platform}.

(** [resolveKeypair] adds at most the read of the key file to the trace,
    and its outcome does not depend on the state. *)
Lemma resolveKeypair_run cfg w st :
  exists evs,
    (evs = [] \/ evs = [EvReadFile (WALLET_PATH cfg)])
    /\ resolveKeypair cfg w st
       = (fst (resolveKeypair cfg w initial),
          {| _connection := _connection st; next_id := next_id st;
             trace := trace st ++ evs |}).
Proof.
  unfold resolveKeypair, loadKeypairFromBase58, loadKeypairFromFile,
    readFileSync, bind, emit, lift, ret, throw.
  destruct (w_env w "WALLET_PRIVATE_KEY") as [envKey|];
    [destruct (JS.nonempty envKey)|].
  - exists []. split; [now left|].
    rewrite app_nil_r. destruct st; destruct (keypair_of_base58 envKey); reflexivity.
  - exists [EvReadFile (WALLET_PATH cfg)]. split; [now right|].
    destruct (w_readFile w (WALLET_PATH cfg)); [|reflexivity].
    destruct (keypair_of_json a); reflexivity.
  - exists [EvReadFile (WALLET_PATH cfg)]. split; [now right|].
    destruct (w_readFile w (WALLET_PATH cfg)); [|reflexivity].
    destruct (keypair_of_json a); reflexivity.
Qed.

Lemma wp_resolveKeypair cfg w (Q : Outcome Keypair -> Proc -> Prop) st :
  (forall evs,
     evs = [] \/ evs = [EvReadFile (WALLET_PATH cfg)] ->
     Q (fst (resolveKeypair cfg w initial))
       {| _connection := _connection st; next_id := next_id st;
          trace := trace st ++ evs |}) ->
  wp (resolveKeypair cfg w) Q st.
Proof.
  intros HQ. unfold wp.
  destruct (resolveKeypair_run cfg w st) as (evs & Hevs & ->).
  apply HQ. assumption.
Qed.

End WalletFacts.

(** C6.  The outcome of [resolveKeypair] is a function of the value of
    WALLET_PRIVATE_KEY and of the content of the key file; and when
    WALLET_PRIVATE_KEY holds a (non-empty) encoded secret, the outcome is
    the key pair decoded from it, or the exception of its decoding: the
    key file is not read and has no influence. *)
Theorem resolveKeypair_env_first `{Platform} (cfg : Config.t) (w1 w2 : World)
    (st : Proc) :
  (w_env w1 "WALLET_PRIVATE_KEY" = w_env w2 "WALLET_PRIVATE_KEY" ->
   w_readFile w1 (WALLET_PATH cfg) = w_readFile w2 (WALLET_PATH cfg) ->
   resolveKeypair cfg w1 st = resolveKeypair cfg w2 st)
  /\ (forall envKey,
        w_env w1 "WALLET_PRIVATE_KEY" = Some envKey -> envKey <> "" ->
        resolveKeypair cfg w1 st = lift (keypair_of_base58 envKey) st
        /\ trace (snd (resolveKeypair cfg w1 st)) = trace st).
Proof.
  split.
  - intros Henv Hfile.
    unfold resolveKeypair, loadKeypairFromFile, readFileSync, bind.
    rewrite Henv, Hfile. reflexivity.
  - intros envKey Henv Hne. unfold resolveKeypair. rewrite Henv.
    destruct envKey as [|c rest]; [congruence|]. simpl JS.nonempty. cbv iota.
    unfold loadKeypairFromBase58. split; [reflexivity|].
    destruct (keypair_of_base58 (String c rest)); reflexivity.
Qed.

Lemma resolveKeypair_env_first_witness :
  w_env Sample.world "WALLET_PRIVATE_KEY" = Some "Kalpha"
  /\ w_readFile Sample.world (WALLET_PATH Sample.config) = Val "Kfile"
  /\ @resolveKeypair Sample.platform Sample.config Sample.world initial
     = (Done {| publicKey := {| pk_bytes := ["K"%byte] |};
                secretKey := list_byte_of_string "Kalpha" |}, initial).
Proof.
  split; [reflexivity|]. split; [reflexivity|].
  destruct (proj2 (@resolveKeypair_env_first Sample.platform Sample.config
                     Sample.world Sample.world initial)
              "Kalpha" eq_refl ltac:(discriminate)) as [Hrun _].
  rewrite Hrun. reflexivity.
Defined.

Section CreateTokenFacts.
Context `{Platform}.

Lemma nine_is_nine : JS.parseInt10 "9" = JS.of_Z 9 /\ JS.BigInt (JS.of_Z 9) = Some 9.
Proof. split; vm_compute; reflexivity. Qed.

(** Where an event can sit in a trace given piece by piece. *)
Ltac in_cases Hin :=
  repeat
    match type of Hin with
    | In _ [] => destruct Hin
    | In _ (_ :: _) => destruct Hin as [Hin|Hin]; [try discriminate Hin|]
    | In _ (_ ++ _) => apply in_app_or in Hin; destruct Hin as [Hin|Hin]
    | _ \/ _ => destruct Hin as [Hin|Hin]
    end.

Ltac in_find :=
  first [ apply in_eq
        | apply in_cons; in_find
        | apply in_or_app; first [ right; in_find | left; in_find ] ].

Lemma create_token_run cfg w :
  let r := run_main (create_token_main cfg w) (failure_prefix CreateToken) in
  (forall c payer ma fa d mk,
     In (EvRpc c (CreateMint payer ma fa d mk)) (events r) ->
     fst (resolveKeypair cfg w initial) = Done payer
     /\ ma = publicKey payer /\ fa = publicKey payer
     /\ d = create_token_decimals w /\ mk = w_generate w)
  /\ (forall payer,
        Connection_check (RPC_URL cfg) = Val tt ->
        fst (resolveKeypair cfg w initial) = Done payer ->
        exists c,
          In (EvRpc c (CreateMint payer (publicKey payer) (publicKey payer)
                         (create_token_decimals w) (w_generate w)))
             (events r)).
Proof.
  apply wp_run_main. unfold create_token_main.
  apply wp_bind. apply wp_getConnection. simpl _connection. cbv iota.
  destruct (Connection_check (RPC_URL cfg)) as [[]|msg] eqn:Hcheck; cbv zeta beta iota.
  2:{ split; [intros c payer ma fa d mk Hin; cbn [result_of events trace initial app] in Hin;
              in_cases Hin
             | intros payer Hc; discriminate Hc]. }
  apply wp_bind. apply wp_resolveKeypair. intros evs Hevs.
  assert (Hquiet : forall c call, ~ In (EvRpc c call) evs)
    by (intros c call Hin; destruct Hevs as [-> | ->]; in_cases Hin).
  clear Hevs.
  destruct (fst (resolveKeypair cfg w initial)) as [payer|msg|code] eqn:Hres;
    cbv beta iota.
  2,3: split; [|intros payer _ Hp; discriminate Hp];
       intros c payer ma fa d mk Hin;
       cbn [result_of events trace initial app] in Hin; in_cases Hin;
       exfalso; apply (Hquiet _ _ Hin).
  wp_run.
  all: cbn [result_of events trace initial _connection next_id app]; split.
  all: try (intros c payer' ma fa d mk Hin; in_cases Hin;
            try (exfalso; apply (Hquiet _ _ Hin); fail);
            injection Hin as <- <- <- <- <- <-; repeat split; reflexivity).
  all: intros payer' _ [= <-]; eexists;
       in_find.
Qed.

(** C10.  Without a first argument the number of decimals is
    [parseInt("9", 10)], the number 9; and in every run the only mint
    that is created has the resolved identity as payer and its public key
    as mint authority and as freeze authority: such a [createMint] is
    issued as soon as the connection is constructed and the identity
    resolves. *)
Theorem create_token_defaults (w : World) (cfg : Config.t) :
  Config.load w = Val cfg ->
  (nth_error (w_argv w) 0 = None ->
   create_token_decimals w = JS.of_Z 9 /\ JS.BigInt (JS.of_Z 9) = Some 9)
  /\ (forall c payer ma fa d mk,
        In (EvRpc c (CreateMint payer ma fa d mk)) (events (script CreateToken w)) ->
        fst (resolveKeypair cfg w initial) = Done payer
        /\ ma = publicKey payer /\ fa = publicKey payer
        /\ d = create_token_decimals w)
  /\ (forall payer,
        Connection_check (RPC_URL cfg) = Val tt ->
        fst (resolveKeypair cfg w initial) = Done payer ->
        exists c,
          In (EvRpc c (CreateMint payer (publicKey payer) (publicKey payer)
                         (create_token_decimals w) (w_generate w)))
             (events (script CreateToken w))).
Proof.
  intros Hload. unfold script. rewrite Hload.
  destruct (create_token_run cfg w) as [Hall Hex]. split; [|split].
  - intros Harg. unfold create_token_decimals, arg. rewrite Harg.
    apply nine_is_nine.
  - intros c payer ma fa d mk Hin.
    destruct (Hall c payer ma fa d mk Hin) as (H1 & H2 & H3 & H4 & _).
    repeat split; assumption.
  - exact Hex.
Qed.

End CreateTokenFacts.

Lemma create_token_defaults_witness :
  @Config.load Sample.platform Sample.mainnet_world = Val Sample.mainnet_config
  /\ nth_error (w_argv Sample.mainnet_world) 0 = None
  /\ create_token_decimals Sample.mainnet_world = JS.of_Z 9
  /\ exists c payer,
       In (EvRpc c (CreateMint payer (publicKey payer) (publicKey payer)
                      (JS.of_Z 9) (w_generate Sample.mainnet_world)))
          (events (@script Sample.platform CreateToken Sample.mainnet_world)).
Proof.
  split; [reflexivity|]. split; [reflexivity|].
  destruct (@create_token_defaults Sample.platform Sample.mainnet_world
              Sample.mainnet_config eq_refl) as (Hnine & _ & Hmint).
  split; [apply (proj1 (Hnine eq_refl))|].
  destruct (Hmint {| publicKey := {| pk_bytes := ["K"%byte] |};
                     secretKey := list_byte_of_string "Kfile" |}
              eq_refl eq_refl) as [c Hin].
  exists c. eexists. rewrite <- (proj1 (Hnine eq_refl)). exact Hin.
Defined.

Section SwapFacts.
Context `{Platform}.
Variable w : World.

Lemma submissions_app l1 l2 :
  submissions (l1 ++ l2) = (submissions l1 + submissions l2)%nat.
Proof. unfold submissions. now rewrite filter_app, length_app. Qed.

Lemma quiet_submissions l :
  Forall (fun e => is_quiet e = true) l -> submissions l = O.
Proof.
  unfold submissions. induction 1 as [|e l He Hl IH]; simpl; [reflexivity|].
  unfold is_quiet in He. apply andb_prop in He. destruct He as [He _].
  destruct (is_submission e); [discriminate | assumption].
Qed.

Lemma quiet_no_anchor l :
  Forall (fun e => is_quiet e = true) l ->
  Forall (fun e => is_anchor_fetch e = false) l.
Proof.
  apply Forall_impl. intros e He. unfold is_quiet in He.
  apply andb_prop in He. destruct He as [_ He].
  destruct (is_anchor_fetch e); [discriminate | reflexivity].
Qed.

Lemma quiet_emit e st :
  quiet st -> is_quiet e = true ->
  quiet {| _connection := _connection st; next_id := next_id st;
           trace := trace st ++ [e] |}.
Proof.
  unfold quiet. simpl. intros Hq He. apply Forall_app. split; [assumption|].
  constructor; [assumption | constructor].
Qed.

(** The postcondition of the swap script, on outcomes. *)
Local Abbreviation swap_Q :=
  (fun o st => swap_post w (result_of (failure_prefix SwapJupiter) o st)).

Lemma quiet_options l :
  Forall (fun e => is_quiet e = true) l -> Forall with_swap_options l.
Proof.
  apply Forall_impl. intros e He c raw sp mr ->. discriminate He.
Qed.

Lemma quiet_post code l :
  Forall (fun e => is_quiet e = true) l ->
  swap_post w {| exit_code := code; events := l |}.
Proof.
  intros Hq. unfold swap_post. cbn [events exit_code].
  rewrite (quiet_submissions _ Hq). split; [lia|].
  split; [apply quiet_no_anchor; assumption|].
  split; [apply quiet_options; assumption | intros; discriminate].
Qed.

Lemma quiet_stops o st :
  quiet st -> match o with Done _ => True | _ => swap_Q o st end.
Proof.
  intros Hq. destruct o as [a|msg|code]; [exact I| |]; cbn [result_of];
    apply quiet_post; [|assumption].
  apply Forall_app. split; [assumption | repeat constructor].
Qed.

Ltac quiet_leaf :=
  cbv beta iota;
  first [ assumption
        | apply (quiet_stops (Thrown _)); assumption
        | apply (quiet_stops (Exited _)); assumption
        | apply quiet_emit; [assumption | reflexivity] ].

(** A step that keeps the trace quiet. *)
Ltac quiet_step :=
  cbv beta iota;
  lazymatch goal with
  | |- wp (bind (rpc _ (SendRawTransaction _ _ _) _) _) _ _ => fail
  | |- wp (bind _ _) _ _ =>
      apply wp_bind_inv with (I := quiet); [|intros ? ? ?]
  | |- wp (lift ?r) _ _ => apply wp_lift; destruct r; quiet_leaf
  | |- wp (throw _) _ _ => apply wp_throw; quiet_leaf
  | |- wp (process_exit _) _ _ => apply wp_exit; quiet_leaf
  | |- wp (ret _) _ _ => apply wp_ret; quiet_leaf
  | |- wp (console_log _) _ _ => apply wp_emit; quiet_leaf
  | |- wp (console_error _) _ _ => apply wp_emit; quiet_leaf
  | |- wp (emit _) _ _ => apply wp_emit; quiet_leaf
  | |- wp (rpc _ _ _) _ _ => unfold rpc
  | |- wp (fetch _ _) _ _ => unfold fetch
  | |- wp (readFileSync _ _) _ _ => unfold readFileSync
  | |- wp (resolveKeypair _ _) _ _ => unfold resolveKeypair
  | |- wp (loadKeypairFromFile _ _ _) _ _ => unfold loadKeypairFromFile
  | |- wp (loadKeypairFromBase58 _) _ _ => unfold loadKeypairFromBase58
  | |- wp (toTokenAmountM _ _) _ _ => unfold toTokenAmountM
  | |- wp (getConnection _) _ ?st =>
      apply wp_getConnection; destruct (_connection st);
      [|destruct (Connection_check _); cbv zeta];
      first [ quiet_leaf
            | apply Forall_app; split; [assumption | repeat constructor] ]
  | |- wp (match ?x with _ => _ end) _ _ => destruct x
  end.

Lemma swap_post_tail code l tail :
  Forall (fun e => is_quiet e = true) l ->
  submissions tail = 1%nat ->
  Forall (fun e => is_anchor_fetch e = false) tail ->
  Forall with_swap_options tail ->
  (forall msg, w_sendRaw w = Throw msg \/ w_confirm w = Throw msg -> code = 1) ->
  swap_post w {| exit_code := code; events := l ++ tail |}.
Proof.
  intros Hq Hs Ha Ho Hc. unfold swap_post. cbn [events exit_code].
  rewrite submissions_app, (quiet_submissions _ Hq), Hs.
  split; [lia|]. split; [|split].
  - apply Forall_app. split; [apply quiet_no_anchor|]; assumption.
  - apply Forall_app. split; [apply quiet_options|]; assumption.
  - intros msg Hmsg _. apply (Hc msg Hmsg).
Qed.

Ltac swap_options :=
  repeat (apply Forall_cons;
          [ intros ? ? ? ? Heq;
            first [ discriminate Heq
                  | injection Heq as <- <- <- <-; split; reflexivity ]
          | ]);
  apply Forall_nil.

(** The submission and what follows it. *)
Lemma swap_submit_post c raw st :
  quiet st ->
  wp (sig <- rpc c (SendRawTransaction raw false 3) (w_sendRaw w) ;;
      rpc c (ConfirmTransaction sig None "confirmed") (w_confirm w) ;;
      console_log ("✓ Swap confirmed: " ++ sig))
     swap_Q st.
Proof.
  intros Hq. unfold wp, rpc, console_log, bind, emit, lift, ret, throw.
  destruct (w_sendRaw w) as [sig|msg] eqn:Hsend;
    [destruct (w_confirm w) as [[]|msg] eqn:Hconf|];
    cbn [fst snd result_of]; cbn [fst snd trace]; rewrite <- ?app_assoc; cbn [app];
    apply swap_post_tail; try assumption; try reflexivity;
    try (repeat constructor; fail); try (swap_options; fail);
    intros msg' [Hm|Hm]; congruence.
Qed.

Lemma swap_main_post cfg :
  swap_post w (run_main (swap_main cfg w) (failure_prefix SwapJupiter)).
Proof.
  apply wp_run_main.
  assert (H0 : quiet initial) by constructor.
  revert H0. generalize initial. intros st Hq.
  unfold swap_main.
  repeat quiet_step.
  apply swap_submit_post. assumption.
Qed.

Lemma swap_script_post : swap_post w (script SwapJupiter w).
Proof.
  unfold script. destruct (Config.load w) as [cfg|msg].
  - apply swap_main_post.
  - apply quiet_post. repeat constructor.
Qed.

End SwapFacts.

(** ** Secret key material and the console *)

Section SecrecyFacts.
Context `{Platform}.

Lemma console_app l1 l2 : console (l1 ++ l2) = (console l1 ++ console l2)%list.
Proof.
  induction l1 as [|e l1 IH]; simpl; [reflexivity|].
  destruct (console_of e); simpl; now rewrite IH.
Qed.

Lemma same_console_refl s : same_console s s.
Proof. repeat split. Qed.

Lemma lockstep_bind {A B} (R : A -> A -> Prop) (S : B -> B -> Prop)
    (m1 m2 : M A) (k1 k2 : A -> M B) :
  lockstep R m1 m2 ->
  (forall a b, R a b -> lockstep S (k1 a) (k2 b)) ->
  lockstep S (bind m1 k1) (bind m2 k2).
Proof.
  intros Hm Hk s1 s2 Hs. unfold bind.
  pose proof (Hm s1 s2 Hs) as Hstep. revert Hstep.
  destruct (m1 s1) as [[a|msg1|c1] s1'], (m2 s2) as [[b|msg2|c2] s2'];
    simpl; intros [Ho Hs']; try contradiction.
  - apply Hk; assumption.
  - subst. split; [reflexivity | assumption].
  - subst. split; [reflexivity | assumption].
Qed.

Lemma lockstep_ret {A} (R : A -> A -> Prop) a b :
  R a b -> lockstep R (ret a) (ret b).
Proof. intros Hab s1 s2 Hs. split; [exact Hab | exact Hs]. Qed.

Lemma lockstep_throw {A} (R : A -> A -> Prop) msg :
  lockstep R (throw msg) (throw msg).
Proof. intros s1 s2 Hs. split; [reflexivity | exact Hs]. Qed.

Lemma lockstep_exit {A} (R : A -> A -> Prop) code :
  lockstep R (process_exit code) (process_exit code).
Proof. intros s1 s2 Hs. split; [reflexivity | exact Hs]. Qed.

Lemma lockstep_lift {A} (r : Res A) : lockstep eq (lift r) (lift r).
Proof. destruct r; [apply lockstep_ret; reflexivity | apply lockstep_throw]. Qed.

Lemma lockstep_emit e1 e2 :
  console_of e1 = console_of e2 -> lockstep eq (emit e1) (emit e2).
Proof.
  intros He s1 s2 (Hc & Hn & Ht). split; [reflexivity|].
  repeat split; simpl; try assumption.
  rewrite !console_app, Ht. simpl. rewrite He. reflexivity.
Qed.

Lemma lockstep_rpc {A} c call1 call2 (answer : Res A) :
  lockstep eq (rpc c call1 answer) (rpc c call2 answer).
Proof.
  unfold rpc. eapply lockstep_bind.
  - apply (lockstep_emit (EvRpc c call1) (EvRpc c call2)). reflexivity.
  - intros _ _ _. apply lockstep_lift.
Qed.

Lemma lockstep_fetch req1 req2 answer :
  lockstep eq (fetch req1 answer) (fetch req2 answer).
Proof.
  unfold fetch. eapply lockstep_bind.
  - apply (lockstep_emit (EvFetch req1) (EvFetch req2)). reflexivity.
  - intros _ _ _. apply lockstep_lift.
Qed.

Lemma lockstep_getConnection cfg :
  lockstep eq (getConnection cfg) (getConnection cfg).
Proof.
  intros s1 s2 (Hc & Hn & Ht). unfold getConnection. rewrite Hc.
  destruct (_connection s2) as [c|] eqn:Hc2.
  - split; [reflexivity | repeat split; simpl; congruence].
  - unfold bind, new_Connection, lift, set_connection, ret, throw.
    destruct (Connection_check (RPC_URL cfg)) as [[]|msg]; simpl.
    + rewrite Hn. split; [reflexivity|].
      repeat split; simpl; try congruence.
      now rewrite !console_app, Ht.
    + split; [reflexivity | repeat split; simpl; congruence].
Qed.

Lemma lockstep_for_each {A} (xs : list A) (body1 body2 : A -> M unit) :
  (forall x, lockstep eq (body1 x) (body2 x)) ->
  lockstep eq (for_each xs body1) (for_each xs body2).
Proof.
  intros Hb. induction xs as [|x xs IH]; simpl.
  - apply lockstep_ret. reflexivity.
  - eapply lockstep_bind; [apply Hb | intros _ _ _; exact IH].
Qed.

Lemma lockstep_toTokenAmountM x d :
  lockstep eq (toTokenAmountM x d) (toTokenAmountM x d).
Proof.
  unfold toTokenAmountM. destruct (toTokenAmount x d);
    [apply lockstep_ret; reflexivity | apply lockstep_throw].
Qed.

(** Loading a key file shows its public part only. *)
Lemma lockstep_load_file w k1 f1 k2 f2 path :
  file_view f1 path = file_view f2 path ->
  lockstep same_public_key
    (raw <- readFileSync (with_secrets w k1 f1) path ;; lift (keypair_of_json raw))
    (raw <- readFileSync (with_secrets w k2 f2) path ;; lift (keypair_of_json raw)).
Proof.
  unfold file_view. intros Hv s1 s2 (Hc & Hn & Ht).
  unfold readFileSync, bind, emit, lift, ret, throw. cbn [with_secrets w_readFile].
  assert (Hs : same_console
                 {| _connection := _connection s1; next_id := next_id s1;
                    trace := trace s1 ++ [EvReadFile path] |}
                 {| _connection := _connection s2; next_id := next_id s2;
                    trace := trace s2 ++ [EvReadFile path] |}).
  { repeat split; simpl; try assumption. now rewrite !console_app, Ht. }
  destruct (f1 path) as [raw1|msg1], (f2 path) as [raw2|msg2]; simpl.
  - destruct (keypair_of_json raw1), (keypair_of_json raw2);
      simpl in *; try discriminate; split; try assumption; congruence.
  - destruct (keypair_of_json raw1); simpl in *; try discriminate.
    split; [congruence | assumption].
  - destruct (keypair_of_json raw2); simpl in *; try discriminate.
    split; [congruence | assumption].
  - split; [congruence | assumption].
Qed.

Lemma lockstep_resolveKeypair cfg w k1 f1 k2 f2 :
  env_view k1 = env_view k2 ->
  (forall path, file_view f1 path = file_view f2 path) ->
  lockstep same_public_key
    (resolveKeypair cfg (with_secrets w k1 f1))
    (resolveKeypair cfg (with_secrets w k2 f2)).
Proof.
  intros Henv Hfile. unfold resolveKeypair.
  cbn [with_secrets w_env]. rewrite String.eqb_refl.
  pose proof (lockstep_load_file w k1 f1 k2 f2 (WALLET_PATH cfg)
                (Hfile (WALLET_PATH cfg))) as Hload.
  unfold env_view, JS.truthy in Henv.
  destruct k1 as [e1|], k2 as [e2|];
    try destruct (JS.nonempty e1); try destruct (JS.nonempty e2);
    try discriminate; try exact Hload.
  unfold loadKeypairFromBase58. injection Henv as Henv.
  intros s1 s2 Hs.
  destruct (keypair_of_base58 e1), (keypair_of_base58 e2);
    simpl in *; try discriminate; split; try assumption; congruence.
Qed.

Lemma lockstep_load_file_then {B} (S : B -> B -> Prop) w k1 f1 k2 f2 path
    (c1 c2 : Keypair -> M B) :
  file_view f1 path = file_view f2 path ->
  (forall a b, same_public_key a b -> lockstep S (c1 a) (c2 b)) ->
  lockstep S
    (raw <- readFileSync (with_secrets w k1 f1) path ;;
     kp <- lift (keypair_of_json raw) ;; c1 kp)
    (raw <- readFileSync (with_secrets w k2 f2) path ;;
     kp <- lift (keypair_of_json raw) ;; c2 kp).
Proof.
  intros Hv Hk s1 s2 Hs.
  pose proof (lockstep_bind same_public_key S _ _ c1 c2
                (lockstep_load_file w k1 f1 k2 f2 path Hv) Hk s1 s2 Hs) as Hb.
  unfold bind in *.
  destruct (readFileSync (with_secrets w k1 f1) path s1) as [[raw1|m1|e1] s1'],
           (readFileSync (with_secrets w k2 f2) path s2) as [[raw2|m2|e2] s2'];
    exact Hb.
Qed.

Lemma lockstep_run_main (m1 m2 : M unit) prefix :
  lockstep eq m1 m2 ->
  console (events (run_main m1 prefix)) = console (events (run_main m2 prefix))
  /\ exit_code (run_main m1 prefix) = exit_code (run_main m2 prefix).
Proof.
  intros Hm. unfold run_main.
  pose proof (Hm initial initial (same_console_refl initial)) as Hrun.
  revert Hrun.
  destruct (m1 initial) as [[[]|msg1|c1] s1], (m2 initial) as [[[]|msg2|c2] s2];
    simpl; intros [Ho (_ & _ & Ht)]; try contradiction; subst.
  - split; [assumption | reflexivity].
  - split; [|reflexivity]. now rewrite !console_app, Ht.
  - split; [assumption | reflexivity].
Qed.

End SecrecyFacts.

Ltac lock_leaf :=
  first
    [ apply lockstep_ret; reflexivity
    | apply lockstep_throw
    | apply lockstep_exit
    | apply lockstep_lift
    | apply lockstep_emit; reflexivity
    | apply lockstep_rpc
    | apply lockstep_fetch
    | apply lockstep_getConnection
    | apply lockstep_toTokenAmountM
    | apply lockstep_resolveKeypair; assumption
    | apply lockstep_for_each; intros ? ].

(** A key pair bound on the way is known by its public key only; other
    results are the same in both runs. *)
Ltac lock_names :=
  unfold same_public_key in *;
  repeat match goal with
         | Hk : publicKey ?a = publicKey ?b |- context [publicKey ?a] =>
             rewrite Hk
         | He : ?a = ?b |- _ => is_var a; is_var b; subst b
         end.

(** One step of two runs in lockstep. *)
Ltac lock_step :=
  lock_names; cbv beta;
  lazymatch goal with
  | |- lockstep _ (show_instruction _) _ => unfold show_instruction
  | |- lockstep _ (bind (readFileSync _ _) _) (bind (readFileSync _ _) _) =>
      apply lockstep_load_file_then; [solve [auto] | intros ? ? ?]
  | |- lockstep _ (bind _ _) (bind _ _) =>
      eapply lockstep_bind; [ | intros ? ? ?]
  | |- lockstep _ (match ?x with _ => _ end) (match ?x with _ => _ end) =>
      destruct x
  | |- lockstep _ (let _ := _ in _) _ => cbv zeta
  | |- lockstep _ _ _ => lock_leaf
  end.

Ltac lock_run := repeat lock_step.

Section ScriptSecrecy.
Context `{Platform}.
Variable cfg : Config.t.
Variable w : World.
Variables (k1 k2 : option string) (f1 f2 : string -> Res string).
Hypothesis Henv : env_view k1 = env_view k2.
Hypothesis Hfile : forall path, file_view f1 path = file_view f2 path.

Local Abbreviation w1 := (with_secrets w k1 f1).
Local Abbreviation w2 := (with_secrets w k2 f2).

Ltac same_world :=
  unfold arg, create_token_decimals;
  cbn [with_secrets w_argv w_exists w_execSync
       w_generate w_getBalance w_tokenAccounts w_requestAirdrop
       w_latestBlockhash w_confirm w_sendAndConfirm w_getMint
       w_getOrCreateATA w_createMint w_mintTo w_transfer w_sendRaw
       w_getParsedTransaction w_quote w_swap].

Lemma main_lockstep o : lockstep eq (main_of o cfg w1) (main_of o cfg w2).
Proof.
  destruct o; unfold main_of.
  - unfold balance_main. same_world. lock_run.
  - unfold airdrop_main. same_world. lock_run.
  - unfold transfer_sol_main. same_world. lock_run.
  - unfold transfer_token_main. same_world. lock_run.
  - unfold create_token_main. same_world. lock_run.
  - unfold create_account_main. same_world. lock_run.
  - unfold mint_tokens_main. same_world. lock_run.
  - unfold swap_main. same_world. lock_run.
  - unfold deploy_main. same_world. lock_run.
  - unfold fetch_tx_main. same_world. lock_run.
Qed.

Lemma load_with_secrets k f : Config.load (with_secrets w k f) = Config.load w.
Proof. reflexivity. Qed.

End ScriptSecrecy.

(** Take any world and replace its secret key material (the value of
    WALLET_PRIVATE_KEY and the content of the key files) by other material
    that decodes to the same public keys, or fails to decode with the same
    messages: every orchestrator writes the same lines to the console and
    exits with the same status.  The console depends on the key material
    through the decoded public key and through the messages of the
    decoding exceptions, and through nothing else; what those messages
    hold is not bounded here. *)
Lemma console_reads_public_part `{Platform} (o : Orchestrator) (w : World)
    (k1 k2 : option string) (f1 f2 : string -> Res string) :
  env_view k1 = env_view k2 ->
  (forall path, file_view f1 path = file_view f2 path) ->
  console (events (script o (with_secrets w k1 f1)))
  = console (events (script o (with_secrets w k2 f2)))
  /\ exit_code (script o (with_secrets w k1 f1))
     = exit_code (script o (with_secrets w k2 f2)).
Proof.
  intros Henv Hfile. unfold script. rewrite !load_with_secrets.
  destruct (Config.load w) as [cfg|msg]; [|split; reflexivity].
  apply lockstep_run_main. apply main_lockstep; assumption.
Qed.

Example console_reads_public_part_sample :
  Some "Kalpha" <> Some "Kbeta"
  /\ console (events (@script Sample.platform CreateToken
                        (with_secrets Sample.world (Some "Kalpha")
                           (fun _ => Val "Kfile"))))
     = console (events (@script Sample.platform CreateToken
                          (with_secrets Sample.world (Some "Kbeta")
                             (fun _ => Val "Kother"))))
  /\ exit_code (@script Sample.platform CreateToken
                  (with_secrets Sample.world (Some "Kalpha")
                     (fun _ => Val "Kfile")))
     = exit_code (@script Sample.platform CreateToken
                    (with_secrets Sample.world (Some "Kbeta")
                       (fun _ => Val "Kother"))).
Proof.
  split; [discriminate|].
  apply (@console_reads_public_part Sample.platform CreateToken Sample.world
           (Some "Kalpha") (Some "Kbeta")
           (fun _ => Val "Kfile") (fun _ => Val "Kother")).
  - reflexivity.
  - intros path. reflexivity.
Defined.




(* ===================================================================== *)
(** * More facts: the codec, the scripts and their requests *)
(* ===================================================================== *)

Import Traces TokenAccounts Requests.

(** ** Numbers: exact products *)

Section ExactFacts.

Lemma iter_pos_nat {A} (f : A -> A) p x :
  iter_pos f p x = Nat.iter (Pos.to_nat p) f x.
Proof.
  revert x. induction p as [p IH|p IH|]; intros x; cbn [iter_pos].
  - rewrite !IH, Pos2Nat.inj_xI.
    replace (S (2 * Pos.to_nat p))%nat
      with (Pos.to_nat p + (Pos.to_nat p + 1))%nat by lia.
    rewrite !Nat.iter_add. reflexivity.
  - rewrite !IH, Pos2Nat.inj_xO.
    replace (2 * Pos.to_nat p)%nat with (Pos.to_nat p + Pos.to_nat p)%nat by lia.
    rewrite Nat.iter_add. reflexivity.
  - reflexivity.
Qed.

Lemma shiftl_nat_S p k : Pos.shiftl_nat p (S k) = xO (Pos.shiftl_nat p k).
Proof. reflexivity. Qed.

Lemma shiftl_nat_value p k :
  Z.pos (Pos.shiftl_nat p k) = Z.pos p * 2 ^ Z.of_nat k.
Proof.
  induction k as [|k IH].
  - cbn. lia.
  - rewrite shiftl_nat_S, Pos2Z.inj_xO, IH, Nat2Z.inj_succ, Z.pow_succ_r by lia.
    ring.
Qed.

Lemma shiftl_nat_digits p k :
  Z.pos (digits2_pos (Pos.shiftl_nat p k)) = Z.pos (digits2_pos p) + Z.of_nat k.
Proof.
  induction k as [|k IH].
  - cbn. lia.
  - rewrite shiftl_nat_S. cbn [digits2_pos]. rewrite Pos2Z.inj_succ, IH. lia.
Qed.

Lemma shr_shiftl p k :
  Nat.iter k shr_1
    {| shr_m := Z.pos (Pos.shiftl_nat p k); shr_r := false; shr_s := false |}
  = {| shr_m := Z.pos p; shr_r := false; shr_s := false |}.
Proof.
  induction k as [|k IH]; [reflexivity|].
  rewrite Nat.iter_succ_r. exact IH.
Qed.

Lemma shiftl_nat_add p j k :
  Pos.shiftl_nat p (j + k) = Pos.shiftl_nat (Pos.shiftl_nat p j) k.
Proof.
  rewrite Nat.add_comm.
  induction k as [|k IH]; [reflexivity|].
  cbn [Nat.add]. now rewrite !shiftl_nat_S, IH.
Qed.

(** Rounding a mantissa that carries an integer of at most 53 bits
    shifted left is exact. *)
Lemma binary_round_aux_exact s (p : positive) (k : nat) :
  let n := Z.pos (digits2_pos p) in
  n <= 53 -> 53 <= n + Z.of_nat k ->
  binary_round_aux JS.prec JS.emax s (Z.pos (Pos.shiftl_nat p k)) (- Z.of_nat k)
    loc_Exact
  = S754_finite s (Pos.shiftl_nat p (Z.to_nat (53 - n))) (n - 53).
Proof.
  intros n Hn Hk.
  set (j := Z.to_nat (53 - n)).
  assert (Hkj : (k = j + (k - j))%nat) by lia.
  unfold binary_round_aux, shr_fexp, Zdigits2.
  rewrite shiftl_nat_digits. fold n.
  replace (fexp JS.prec JS.emax (n + Z.of_nat k + - Z.of_nat k)) with (n - 53)
    by (unfold fexp, emin, JS.prec, JS.emax; lia).
  assert (Hfirst :
    shr (shr_record_of_loc (Z.pos (Pos.shiftl_nat p k)) loc_Exact) (- Z.of_nat k)
      (n - 53 - - Z.of_nat k)
    = ({| shr_m := Z.pos (Pos.shiftl_nat p j); shr_r := false; shr_s := false |},
       n - 53)).
  { unfold shr, shr_record_of_loc.
    destruct (n - 53 - - Z.of_nat k) as [|sh|sh] eqn:Hsh.
    - f_equal; [|lia]. do 3 f_equal. lia.
    - f_equal; [|lia]. rewrite iter_pos_nat.
      rewrite Hkj, shiftl_nat_add.
      replace (Pos.to_nat sh) with (k - j)%nat by lia.
      apply shr_shiftl.
    - lia. }
  rewrite Hfirst. cbn [shr_m loc_of_shr_record round_nearest_even].
  unfold Zdigits2. rewrite shiftl_nat_digits. fold n.
  replace (fexp JS.prec JS.emax (n + Z.of_nat j + (n - 53))) with (n - 53)
    by (unfold fexp, emin, JS.prec, JS.emax; lia).
  rewrite Z.sub_diag. cbn [shr shr_record_of_loc shr_m].
  destruct (Z.leb_spec (n - 53) (JS.emax - JS.prec)) as [_|Hgt];
    [reflexivity | unfold JS.emax, JS.prec in Hgt; lia].
Qed.

End ExactFacts.

Section ExactAmounts.

Lemma binary_round_exact s (p : positive) :
  let n := Z.pos (digits2_pos p) in
  n <= 53 ->
  binary_round JS.prec JS.emax s p 0
  = S754_finite s (Pos.shiftl_nat p (Z.to_nat (53 - n))) (n - 53).
Proof.
  intros n Hn. unfold binary_round, shl_align. fold n.
  replace (fexp JS.prec JS.emax (n + 0)) with (n - 53)
    by (unfold fexp, emin, JS.prec, JS.emax; lia).
  destruct (n - 53 - 0) as [|d|d] eqn:Hd.
  - apply (binary_round_aux_exact s p 0); fold n; lia.
  - lia.
  - rewrite Pos2Nat.inj_iter.
    change (nat_rect (fun _ => positive) p (fun _ => xO) (Pos.to_nat d))
      with (Pos.shiftl_nat p (Pos.to_nat d)).
    replace (n - 53) with (- Z.of_nat (Pos.to_nat d)) at 1 by lia.
    rewrite (binary_round_aux_exact s p (Pos.to_nat d)) by (fold n; lia).
    reflexivity.
Qed.

Lemma of_Z_cond_Zopp s p :
  JS.of_Z (cond_Zopp s (Z.pos p)) = binary_round JS.prec JS.emax s p 0.
Proof. destruct s; reflexivity. Qed.

(** A number that holds an integer of at most 53 bits is left as it is by
    [Math.round], and [BigInt] gives the integer. *)
Lemma integral_number s (p : positive) :
  let n := Z.pos (digits2_pos p) in
  n <= 53 ->
  let x := S754_finite s (Pos.shiftl_nat p (Z.to_nat (53 - n))) (n - 53) in
  JS.Math_round x = x /\ JS.BigInt x = Some (cond_Zopp s (Z.pos p)).
Proof.
  intros n Hn x. subst x.
  set (j := Z.to_nat (53 - n)).
  assert (Hm : Z.pos (Pos.shiftl_nat p j) = Z.pos p * 2 ^ Z.of_nat j)
    by apply shiftl_nat_value.
  assert (Hpow : 0 < 2 ^ Z.of_nat j) by (apply Z.pow_pos_nonneg; lia).
  unfold JS.Math_round, JS.BigInt.
  destruct (Z.leb_spec 0 (n - 53)) as [He|He].
  - split; [reflexivity|].
    replace (n - 53) with 0 by lia.
    subst j. replace (Z.to_nat (53 - n)) with O by lia.
    cbn [Pos.shiftl_nat nat_rect]. rewrite Z.pow_0_r, Z.mul_1_r. reflexivity.
  - replace (- (n - 53)) with (Z.of_nat j) by lia.
    assert (Hz : (2 * cond_Zopp s (Z.pos (Pos.shiftl_nat p j)) + 2 ^ Z.of_nat j)
                 / 2 ^ (Z.of_nat j + 1)
                 = cond_Zopp s (Z.pos p)).
    { rewrite Z.pow_add_r, Z.pow_1_r by lia.
      destruct s; cbn [cond_Zopp].
      - replace (2 * - Z.pos (Pos.shiftl_nat p j) + 2 ^ Z.of_nat j)
          with ((2 * (- Z.pos p) + 1) * 2 ^ Z.of_nat j) by (rewrite Hm; ring).
        rewrite (Z.mul_comm (2 ^ Z.of_nat j) 2), Z.div_mul_cancel_r by lia.
        symmetry. apply Z.div_unique with (r := 1); lia.
      - replace (2 * Z.pos (Pos.shiftl_nat p j) + 2 ^ Z.of_nat j)
          with ((2 * Z.pos p + 1) * 2 ^ Z.of_nat j) by (rewrite Hm; ring).
        rewrite (Z.mul_comm (2 ^ Z.of_nat j) 2), Z.div_mul_cancel_r by lia.
        symmetry. apply Z.div_unique with (r := 1); lia. }
    split.
    + cbv zeta. rewrite Hz.
      destruct (Z.eqb_spec (cond_Zopp s (Z.pos p)) 0) as [E|_];
        [destruct s; discriminate E|].
      rewrite of_Z_cond_Zopp. apply binary_round_exact. exact Hn.
    + rewrite Hm, Z.mod_mul, Z.div_mul by lia. reflexivity.
Qed.

(** The powers of ten up to [10 ** 22] are numbers with a full mantissa. *)
Lemma pow10_finite d :
  0 <= d <= 22 ->
  exists P E,
    JS.pow10 d = S754_finite false P E
    /\ -52 <= E <= 21
    /\ 2 ^ 52 <= Z.pos P
    /\ Z.pos P * 2 ^ (E + 52) = 10 ^ d * 2 ^ 52.
Proof.
  intros Hd.
  assert (Hk : exists k : nat, (k <= 22)%nat /\ d = Z.of_nat k)
    by (exists (Z.to_nat d); lia).
  destruct Hk as (k & Hk & ->).
  do 23 (destruct k as [|k];
         [eexists; eexists; split; [vm_compute; reflexivity|];
          split; [split; apply Z.leb_le; vm_compute; reflexivity|];
          split; [apply Z.leb_le|]; vm_compute; reflexivity|]).
  lia.
Qed.

End ExactAmounts.

Section ExactScaling.

Lemma digits2_pos_lower p : 2 ^ (Z.pos (digits2_pos p) - 1) <= Z.pos p.
Proof.
  induction p as [p IH|p IH|]; cbn [digits2_pos].
  - rewrite Pos2Z.inj_succ, (Pos2Z.inj_xI p).
    replace (Z.succ (Z.pos (digits2_pos p)) - 1)
      with (Z.succ (Z.pos (digits2_pos p) - 1)) by lia.
    rewrite Z.pow_succ_r by lia. lia.
  - rewrite Pos2Z.inj_succ, (Pos2Z.inj_xO p).
    replace (Z.succ (Z.pos (digits2_pos p)) - 1)
      with (Z.succ (Z.pos (digits2_pos p) - 1)) by lia.
    rewrite Z.pow_succ_r by lia. lia.
  - cbn. lia.
Qed.

Lemma digits2_pos_le p b : 0 <= b -> Z.pos p < 2 ^ b -> Z.pos (digits2_pos p) <= b.
Proof.
  intros Hb Hp. pose proof (digits2_pos_lower p) as Hl.
  destruct (Z.le_gt_cases (Z.pos (digits2_pos p)) b) as [|Hgt]; [assumption|].
  assert (2 ^ b <= 2 ^ (Z.pos (digits2_pos p) - 1))
    by (apply Z.pow_le_mono_r; lia).
  lia.
Qed.

Lemma digits2_pos_ge p b : 0 <= b -> 2 ^ b <= Z.pos p -> b < Z.pos (digits2_pos p).
Proof.
  intros Hb Hp. pose proof (digits2_pos_bound p) as Hu.
  apply (Z.pow_lt_mono_r_iff 2); lia.
Qed.

(** The product of a number with a power of ten is exact when it is an
    integer below [2^53]. *)
Lemma mul_pow10_exact s (mx : positive) ex d (N : positive) :
  0 <= d <= 22 -> Z.pos N < 2 ^ 53 -> ex <= 0 ->
  Z.pos mx * 10 ^ d = Z.pos N * 2 ^ (- ex) ->
  let n := Z.pos (digits2_pos N) in
  n <= 53
  /\ JS.mul (S754_finite s mx ex) (JS.pow10 d)
     = S754_finite s (Pos.shiftl_nat N (Z.to_nat (53 - n))) (n - 53).
Proof.
  intros Hd HN Hex Hval n.
  assert (Hn : n <= 53) by (apply digits2_pos_le; lia).
  split; [exact Hn|].
  destruct (pow10_finite d Hd) as (P & E & Hp & HE & HP & HPval).
  unfold JS.mul. rewrite Hp. cbn [SFmul]. rewrite xorb_false_r.
  assert (H52 : 0 < 2 ^ 52) by (apply Z.pow_pos_nonneg; lia).
  assert (Hprod : Z.pos (mx * P) * 2 ^ (E + 52) = Z.pos N * 2 ^ (52 - ex)).
  { rewrite Pos2Z.inj_mul, <- Z.mul_assoc, HPval, Z.mul_assoc, Hval.
    rewrite <- Z.mul_assoc, <- Z.pow_add_r by lia. do 2 f_equal. lia. }
  assert (Hk : 0 <= - (ex + E)).
  { destruct (Z.le_gt_cases (ex + E) 0) as [|Hgt]; [lia|]. exfalso.
    replace (E + 52) with (52 - ex + (ex + E)) in Hprod by lia.
    rewrite Z.pow_add_r, Z.mul_assoc in Hprod by lia.
    assert (Hpe : 0 < 2 ^ (52 - ex)) by (apply Z.pow_pos_nonneg; lia).
    assert (HN' : Z.pos (mx * P) * 2 ^ (ex + E) = Z.pos N) by nia.
    assert (2 ^ 1 <= 2 ^ (ex + E)) by (apply Z.pow_le_mono_r; lia).
    assert (Z.pos P <= Z.pos (mx * P)) by (rewrite Pos2Z.inj_mul; nia).
    assert (2 ^ 53 = 2 ^ 52 * 2 ^ 1) by reflexivity.
    nia. }
  set (k := Z.to_nat (- (ex + E))).
  assert (Hshift : (mx * P)%positive = Pos.shiftl_nat N k).
  { apply Pos2Z.inj. rewrite shiftl_nat_value.
    assert (Hpe : 0 < 2 ^ (E + 52)) by (apply Z.pow_pos_nonneg; lia).
    apply (Z.mul_cancel_r _ _ (2 ^ (E + 52))); [lia|].
    rewrite Hprod, <- Z.mul_assoc, <- Z.pow_add_r by lia.
    do 2 f_equal. lia. }
  rewrite Hshift.
  replace (ex + E) with (- Z.of_nat k) by lia.
  apply binary_round_aux_exact; fold n; [exact Hn|].
  unfold n. rewrite <- shiftl_nat_digits, <- Hshift.
  assert (Z.pos P <= Z.pos (mx * P)) by (rewrite Pos2Z.inj_mul; nia).
  assert (52 < Z.pos (digits2_pos (mx * P))) by (apply digits2_pos_ge; lia).
  lia.
Qed.

End ExactScaling.

(** X1.  Whenever the product of the number [uiAmount] (of sign [s], mantissa
    [mx] and exponent [ex]) with [10^decimals] is an integer [N] below
    [2^53], [toTokenAmount] returns exactly that integer, for up to 22
    decimals. *)
Theorem toTokenAmount_exact_product s (mx : positive) ex decimals N :
  0 <= decimals <= 22 -> 0 < N < 2 ^ 53 -> ex <= 0 ->
  Z.pos mx * 10 ^ decimals = N * 2 ^ (- ex) ->
  toTokenAmount (S754_finite s mx ex) decimals = Some (cond_Zopp s N).
Proof.
  intros Hd HN Hex Hval.
  destruct N as [|N|N]; try lia.
  destruct (mul_pow10_exact s mx ex decimals N Hd (proj2 HN) Hex Hval)
    as [Hn Hmul].
  destruct (integral_number s N Hn) as [Hround Hbig].
  unfold toTokenAmount, scaled. rewrite Hmul, Hround. exact Hbig.
Qed.

(** 1.5 is 6755399441055744 * 2^-52, and 1.5 * 10^9 = 1500000000. *)
Lemma toTokenAmount_exact_product_witness :
  JS.of_decimal 15 1 = S754_finite false 6755399441055744 (-52)
  /\ toTokenAmount (S754_finite false 6755399441055744 (-52)) 9 = Some 1500000000.
Proof.
  split; [vm_compute; reflexivity|].
  apply (toTokenAmount_exact_product false 6755399441055744 (-52) 9 1500000000);
    try lia; vm_compute; reflexivity.
Defined.

(** X2.  A whole amount [m] whose scaled value [m * 10^decimals] stays below
    [2^53] is converted exactly, and [fromTokenAmount] prints it back as
    the digits of [m]. *)
Theorem whole_amount_round_trip m decimals :
  0 <= m -> 0 <= decimals <= 22 -> m * 10 ^ decimals < 2 ^ 53 ->
  toTokenAmount (JS.of_Z m) decimals = Some (m * 10 ^ decimals)
  /\ fromTokenAmount (m * 10 ^ decimals) decimals = Some (JS.digits m).
Proof.
  intros Hm Hd Hbound.
  assert (Hp : 0 < 10 ^ decimals) by (apply Z.pow_pos_nonneg; lia).
  split.
  - destruct m as [|p|p]; [| |lia].
    + destruct (pow10_finite decimals Hd) as (P & E & HP & _).
      unfold toTokenAmount, scaled, JS.mul. rewrite HP. reflexivity.
    + assert (Hlt : Z.pos p < 2 ^ 53) by nia.
      assert (Hn : Z.pos (digits2_pos p) <= 53) by (apply digits2_pos_le; lia).
      change (JS.of_Z (Z.pos p)) with (binary_round JS.prec JS.emax false p 0).
      rewrite binary_round_exact by exact Hn.
      destruct (Z.pos p * 10 ^ decimals) as [|N|N] eqn:HN; try lia.
      assert (Hval : Z.pos (Pos.shiftl_nat p (Z.to_nat (53 - Z.pos (digits2_pos p))))
                     * 10 ^ decimals
                     = Z.pos N * 2 ^ (- (Z.pos (digits2_pos p) - 53))).
      { rewrite shiftl_nat_value, <- HN, Z2Nat.id by lia.
        replace (- (Z.pos (digits2_pos p) - 53)) with (53 - Z.pos (digits2_pos p))
          by lia.
        ring. }
      assert (Hex : Z.pos (digits2_pos p) - 53 <= 0) by lia.
      assert (HltN : Z.pos N < 2 ^ 53) by lia.
      destruct (mul_pow10_exact false _ _ decimals N Hd HltN Hex Hval)
        as [HnN Hmul].
      destruct (integral_number false N HnN) as [Hround Hbig].
      unfold toTokenAmount, scaled. rewrite Hmul, Hround. exact Hbig.
  - rewrite fromTokenAmount_ref by (try apply Z.mul_nonneg_nonneg; lia).
    f_equal. replace decimals with (0 + decimals) at 2 by ring.
    rewrite toDisplay_ref_scale by lia.
    unfold toDisplay_ref. rewrite Z.pow_0_r, Z.div_1_r, Z.mod_1_r. reflexivity.
Qed.

Lemma whole_amount_round_trip_witness :
  toTokenAmount (JS.of_Z 1000) 9 = Some 1000000000000
  /\ fromTokenAmount 1000000000000 9 = Some "1000".
Proof.
  apply (whole_amount_round_trip 1000 9); [lia | lia | vm_compute; reflexivity].
Defined.

(** ** Properties of every event of a run *)

Section ThroughoutFacts.
Context `{Platform}.
Variable P : Event -> Prop.

Lemma throughout_emit e st :
  throughout P st -> P e ->
  throughout P {| _connection := _connection st; next_id := next_id st;
                  trace := trace st ++ [e] |}.
Proof.
  unfold throughout. cbn [trace]. intros Hst He.
  apply Forall_app. split; [assumption | repeat constructor; assumption].
Qed.

Lemma wp_tail {A} (m : M A) Q st : wp (bind m (fun a => ret a)) Q st -> wp m Q st.
Proof.
  unfold wp, bind, ret. destruct (m st) as [[a|msg|code] st']; exact (fun q => q).
Qed.

Lemma step_lift {A B} (r : Res A) (k : A -> M B) Q st :
  (forall msg, Q (Thrown msg) st) ->
  (forall a, r = Val a -> wp (k a) Q st) ->
  wp (bind (lift r) k) Q st.
Proof.
  intros HT Hk. destruct r as [a|msg]; [exact (Hk a eq_refl) | apply HT].
Qed.

Lemma step_emit {B} e (k : unit -> M B) Q st :
  throughout P st -> P e ->
  (forall st', throughout P st' -> wp (k tt) Q st') ->
  wp (bind (emit e) k) Q st.
Proof.
  intros Hst He Hk. apply wp_bind, wp_emit, Hk, throughout_emit; assumption.
Qed.

Lemma step_rpc {A B} c call (answer : Res A) (k : A -> M B) Q st :
  throughout P st -> P (EvRpc c call) ->
  (forall msg st', throughout P st' -> Q (Thrown msg) st') ->
  (forall a st', throughout P st' -> answer = Val a -> wp (k a) Q st') ->
  wp (bind (rpc c call answer) k) Q st.
Proof.
  intros Hst He HT Hk. apply wp_bind. unfold rpc.
  apply step_emit; [assumption | assumption |]. intros st' Hst'.
  destruct answer as [a|msg]; [exact (Hk a st' Hst' eq_refl) | apply HT, Hst'].
Qed.

Lemma step_fetch {B} req (answer : Res Response) (k : Response -> M B) Q st :
  throughout P st -> P (EvFetch req) ->
  (forall msg st', throughout P st' -> Q (Thrown msg) st') ->
  (forall a st', throughout P st' -> answer = Val a -> wp (k a) Q st') ->
  wp (bind (fetch req answer) k) Q st.
Proof.
  intros Hst He HT Hk. apply wp_bind. unfold fetch.
  apply step_emit; [assumption | assumption |]. intros st' Hst'.
  destruct answer as [a|msg]; [exact (Hk a st' Hst' eq_refl) | apply HT, Hst'].
Qed.

Lemma step_readFileSync {B} w path (k : string -> M B) Q st :
  throughout P st -> P (EvReadFile path) ->
  (forall msg st', throughout P st' -> Q (Thrown msg) st') ->
  (forall raw st', throughout P st' -> w_readFile w path = Val raw ->
                   wp (k raw) Q st') ->
  wp (bind (readFileSync w path) k) Q st.
Proof.
  intros Hst He HT Hk. apply wp_bind. unfold readFileSync.
  apply step_emit; [assumption | assumption |]. intros st' Hst'.
  destruct (w_readFile w path) as [a|msg];
    [exact (Hk a st' Hst' eq_refl) | apply HT, Hst'].
Qed.

Lemma step_getConnection {B} cfg (k : Connection -> M B) Q st :
  throughout P st ->
  (forall c, rpcEndpoint c = RPC_URL cfg -> conn_commitment c = COMMITMENT ->
             P (EvNewConnection c)) ->
  (forall msg st', throughout P st' -> Q (Thrown msg) st') ->
  (forall c st', throughout P st' -> wp (k c) Q st') ->
  wp (bind (getConnection cfg) k) Q st.
Proof.
  intros Hst He HT Hk. apply wp_bind, wp_getConnection.
  destruct (_connection st) as [c|]; [apply Hk, Hst|].
  destruct (Connection_check (RPC_URL cfg)) as [[]|msg]; [|apply HT, Hst].
  cbv zeta. apply Hk. unfold throughout. cbn [trace].
  apply Forall_app. split; [exact Hst|].
  repeat constructor. apply He; reflexivity.
Qed.

Lemma resolveKeypair_no_exit cfg w code :
  fst (resolveKeypair cfg w initial) <> Exited code.
Proof.
  unfold resolveKeypair, loadKeypairFromBase58, loadKeypairFromFile,
    readFileSync, bind, emit, lift, ret, throw.
  destruct (w_env w "WALLET_PRIVATE_KEY") as [envKey|];
    [destruct (JS.nonempty envKey)|].
  - destruct (keypair_of_base58 envKey); discriminate.
  - cbn [fst snd]. destruct (w_readFile w (WALLET_PATH cfg)); [|discriminate].
    destruct (keypair_of_json a); discriminate.
  - cbn [fst snd]. destruct (w_readFile w (WALLET_PATH cfg)); [|discriminate].
    destruct (keypair_of_json a); discriminate.
Qed.

Lemma step_resolveKeypair {B} cfg w (k : Keypair -> M B) Q st :
  throughout P st -> P (EvReadFile (WALLET_PATH cfg)) ->
  (forall msg st', throughout P st' -> Q (Thrown msg) st') ->
  (forall kp st', throughout P st' ->
                  fst (resolveKeypair cfg w initial) = Done kp ->
                  wp (k kp) Q st') ->
  wp (bind (resolveKeypair cfg w) k) Q st.
Proof.
  intros Hst He HT Hk. apply wp_bind, wp_resolveKeypair. intros evs Hevs.
  assert (Hst' : throughout P {| _connection := _connection st;
                                 next_id := next_id st;
                                 trace := trace st ++ evs |}).
  { unfold throughout. cbn [trace]. apply Forall_app. split; [exact Hst|].
    destruct Hevs as [-> | ->]; repeat constructor. exact He. }
  pose proof (resolveKeypair_no_exit cfg w) as Hne.
  destruct (fst (resolveKeypair cfg w initial)) as [kp|msg|code].
  - apply Hk; [exact Hst' | reflexivity].
  - apply HT, Hst'.
  - exfalso. apply (Hne code). reflexivity.
Qed.

Lemma step_toTokenAmountM {B} x d (k : Z -> M B) Q st :
  (forall msg, Q (Thrown msg) st) ->
  (forall raw, toTokenAmount x d = Some raw -> wp (k raw) Q st) ->
  wp (bind (toTokenAmountM x d) k) Q st.
Proof.
  intros HT Hk. unfold toTokenAmountM.
  destruct (toTokenAmount x d) as [raw|]; [exact (Hk raw eq_refl) | apply HT].
Qed.

Lemma step_for_each {A B} (xs : list A) (body : A -> M unit) (k : unit -> M B)
    Q st :
  throughout P st ->
  (forall x st1, throughout P st1 ->
     wp (body x)
        (fun o st2 =>
           match o with
           | Done _ => throughout P st2
           | Thrown msg => Q (Thrown msg) st2
           | Exited code => Q (Exited code) st2
           end) st1) ->
  (forall st', throughout P st' -> wp (k tt) Q st') ->
  wp (bind (for_each xs body) k) Q st.
Proof.
  intros Hst Hbody Hk. revert st Hst.
  induction xs as [|x rest IH]; intros st Hst.
  - apply (Hk st Hst).
  - cbn [for_each]. specialize (Hbody x st Hst).
    unfold wp, bind in *.
    destruct (body x st) as [[[]|msg|code] st1]; cbn [fst snd] in *;
      [|exact Hbody|exact Hbody].
    apply (IH st1 Hbody).
Qed.

Lemma step_other {A B} (m : M A) (k : A -> M B) Q st :
  wp m (fun o st' =>
          match o with
          | Done _ => throughout P st'
          | Thrown msg => Q (Thrown msg) st'
          | Exited code => Q (Exited code) st'
          end) st ->
  (forall a st', throughout P st' -> wp (k a) Q st') ->
  wp (bind m k) Q st.
Proof. apply wp_bind_inv. Qed.

End ThroughoutFacts.

Section GuardFacts.
Context `{Platform}.
Variable P : Event -> Prop.

(** [if (!res.ok) throw new Error(... await res.text() ...)] *)
Lemma step_guard_throw {B} (b : bool) (r : Res string) (f : string -> string)
    (k : unit -> M B) Q st :
  (forall msg, Q (Thrown msg) st) ->
  (b = true -> wp (k tt) Q st) ->
  wp (bind (if b then ret tt else bind (lift r) (fun text => throw (f text))) k)
     Q st.
Proof.
  intros HT Hk. destruct b; [exact (Hk eq_refl)|].
  destruct r as [text|msg]; apply HT.
Qed.

(** [if (cond) { console.error(line); process.exit(code); }] *)
Lemma step_guard_exit {B} (b : bool) line code (k : unit -> M B) Q st :
  (b = true ->
   Q (Exited code) {| _connection := _connection st; next_id := next_id st;
                      trace := trace st ++ [EvError line] |}) ->
  (b = false -> wp (k tt) Q st) ->
  wp (bind (if b then bind (console_error line) (fun _ => process_exit code)
            else ret tt) k) Q st.
Proof.
  intros He Hk. destruct b; [exact (He eq_refl) | exact (Hk eq_refl)].
Qed.

(** [arg ? new PublicKey(arg) : fallback] *)
Lemma step_option_lift {A B} (o : option string) (r : string -> Res A) (v : A)
    (k : A -> M B) Q st :
  (forall msg, Q (Thrown msg) st) ->
  (forall a,
     match o with Some s => r s = Val a | None => a = v end ->
     wp (k a) Q st) ->
  wp (bind (match o with Some s => lift (r s) | None => ret v end) k) Q st.
Proof.
  intros HT Hk. destruct o as [s|]; [|exact (Hk v eq_refl)].
  destruct (r s) as [a|msg] eqn:Hr; [exact (Hk a eq_refl) | apply HT].
Qed.

(** [arg ? new PublicKey(arg) : resolveKeypair().publicKey] *)
Lemma step_address {B} cfg w (o : option string) (k : PublicKey -> M B) Q st :
  throughout P st -> P (EvReadFile (WALLET_PATH cfg)) ->
  (forall msg st', throughout P st' -> Q (Thrown msg) st') ->
  (forall a st', throughout P st' ->
     match o with
     | Some s => PublicKey_new s = Val a
     | None => exists kp, fst (resolveKeypair cfg w initial) = Done kp
                          /\ a = publicKey kp
     end ->
     wp (k a) Q st') ->
  wp (bind (match o with
            | Some s => lift (PublicKey_new s)
            | None => bind (resolveKeypair cfg w) (fun kp => ret (publicKey kp))
            end) k) Q st.
Proof.
  intros Hst He HT Hk. destruct o as [s|].
  - destruct (PublicKey_new s) as [a|msg] eqn:Hr;
      [exact (Hk a st Hst eq_refl) | apply HT, Hst].
  - apply wp_bind. apply (step_resolveKeypair P); try assumption.
    intros kp st' Hst' Hkp. apply wp_ret. cbv beta iota.
    apply (Hk (publicKey kp) st' Hst'). exists kp. split; [assumption|reflexivity].
Qed.

End GuardFacts.

Lemma throughout_result (P : Event -> Prop) prefix (o : Outcome unit) st :
  (forall line, P (EvError line)) ->
  throughout P st ->
  Forall P (events (result_of prefix o st)).
Proof.
  intros He Hst. destruct o as [a|msg|code]; cbn [result_of events];
    try exact Hst.
  apply Forall_app. split; [exact Hst | repeat constructor; apply He].
Qed.

(** [if (!cond) { console.error(l1); console.error(l2); process.exit(code); }] *)
Lemma step_guard_exit2 {B} (b : bool) l1 l2 code (k : unit -> M B) Q st :
  (b = false ->
   Q (Exited code)
     {| _connection := _connection st; next_id := next_id st;
        trace := (trace st ++ [EvError l1]) ++ [EvError l2] |}) ->
  (b = true -> wp (k tt) Q st) ->
  wp (bind (if b then ret tt
            else bind (console_error l1)
                   (fun _ => bind (console_error l2)
                               (fun _ => process_exit code))) k) Q st.
Proof.
  intros He Hk. destruct b; [exact (Hk eq_refl) | exact (He eq_refl)].
Qed.

Lemma throughout_emit2 (P : Event -> Prop) e1 e2 st :
  throughout P st -> P e1 -> P e2 ->
  throughout P {| _connection := _connection st; next_id := next_id st;
                  trace := (trace st ++ [e1]) ++ [e2] |}.
Proof.
  unfold throughout. cbn [trace]. intros Hst H1 H2.
  repeat (apply Forall_app; split); try assumption;
    repeat constructor; assumption.
Qed.

(** One step of a proof that a property holds throughout a run: [fin]
    closes the goals on outcomes, [side] the goals on single events. *)
Ltac throughout_step fin side :=
  cbv beta iota zeta;
  lazymatch goal with
  | |- wp (bind (lift _) _) _ _ =>
      apply step_lift; [intros ?; fin | intros ? ?]
  | |- wp (bind (toTokenAmountM _ _) _) _ _ =>
      apply step_toTokenAmountM; [intros ?; fin | intros ? ?]
  | |- wp (bind (if _ then ret tt else bind (lift _) _) _) _ _ =>
      apply step_guard_throw; [intros ?; fin | intros ?]
  | |- wp (bind (if _ then ret tt
                 else bind (console_error _)
                        (fun _ => bind (console_error _) _)) _) _ _ =>
      apply step_guard_exit2; [intros ?; fin | intros ?]
  | |- wp (bind (if _ then bind (console_error _) _ else ret tt) _) _ _ =>
      apply step_guard_exit; [intros ?; fin | intros ?]
  | |- wp (bind (match _ with Some _ => lift _ | None => ret _ end) _) _ _ =>
      apply step_option_lift; [intros ?; fin | intros ? ?]
  | Hst : throughout ?P ?st |- wp (bind ?m ?k) _ ?st =>
      lazymatch m with
      | match _ with Some _ => lift _ | None => bind (resolveKeypair _ _) _ end =>
          apply (step_address P);
          [exact Hst | side | intros ? ? ?; fin | intros ? ? ? ?]
      | console_log ?l =>
          apply (step_emit P (EvLog l) k); [exact Hst | side | intros ? ?]
      | console_error ?l =>
          first [ apply (step_emit P (EvError l) k);
                  [exact Hst | solve [side] | intros ? ?]
                | fin ]
      | emit ?e =>
          apply (step_emit P e k); [exact Hst | side | intros ? ?]
      | rpc _ _ _ =>
          apply (step_rpc P); [exact Hst | side | intros ? ? ?; fin | intros ? ? ? ?]
      | fetch _ _ =>
          apply (step_fetch P); [exact Hst | side | intros ? ? ?; fin | intros ? ? ? ?]
      | readFileSync _ _ =>
          apply (step_readFileSync P);
          [exact Hst | side | intros ? ? ?; fin | intros ? ? ? ?]
      | getConnection _ =>
          apply (step_getConnection P);
          [exact Hst | intros ? ? ?; side | intros ? ? ?; fin | intros ? ? ?]
      | resolveKeypair _ _ =>
          apply (step_resolveKeypair P);
          [exact Hst | side | intros ? ? ?; fin | intros ? ? ? ?]
      | for_each _ _ =>
          apply (step_for_each P); [exact Hst | intros ? ? ? | intros ? ?]
      | _ => apply (step_other P); [ | intros ? ? ?]
      end
  | |- wp (ret _) _ _ => apply wp_ret; fin
  | |- wp (throw _) _ _ => apply wp_throw; fin
  | |- wp (process_exit _) _ _ => apply wp_exit; fin
  | |- wp (show_instruction _) _ _ => unfold show_instruction
  | |- wp (match ?x with _ => _ end) _ _ => destruct x eqn:?
  | |- wp (lift _) _ _ => apply wp_tail
  | |- wp (toTokenAmountM _ _) _ _ => apply wp_tail
  | |- wp (console_log _) _ _ => apply wp_tail
  | |- wp (console_error _) _ _ => apply wp_tail
  | |- wp (emit _) _ _ => apply wp_tail
  | |- wp (rpc _ _ _) _ _ => apply wp_tail
  | |- wp (fetch _ _) _ _ => apply wp_tail
  | |- wp (readFileSync _ _) _ _ => apply wp_tail
  | |- wp (getConnection _) _ _ => apply wp_tail
  | |- wp (resolveKeypair _ _) _ _ => apply wp_tail
  | |- wp (for_each _ _) _ _ => apply wp_tail
  end.

Section ReadOnlyFacts.
Context `{Platform}.

Lemma read_only_stops prefix o st :
  throughout (fun e => is_read_only e = true) st ->
  Forall (fun e => is_read_only e = true) (events (result_of prefix o st)).
Proof.
  intros Hst. destruct o as [a|msg|code]; cbn [result_of events];
    try exact Hst.
  apply Forall_app. split; [exact Hst | repeat constructor].
Qed.

End ReadOnlyFacts.

Ltac read_only_step :=
  throughout_step ltac:(cbv beta iota;
                        first [assumption | apply read_only_stops; assumption])
                  ltac:(reflexivity).

(** X10.  The balance query and the transaction lookup are read-only: whatever
    the arguments, the environment and the answers of the node, their runs
    contain no request that moves funds, creates an account or submits a
    transaction, no HTTP request and no command. *)
Theorem queries_are_read_only `{Platform} (w : World) :
  Forall (fun e => is_read_only e = true) (events (script Balance w))
  /\ Forall (fun e => is_read_only e = true) (events (script FetchTx w)).
Proof.
  assert (H0 : throughout (fun e => is_read_only e = true) initial)
    by constructor.
  unfold script. destruct (Config.load w) as [cfg|msg];
    [|split; repeat constructor].
  split; apply wp_run_main; revert H0; generalize initial; intros st Hst;
    cbn [main_of].
  - unfold balance_main. repeat read_only_step.
  - unfold fetch_tx_main. repeat read_only_step.
Qed.

Section ReportFacts.
Context `{Platform}.

Lemma reported_done prefix (a : unit) st :
  throughout (fun e => is_stderr e = false) st ->
  reported (result_of prefix (Done a) st).
Proof. intros Hst. left. split; [reflexivity | exact Hst]. Qed.

Lemma reported_thrown prefix msg st :
  reported (result_of prefix (Thrown msg) st).
Proof.
  right. split; [reflexivity|].
  exists (trace st), (EvError (prefix ++ " " ++ msg)). split; reflexivity.
Qed.

Lemma reported_exit prefix c n t line :
  reported (result_of prefix (Exited 1)
              {| _connection := c; next_id := n; trace := t ++ [EvError line] |}).
Proof.
  right. split; [reflexivity|]. exists t, (EvError line). split; reflexivity.
Qed.

End ReportFacts.

Ltac reported_fin :=
  cbv beta iota;
  first [ assumption
        | apply reported_done; assumption
        | apply reported_thrown
        | apply reported_exit
        | repeat (apply wp_bind; apply wp_emit; cbv beta iota);
          apply wp_exit; apply reported_exit ].

Ltac reported_step := throughout_step ltac:(reported_fin) ltac:(reflexivity).

(** X8.  Every script reports its result in the same way: a run ends with
    status 0 and has written nothing to the standard error stream, or it
    ends with status 1 and the last thing it did was to write a line to
    the standard error stream (the usage, the failure with the message of
    the exception, or the uncaught exception of a module). *)
Theorem scripts_report_failure `{Platform} (o : Orchestrator) (w : World) :
  reported (script o w).
Proof.
  unfold script. destruct (Config.load w) as [cfg|msg].
  2:{ right. split; [reflexivity|]. exists [], (EvUncaught msg).
      split; reflexivity. }
  apply wp_run_main.
  assert (H0 : throughout (fun e => is_stderr e = false) initial)
    by constructor.
  revert H0. generalize initial. intros st Hst.
  destruct o; cbn [main_of failure_prefix].
  - unfold balance_main. repeat reported_step.
  - unfold airdrop_main. repeat reported_step.
  - unfold transfer_sol_main. repeat reported_step.
  - unfold transfer_token_main. repeat reported_step.
  - unfold create_token_main. repeat reported_step.
  - unfold create_account_main. repeat reported_step.
  - unfold mint_tokens_main. repeat reported_step.
  - unfold swap_main. repeat reported_step.
  - unfold deploy_main. repeat reported_step.
  - unfold fetch_tx_main. repeat reported_step.
Qed.

(** ** Arguments, configuration and identity *)

(** X7.  A script that asks for arguments checks them before anything else:
    when one of the arguments it requires is missing or empty, the run
    ends with status 1 and consists of lines on the standard error stream
    only: no connection is constructed, no key is read, no request is
    made. *)
Theorem missing_argument_stops `{Platform} (o : Orchestrator) (w : World)
    (cfg : Config.t) (i : nat) :
  Config.load w = Val cfg ->
  (i < required_args o)%nat ->
  JS.truthy (nth_error (w_argv w) i) = None ->
  exit_code (script o w) = 1
  /\ events (script o w) <> []
  /\ Forall (fun e => exists line, e = EvError line) (events (script o w)).
Proof.
  intros Hload Hi Harg. unfold script. rewrite Hload.
  destruct o; cbn [required_args] in Hi; try lia; cbn [main_of];
    unfold transfer_sol_main, transfer_token_main, create_account_main,
      mint_tokens_main, swap_main, deploy_main, fetch_tx_main, arg;
    destruct i as [|[|[|i]]]; try lia; rewrite ?Harg;
    repeat match goal with
           | |- context [match JS.truthy ?x with _ => _ end] =>
               destruct (JS.truthy x); rewrite ?Harg
           end;
    (split; [reflexivity|]); (split; [discriminate|]);
    repeat (constructor; [eexists; reflexivity|]); constructor.
Qed.

Lemma missing_argument_stops_witness :
  exit_code (@script Sample.platform TransferSol Sample.mainnet_world) = 1
  /\ Forall (fun e => exists line, e = EvError line)
       (events (@script Sample.platform TransferSol Sample.mainnet_world)).
Proof.
  destruct (@missing_argument_stops Sample.platform TransferSol
              Sample.mainnet_world Sample.mainnet_config 0%nat
              eq_refl ltac:(cbn; lia) eq_refl) as (Hexit & _ & Hall).
  split; assumption.
Defined.

(** X11.  The transaction lookup never uses the identity, and the balance
    query and the airdrop do not use it when the address is given as an
    argument: their whole runs (events and status) are the same whatever
    WALLET_PRIVATE_KEY holds and whatever the files contain. *)
Theorem lookups_need_no_identity `{Platform} (w : World)
    (envKey : option string) (files : string -> Res string) :
  script FetchTx (with_secrets w envKey files) = script FetchTx w
  /\ (JS.truthy (nth_error (w_argv w) 0) <> None ->
      script Balance (with_secrets w envKey files) = script Balance w)
  /\ (JS.truthy (nth_error (w_argv w) 1) <> None ->
      script Airdrop (with_secrets w envKey files) = script Airdrop w).
Proof.
  unfold script. rewrite load_with_secrets.
  destruct (Config.load w) as [cfg|msg]; [|repeat split; reflexivity].
  cbn [main_of]. split; [reflexivity|]. split; intros Harg.
  - unfold balance_main, arg.
    change (w_argv (with_secrets w envKey files)) with (w_argv w).
    destruct (JS.truthy (nth_error (w_argv w) 0)); [reflexivity | congruence].
  - unfold airdrop_main, arg.
    change (w_argv (with_secrets w envKey files)) with (w_argv w).
    destruct (JS.truthy (nth_error (w_argv w) 1)); [reflexivity | congruence].
Qed.

Lemma lookups_need_no_identity_witness :
  @script Sample.platform Balance
    (with_secrets Sample.world None (fun _ => Throw "ENOENT: no such file"))
  = @script Sample.platform Balance Sample.world.
Proof.
  apply (proj1 (proj2 (@lookups_need_no_identity Sample.platform Sample.world
                         None (fun _ => Throw "ENOENT: no such file")))).
  discriminate.
Defined.

(** ** Status 0 *)

Ltac success_fin :=
  cbv beta iota;
  first [ assumption
        | cbn [result_of exit_code]; intros Hcode; discriminate Hcode
        | cbn [result_of exit_code]; intros _;
          repeat match goal with a : unit |- _ => destruct a end;
          subst; cbn [succeeded];
          repeat (first [eexists | split]); eassumption ].

Ltac success_step := throughout_step ltac:(success_fin) ltac:(exact I).

(** X9.  A script ends with status 0 only when every request it depends on
    was answered without an exception: the transfer, the mint or the swap
    was sent and confirmed, the looked-up transaction was found, the
    deployment command succeeded. *)
Theorem success_means_done `{Platform} (o : Orchestrator) (w : World) :
  exit_code (script o w) = 0 -> succeeded o w.
Proof.
  unfold script. destruct (Config.load w) as [cfg|msg];
    [|intros Hcode; discriminate Hcode].
  apply wp_run_main.
  assert (H0 : throughout (fun _ => True) initial) by constructor.
  revert H0. generalize initial. intros st Hst.
  destruct o; cbn [main_of failure_prefix].
  - unfold balance_main. repeat success_step.
  - unfold airdrop_main. repeat success_step.
  - unfold transfer_sol_main. repeat success_step.
  - unfold transfer_token_main. repeat success_step.
  - unfold create_token_main. repeat success_step.
  - unfold create_account_main. repeat success_step.
  - unfold mint_tokens_main. repeat success_step.
  - unfold swap_main. repeat success_step.
  - unfold deploy_main. repeat success_step.
  - unfold fetch_tx_main. repeat success_step.
Qed.

Lemma success_means_done_witness :
  exit_code (@script Sample.platform SwapJupiter Sample.world) = 0
  /\ succeeded SwapJupiter Sample.world.
Proof.
  split; [vm_compute; reflexivity|].
  apply (@success_means_done Sample.platform SwapJupiter Sample.world).
  vm_compute. reflexivity.
Defined.

(** ** What the requests carry *)

(** A goal on one event: the event is not of the kind the property
    speaks of, or the facts collected on the way give the property. *)
Ltac request_side :=
  try match goal with X := _ : Event -> Prop |- _ => unfold X end;
  unfold transfer_sol_request, transfer_token_request, mint_tokens_request,
    recipient_account_request, create_account_request, airdrop_request,
    swap_request, deploy_step, balance_request, fetch_tx_request;
  cbv beta; repeat split; intros;
  first [ discriminate
        | match goal with
          | Heq : @eq Event _ _ |- _ => inversion Heq; subst; clear Heq
          end;
          repeat match goal with a : unit |- _ => destruct a end;
          unfold deriveATA;
          repeat (first [eexists | split]);
          first [eassumption | reflexivity | left; reflexivity
                | right; reflexivity] ].

Ltac request_fin :=
  cbv beta iota;
  first [ assumption
        | apply throughout_result;
          [ intros ?; request_side
          | first [ assumption
                  | apply throughout_emit; [assumption | request_side]
                  | apply throughout_emit2;
                    [assumption | request_side | request_side] ] ] ].

Ltac request_step := throughout_step ltac:(request_fin) ltac:(request_side).

(** Start of a proof on the events of [run_main main prefix]. *)
Ltac on_events :=
  apply wp_run_main;
  lazymatch goal with
  | |- wp _ (fun o st => Forall ?P _) _ =>
      let X := fresh "P" in
      let H0 := fresh "H0" in
      set (X := P);
      assert (H0 : throughout X initial) by constructor;
      revert H0; generalize initial; intros ? ?
  end.

(** X16.  In every run of the transfer of the native asset, the transaction
    that is sent moves [Math.round(parseFloat(amount) * 10^9)] lamports
    from the resolved identity to the recipient of the first argument,
    and the identity is its only signer. *)
Theorem transfer_sol_sends `{Platform} (w : World) (cfg : Config.t) :
  Config.load w = Val cfg ->
  Forall (transfer_sol_request cfg w) (events (script TransferSol w)).
Proof.
  intros Hload. unfold script. rewrite Hload. cbn [main_of].
  on_events. unfold transfer_sol_main. repeat request_step.
Qed.

Lemma transfer_sol_sends_witness :
  @Config.load Sample.platform Sample.world = Val Sample.config
  /\ Forall (@transfer_sol_request Sample.platform Sample.config Sample.world)
       (events (@script Sample.platform TransferSol Sample.world)).
Proof.
  split; [reflexivity|].
  apply (@transfer_sol_sends Sample.platform Sample.world Sample.config). reflexivity.
Defined.

(** X17.  In every run of the token transfer, the transfer is paid and signed
    by the resolved identity, goes from the identity's derived token
    account ([deriveATA]) to the account answered for the recipient
    ([ensureATA]), and its amount is [toTokenAmount] of the amount
    argument at the decimals read from the mint. *)
Theorem transfer_token_sends `{Platform} (w : World) (cfg : Config.t) :
  Config.load w = Val cfg ->
  Forall (transfer_token_request cfg w) (events (script TransferToken w)).
Proof.
  intros Hload. unfold script. rewrite Hload. cbn [main_of].
  on_events. unfold transfer_token_main. repeat request_step.
Qed.

Lemma transfer_token_sends_witness :
  @Config.load Sample.platform Sample.world = Val Sample.config
  /\ Forall (@transfer_token_request Sample.platform Sample.config Sample.world)
       (events (@script Sample.platform TransferToken Sample.world)).
Proof.
  split; [reflexivity|].
  apply (@transfer_token_sends Sample.platform Sample.world Sample.config). reflexivity.
Defined.

(** X18.  In every run of the mint script, the resolved identity pays and
    signs as mint authority, the tokens go to the account answered for
    the recipient, and the amount is [toTokenAmount] of the amount
    argument at the decimals read from the mint. *)
Theorem mint_tokens_sends `{Platform} (w : World) (cfg : Config.t) :
  Config.load w = Val cfg ->
  Forall (mint_tokens_request cfg w) (events (script MintTokens w)).
Proof.
  intros Hload. unfold script. rewrite Hload. cbn [main_of].
  on_events. unfold mint_tokens_main. repeat request_step.
Qed.

Lemma mint_tokens_sends_witness :
  @Config.load Sample.platform Sample.world = Val Sample.config
  /\ Forall (@mint_tokens_request Sample.platform Sample.config Sample.world)
       (events (@script Sample.platform MintTokens Sample.world)).
Proof.
  split; [reflexivity|].
  apply (@mint_tokens_sends Sample.platform Sample.world Sample.config). reflexivity.
Defined.

(** X19.  In every run of the token-account script, the account is created for
    the mint of the first argument, paid by the resolved identity, and
    owned by the second argument when it is given and by the identity
    otherwise. *)
Theorem create_account_owner `{Platform} (w : World) (cfg : Config.t) :
  Config.load w = Val cfg ->
  Forall (create_account_request cfg w) (events (script CreateTokenAccount w)).
Proof.
  intros Hload. unfold script. rewrite Hload. cbn [main_of].
  on_events. unfold create_account_main. repeat request_step.
Qed.

Lemma create_account_owner_witness :
  @Config.load Sample.platform Sample.world = Val Sample.config
  /\ Forall (@create_account_request Sample.platform Sample.config Sample.world)
       (events (@script Sample.platform CreateTokenAccount Sample.world)).
Proof.
  split; [reflexivity|].
  apply (@create_account_owner Sample.platform Sample.world Sample.config). reflexivity.
Defined.

(** X14.  In every run of the airdrop script, an airdrop is requested only
    when NETWORK is not "mainnet-beta", for [Math.round(parseFloat(amount
    || "2") * 10^9)] lamports, to the address argument or else to the
    identity; and the confirmation is of the signature the request
    answered, anchored at the blockhash fetched after it. *)
Theorem airdrop_requests `{Platform} (w : World) (cfg : Config.t) :
  Config.load w = Val cfg ->
  Forall (airdrop_request cfg w) (events (script Airdrop w)).
Proof.
  intros Hload. unfold script. rewrite Hload. cbn [main_of].
  on_events. unfold airdrop_main. repeat request_step.
Qed.

Lemma airdrop_requests_witness :
  @Config.load Sample.platform Sample.world = Val Sample.config
  /\ Forall (@airdrop_request Sample.platform Sample.config Sample.world)
       (events (@script Sample.platform Airdrop Sample.world)).
Proof.
  split; [reflexivity|].
  apply (@airdrop_requests Sample.platform Sample.world Sample.config). reflexivity.
Defined.

(** X20.  In every run of the swap script, the quote is asked for
    [toTokenAmount] of the amount argument at the decimals read from the
    input mint, with the slippage argument or else 50; the swap is built
    from the quote exactly as it was answered, for the resolved identity;
    and what is submitted is the transaction of that answer with the
    signature of the identity. *)
Theorem swap_requests_chain `{Platform} (w : World) (cfg : Config.t) :
  Config.load w = Val cfg ->
  Forall (swap_request cfg w) (events (script SwapJupiter w)).
Proof.
  intros Hload. unfold script. rewrite Hload. cbn [main_of].
  on_events. unfold swap_main. repeat request_step.
Qed.

Lemma swap_requests_chain_witness :
  @Config.load Sample.platform Sample.world = Val Sample.config
  /\ Forall (@swap_request Sample.platform Sample.config Sample.world)
       (events (@script Sample.platform SwapJupiter Sample.world)).
Proof.
  split; [reflexivity|].
  apply (@swap_requests_chain Sample.platform Sample.world Sample.config). reflexivity.
Defined.

(** X21.  In every run of the deployment script, the script itself makes no
    contact with the network, the program key file is read and the
    command is run only after the binary was found to exist, and the
    command names the binary, the key file and the configured RPC URL. *)
Theorem deploy_checks_first `{Platform} (w : World) (cfg : Config.t) :
  Config.load w = Val cfg ->
  Forall (deploy_step cfg w) (events (script DeployProgram w)).
Proof.
  intros Hload. unfold script. rewrite Hload. cbn [main_of].
  on_events. unfold deploy_main. repeat request_step.
Qed.

Lemma deploy_checks_first_witness :
  @Config.load Sample.platform Sample.world = Val Sample.config
  /\ Forall (@deploy_step Sample.platform Sample.config Sample.world)
       (events (@script Sample.platform DeployProgram Sample.world)).
Proof.
  split; [reflexivity|].
  apply (@deploy_checks_first Sample.platform Sample.world Sample.config). reflexivity.
Defined.

(** X12.  In every run of the balance query, both requests are for the address
    of the first argument when it is given, and for the public key of the
    resolved identity otherwise. *)
Theorem balance_address `{Platform} (w : World) (cfg : Config.t) :
  Config.load w = Val cfg ->
  Forall (balance_request cfg w) (events (script Balance w)).
Proof.
  intros Hload. unfold script. rewrite Hload. cbn [main_of].
  on_events. unfold balance_main. repeat request_step.
Qed.

Lemma balance_address_witness :
  @Config.load Sample.platform Sample.world = Val Sample.config
  /\ Forall (@balance_request Sample.platform Sample.config Sample.world)
       (events (@script Sample.platform Balance Sample.world)).
Proof.
  split; [reflexivity|].
  apply (@balance_address Sample.platform Sample.world Sample.config). reflexivity.
Defined.

(** X13.  In every run of the transaction lookup, the only request to the
    node is the lookup of the signature of the first argument, with
    [maxSupportedVersion: 0]. *)
Theorem fetch_tx_lookup `{Platform} (w : World) (cfg : Config.t) :
  Config.load w = Val cfg ->
  Forall (fetch_tx_request w) (events (script FetchTx w)).
Proof.
  intros Hload. unfold script. rewrite Hload. cbn [main_of].
  on_events. unfold fetch_tx_main. repeat request_step.
Qed.

Lemma fetch_tx_lookup_witness :
  @Config.load Sample.platform Sample.world = Val Sample.config
  /\ Forall (fetch_tx_request Sample.world)
       (events (@script Sample.platform FetchTx Sample.world)).
Proof.
  split; [reflexivity|].
  apply (@fetch_tx_lookup Sample.platform Sample.world Sample.config). reflexivity.
Defined.

(** ** The codec: exact range, scaling, negative amounts *)

(** X3.  Up to 22 decimals, [fromTokenAmount] is exact on every non-negative
    amount, however large: the integer part is the quotient by
    [10^decimals], the fractional part the remainder padded to [decimals]
    digits with its trailing zeros stripped. *)
Theorem fromTokenAmount_exact_up_to_22 raw decimals :
  0 <= raw -> 0 <= decimals <= 22 ->
  fromTokenAmount raw decimals = Some (toDisplay_ref raw decimals).
Proof. exact (fromTokenAmount_ref raw decimals). Qed.

Lemma fromTokenAmount_exact_up_to_22_witness :
  fromTokenAmount 123456789012345678901234567890 22
  = Some "12345678.901234567890123456789".
Proof.
  rewrite (fromTokenAmount_exact_up_to_22 123456789012345678901234567890 22)
    by lia.
  vm_compute. reflexivity.
Defined.

(** X4.  The display of an amount does not change when the amount is scaled
    by a power of ten and the number of decimals grows accordingly:
    trailing zeros are never printed. *)
Theorem fromTokenAmount_scale raw decimals k :
  0 <= raw -> 0 <= decimals -> 0 <= k -> decimals + k <= 22 ->
  fromTokenAmount (raw * 10 ^ k) (decimals + k) = fromTokenAmount raw decimals.
Proof.
  intros Hraw Hd Hk Hsum.
  assert (Hp : 0 < 10 ^ k) by (apply Z.pow_pos_nonneg; lia).
  rewrite !fromTokenAmount_ref by (try apply Z.mul_nonneg_nonneg; lia).
  f_equal. apply toDisplay_ref_scale; assumption.
Qed.

Lemma fromTokenAmount_scale_witness :
  fromTokenAmount (15 * 10 ^ 8) (1 + 8) = Some "1.5".
Proof.
  rewrite (fromTokenAmount_scale 15 1 8) by lia.
  vm_compute. reflexivity.
Defined.

Section NegativeFacts.

Lemma strip_keeps_other a c b :
  c <> "0"%char -> JS.strip_trailing_zeros (a ++ String c b) <> "".
Proof.
  intros Hc. induction a as [|x a IH]; cbn [append JS.strip_trailing_zeros].
  - destruct (JS.strip_trailing_zeros b); [|discriminate].
    destruct (Ascii.eqb_spec c "0"); [contradiction | discriminate].
  - destruct (JS.strip_trailing_zeros (a ++ String c b));
      [contradiction | discriminate].
Qed.

Lemma nonempty_true s : s <> "" -> JS.nonempty s = true.
Proof. destruct s; [contradiction | reflexivity]. Qed.

End NegativeFacts.

(** X5.  A negative amount with a non-zero remainder is not printed as a
    decimal: the minus sign of the remainder ends up inside the
    fractional part, behind the padding (and a negative amount above
    [-10^decimals] loses its sign in front: its integer part prints as
    "0"). *)
Theorem fromTokenAmount_negative raw decimals :
  raw < 0 -> 0 <= decimals <= 22 -> Z.rem raw (10 ^ decimals) <> 0 ->
  fromTokenAmount raw decimals
  = Some (JS.BigInt_toString (Z.quot raw (10 ^ decimals)) ++ "."
          ++ JS.strip_trailing_zeros
               (JS.padStart decimals "0"
                  (String "-" (JS.digits (- Z.rem raw (10 ^ decimals)))))).
Proof.
  intros Hraw Hd Hrem. unfold fromTokenAmount.
  rewrite divisor_exact by assumption.
  assert (Hp : 0 < 10 ^ decimals) by (apply Z.pow_pos_nonneg; lia).
  destruct (Z.eqb_spec (10 ^ decimals) 0) as [E|_]; [lia|].
  assert (Hneg : Z.rem raw (10 ^ decimals) < 0).
  { pose proof (Z.rem_nonpos raw (10 ^ decimals)). lia. }
  assert (Hs : JS.BigInt_toString (Z.rem raw (10 ^ decimals))
               = String "-" (JS.digits (- Z.rem raw (10 ^ decimals)))).
  { unfold JS.BigInt_toString.
    destruct (Z.ltb_spec (Z.rem raw (10 ^ decimals)) 0) as [_|Hge];
      [reflexivity | lia]. }
  cbv zeta. rewrite Hs.
  rewrite nonempty_true; [reflexivity|].
  unfold JS.padStart. apply strip_keeps_other. discriminate.
Qed.

Lemma fromTokenAmount_negative_witness :
  fromTokenAmount (-5) 9 = Some "0.0000000-5"
  /\ fromTokenAmount (-1500000000) 9 = Some "-1.-5".
Proof.
  split.
  - rewrite (fromTokenAmount_negative (-5) 9) by (try lia; vm_compute; discriminate).
    vm_compute. reflexivity.
  - rewrite (fromTokenAmount_negative (-1500000000) 9)
      by (try lia; vm_compute; discriminate).
    vm_compute. reflexivity.
Defined.

(** ** The identity and the network guard *)

(** X6.  When WALLET_PRIVATE_KEY is unset or empty, [resolveKeypair] reads
    the key file at WALLET_PATH, once, and the outcome is what the file
    decodes to: the exception of the read or of the decoding is the
    exception of [resolveKeypair]. *)
Theorem resolveKeypair_file_fallback `{Platform} (cfg : Config.t) (w : World)
    (st : Proc) :
  JS.truthy (w_env w "WALLET_PRIVATE_KEY") = None ->
  trace (snd (resolveKeypair cfg w st)) = (trace st ++ [EvReadFile (WALLET_PATH cfg)])%list
  /\ fst (resolveKeypair cfg w st)
     = match w_readFile w (WALLET_PATH cfg) with
       | Val raw =>
           match keypair_of_json raw with
           | Val kp => Done kp
           | Throw msg => Thrown msg
           end
       | Throw msg => Thrown msg
       end.
Proof.
  intros Henv.
  assert (Hfile : resolveKeypair cfg w = loadKeypairFromFile cfg w None).
  { unfold resolveKeypair.
    destruct (w_env w "WALLET_PRIVATE_KEY") as [envKey|]; [|reflexivity].
    cbn [JS.truthy] in Henv.
    destruct (JS.nonempty envKey); [discriminate Henv | reflexivity]. }
  rewrite Hfile.
  unfold loadKeypairFromFile, readFileSync, bind, emit, lift, ret, throw.
  cbn [fst snd].
  destruct (w_readFile w (WALLET_PATH cfg)) as [raw|msg]; [|split; reflexivity].
  destruct (keypair_of_json raw); split; reflexivity.
Qed.

Lemma resolveKeypair_file_fallback_witness :
  fst (@resolveKeypair Sample.platform Sample.mainnet_config
         Scenario.keyless_world initial)
  = Thrown "ENOENT: no such file or directory".
Proof.
  rewrite (proj2 (@resolveKeypair_file_fallback Sample.platform
                    Sample.mainnet_config Scenario.keyless_world initial
                    eq_refl)).
  reflexivity.
Defined.

(** Symbolic execution that keeps the state in normal form. *)
Ltac wp_walk := repeat (wp_step; cbn [_connection next_id trace]).

Ltac find_event :=
  first [ apply in_eq
        | apply in_cons; find_event
        | apply in_or_app; first [ left; find_event | right; find_event ] ].

(** X15.  The guard of the airdrop script looks at NETWORK only: when
    SOLANA_NETWORK is anything but "mainnet-beta" (also unknown names),
    the airdrop is requested from the node that SOLANA_RPC_URL names,
    whatever network that node belongs to. *)
Theorem airdrop_guard_reads_network_only `{Platform} (w : World)
    (url addressStr : string) (address : PublicKey) :
  w_env w "SOLANA_RPC_URL" = Some url -> url <> "" ->
  Config.network w <> "mainnet-beta" ->
  Connection_check url = Val tt ->
  JS.truthy (nth_error (w_argv w) 1) = Some addressStr ->
  PublicKey_new addressStr = Val address ->
  exists c lamports,
    rpcEndpoint c = url
    /\ In (EvRpc c (RequestAirdrop address lamports)) (events (script Airdrop w)).
Proof.
  intros Henv Hurl Hnet Hcheck Harg Hpk.
  unfold script, Config.load. rewrite Henv.
  destruct url as [|ch rest]; [congruence|]. cbn [JS.nonempty main_of].
  apply wp_run_main. unfold airdrop_main, arg. cbn [NETWORK RPC_URL].
  apply String.eqb_neq in Hnet. rewrite Hnet, Harg.
  apply wp_bind, wp_ret. cbv beta iota.
  apply wp_bind, wp_getConnection. cbn [_connection initial RPC_URL].
  rewrite Hcheck. cbv beta iota zeta.
  apply wp_bind, wp_lift. rewrite Hpk. cbv beta iota.
  wp_walk.
  all: refine (ex_intro _ _ (ex_intro _ _ (conj _ _)));
    [ | cbn [result_of events trace initial _connection next_id];
        find_event ];
    reflexivity.
Qed.

Lemma airdrop_guard_reads_network_only_witness :
  Config.network Scenario.mismatched_world = "devnet"
  /\ exists c lamports,
       rpcEndpoint c = "https://api.mainnet-beta.solana.com"
       /\ In (EvRpc c (RequestAirdrop {| pk_bytes := list_byte_of_string "Addr" |}
                         lamports))
            (events (@script Sample.platform Airdrop Scenario.mismatched_world)).
Proof.
  split; [reflexivity|].
  apply (@airdrop_guard_reads_network_only Sample.platform
           Scenario.mismatched_world "https://api.mainnet-beta.solana.com"
           "Addr" {| pk_bytes := list_byte_of_string "Addr" |});
    first [reflexivity | discriminate].
Defined.

(** ** One connection *)

Section OneConnection.
Context `{Platform}.
Variable P : Event -> Prop.

(** The first [getConnection] of a process constructs the connection. *)
Lemma start_getConnection {B} cfg (k : Connection -> M B) Q :
  P (EvNewConnection (the_connection cfg)) ->
  (forall msg, Q (Thrown msg) initial) ->
  (forall st', throughout P st' -> wp (k (the_connection cfg)) Q st') ->
  wp (bind (getConnection cfg) k) Q initial.
Proof.
  intros He HT Hk. apply wp_bind, wp_getConnection. cbn [_connection initial].
  destruct (Connection_check (RPC_URL cfg)) as [[]|msg]; [|apply HT].
  cbv zeta. apply Hk. unfold throughout. cbn [trace initial app].
  repeat constructor. exact He.
Qed.

End OneConnection.

Ltac connection_side :=
  unfold through_the_connection; split; intros;
  first [ discriminate
        | match goal with
          | Heq : @eq Event _ _ |- _ => inversion Heq; subst; clear Heq
          end;
          reflexivity ].

Ltac connection_fin :=
  cbv beta iota;
  first [ assumption
        | apply throughout_result;
          [ intros ?; connection_side
          | first [ assumption
                  | apply throughout_emit; [assumption | connection_side]
                  | apply throughout_emit2;
                    [assumption | connection_side | connection_side] ] ] ].

Ltac connection_step :=
  lazymatch goal with
  | |- wp (bind (getConnection ?cfg) _) _ initial =>
      apply (start_getConnection (through_the_connection cfg));
      [connection_side | intros ?; connection_fin | intros ? ?]
  | |- wp (bind (getConnection _) _) _ _ => fail
  | _ => throughout_step ltac:(connection_fin) ltac:(connection_side)
  end.

(** X22.  Every script constructs at most one connection, to RPC_URL at
    the commitment "confirmed", and every request to the node goes
    through that connection: no request is sent anywhere else. *)
Theorem requests_use_the_connection `{Platform} (o : Orchestrator) (w : World)
    (cfg : Config.t) :
  Config.load w = Val cfg ->
  Forall (through_the_connection cfg) (events (script o w)).
Proof.
  intros Hload. unfold script. rewrite Hload.
  apply wp_run_main.
  assert (H0 : throughout (through_the_connection cfg) initial) by constructor.
  destruct o; cbn [main_of failure_prefix].
  - unfold balance_main. repeat connection_step.
  - unfold airdrop_main. repeat connection_step.
  - unfold transfer_sol_main. repeat connection_step.
  - unfold transfer_token_main. repeat connection_step.
  - unfold create_token_main. repeat connection_step.
  - unfold create_account_main. repeat connection_step.
  - unfold mint_tokens_main. repeat connection_step.
  - unfold swap_main. repeat connection_step.
  - unfold deploy_main. repeat connection_step.
  - unfold fetch_tx_main. repeat connection_step.
Qed.

Lemma requests_use_the_connection_witness :
  @Config.load Sample.platform Sample.world = Val Sample.config
  /\ Forall (through_the_connection Sample.config)
       (events (@script Sample.platform SwapJupiter Sample.world)).
Proof.
  split; [reflexivity|].
  apply (@requests_use_the_connection Sample.platform SwapJupiter Sample.world
           Sample.config).
  reflexivity.
Defined.

(** ** Numbers: rounding *)

Import Rounding.

Section RoundingFacts.

Lemma located_between m l A D :
  0 < D -> located m l A D -> m * D <= A < (m + 1) * D.
Proof. destruct l as [|[]]; cbn [located]; nia. Qed.

Lemma loc_of_record_of m l :
  loc_of_shr_record (shr_record_of_loc m l) = l.
Proof. destruct l as [|[]]; reflexivity. Qed.

(** One shift to the right keeps the location exact for a denominator
    twice as large. *)
Lemma shr_1_located mrs A D :
  0 <= shr_m mrs -> 0 < D ->
  located (shr_m mrs) (loc_of_shr_record mrs) A D ->
  located (shr_m (shr_1 mrs)) (loc_of_shr_record (shr_1 mrs)) A (2 * D)
  /\ shr_m (shr_1 mrs) = shr_m mrs / 2.
Proof.
  destruct mrs as [m r s]. cbn [shr_m]. intros Hm HD Hloc.
  pose proof (located_between _ _ _ _ HD Hloc) as Hb.
  destruct m as [|p|p]; [| |lia].
  - destruct r, s; cbn [shr_1 shr_m loc_of_shr_record orb located] in *;
      (split; [|reflexivity]); nia.
  - destruct p as [p|p|].
    + assert (Hdiv : Z.pos p~1 / 2 = Z.pos p)
        by (symmetry; apply Z.div_unique with (r := 1); lia).
      rewrite Hdiv.
      destruct r, s; cbn [shr_1 shr_m loc_of_shr_record orb located] in *;
        (split; [|reflexivity]); nia.
    + assert (Hdiv : Z.pos p~0 / 2 = Z.pos p)
        by (symmetry; apply Z.div_unique with (r := 0); lia).
      rewrite Hdiv.
      destruct r, s; cbn [shr_1 shr_m loc_of_shr_record orb located] in *;
        (split; [|reflexivity]); nia.
    + destruct r, s; cbn [shr_1 shr_m loc_of_shr_record orb located] in *;
        (split; [|reflexivity]); nia.
Qed.

Lemma iter_shr_located k : forall mrs A D,
  0 <= shr_m mrs -> 0 < D ->
  located (shr_m mrs) (loc_of_shr_record mrs) A D ->
  let mrs' := Nat.iter k shr_1 mrs in
  located (shr_m mrs') (loc_of_shr_record mrs') A (D * 2 ^ Z.of_nat k)
  /\ shr_m mrs' = shr_m mrs / 2 ^ Z.of_nat k.
Proof.
  induction k as [|k IH]; intros mrs A D Hm HD Hloc; cbv zeta.
  - change (Nat.iter 0 shr_1 mrs) with mrs.
    rewrite Z.pow_0_r, Z.mul_1_r, Z.div_1_r. split; [assumption|reflexivity].
  - rewrite Nat.iter_succ. destruct (IH mrs A D Hm HD Hloc) as [Hl Hv].
    assert (Hp : 0 < 2 ^ Z.of_nat k) by (apply Z.pow_pos_nonneg; lia).
    assert (Hm' : 0 <= shr_m (Nat.iter k shr_1 mrs))
      by (rewrite Hv; apply Z.div_pos; lia).
    destruct (shr_1_located _ A (D * 2 ^ Z.of_nat k) Hm' ltac:(nia) Hl)
      as [Hl' Hv'].
    rewrite Nat2Z.inj_succ, Z.pow_succ_r by lia. split.
    + replace (D * (2 * 2 ^ Z.of_nat k)) with (2 * (D * 2 ^ Z.of_nat k)) by ring.
      exact Hl'.
    + rewrite Hv', Hv, Z.div_div by lia. f_equal. ring.
Qed.

(** Rounding to nearest, ties to even, moves by at most one half. *)
Lemma round_nearest_even_located m l A D :
  0 < D -> located m l A D ->
  let M0 := round_nearest_even m l in
  (M0 = m \/ M0 = m + 1) /\ 2 * Z.abs (M0 * D - A) <= D.
Proof.
  intros HD Hloc. cbv zeta.
  destruct l as [|[]]; cbn [round_nearest_even located] in *.
  - split; [now left | nia].
  - destruct (Z.even m); split; try (now left); try (now right); nia.
  - split; [now left | nia].
  - split; [now right | nia].
Qed.

End RoundingFacts.

Section RoundAux.

Lemma shr_m_record_of m l : shr_m (shr_record_of_loc m l) = m.
Proof. destruct l as [|[]]; reflexivity. Qed.

Lemma pow2_53 : 2 ^ 53 = 9007199254740992.
Proof. reflexivity. Qed.

Lemma pow2_52 : 2 ^ 52 = 4503599627370496.
Proof. reflexivity. Qed.

(** The first shift of [binary_round_aux]. *)
Lemma shr_located (mx : positive) lx ex n A D :
  0 <= n -> 0 < D -> located (Z.pos mx) lx A D ->
  exists mrs,
    shr (shr_record_of_loc (Z.pos mx) lx) ex n = (mrs, ex + n)
    /\ located (shr_m mrs) (loc_of_shr_record mrs) A (D * 2 ^ n)
    /\ shr_m mrs = Z.pos mx / 2 ^ n.
Proof.
  intros Hn HD Hloc. unfold shr.
  destruct n as [|p|p]; [| |lia].
  - exists (shr_record_of_loc (Z.pos mx) lx).
    rewrite Z.add_0_r, Z.pow_0_r, Z.mul_1_r, Z.div_1_r.
    rewrite loc_of_record_of, shr_m_record_of. repeat split. exact Hloc.
  - exists (iter_pos shr_1 p (shr_record_of_loc (Z.pos mx) lx)).
    split; [reflexivity|]. rewrite iter_pos_nat.
    rewrite <- (positive_nat_Z p).
    pose proof (iter_shr_located (Pos.to_nat p)
                  (shr_record_of_loc (Z.pos mx) lx) A D) as Hiter.
    rewrite loc_of_record_of, shr_m_record_of in Hiter.
    apply Hiter; [lia | exact HD | exact Hloc].
Qed.

(** [binary_round_aux] on a mantissa of at least 53 bits, in the range of
    the normal numbers: the result is a number with a mantissa of 53 bits
    that differs from the exact value [A / D] (in units of the exponent
    [ex]) by at most half a unit of its last place. *)
Lemma binary_round_aux_located s (mx : positive) ex lx A D :
  let n := Z.pos (digits2_pos mx) - 53 in
  0 <= n -> -1074 <= ex + n -> ex + n + 1 <= 971 -> 0 < D ->
  located (Z.pos mx) lx A D ->
  exists (M : positive) (c M0 : Z),
    binary_round_aux JS.prec JS.emax s (Z.pos mx) ex lx
    = S754_finite s M (ex + n + c)
    /\ (c = 0 \/ c = 1)
    /\ Z.pos M * 2 ^ c = M0
    /\ 2 ^ 52 <= Z.pos M < 2 ^ 53
    /\ 2 * Z.abs (M0 * (D * 2 ^ n) - A) <= D * 2 ^ n.
Proof.
  intros n Hn Hlow Hhigh HD Hloc.
  assert (Hpn : 0 < 2 ^ n) by (apply Z.pow_pos_nonneg; lia).
  unfold binary_round_aux, shr_fexp. cbn [Zdigits2].
  replace (fexp JS.prec JS.emax (Z.pos (digits2_pos mx) + ex) - ex) with n
    by (unfold fexp, emin, JS.prec, JS.emax; lia).
  destruct (shr_located mx lx ex n A D Hn HD Hloc) as (mrs & -> & Hl1 & Hm1).
  assert (Hm1b : 2 ^ 52 <= shr_m mrs < 2 ^ 53).
  { rewrite Hm1.
    pose proof (digits2_pos_lower mx) as Hlo.
    pose proof (digits2_pos_bound mx) as Hhi.
    replace (Z.pos (digits2_pos mx) - 1) with (n + 52) in Hlo by lia.
    replace (Z.pos (digits2_pos mx)) with (n + 53) in Hhi by lia.
    rewrite Z.pow_add_r in Hlo, Hhi by lia.
    split.
    - apply Z.div_le_lower_bound; lia.
    - apply Z.div_lt_upper_bound; lia. }
  destruct (round_nearest_even_located _ _ A (D * 2 ^ n) ltac:(nia) Hl1)
    as [HM0 Herr].
  set (M0 := round_nearest_even (shr_m mrs) (loc_of_shr_record mrs)) in *.
  rewrite pow2_52, pow2_53 in Hm1b.
  destruct (Z.lt_ge_cases M0 (2 ^ 53)) as [Hlt|Hge]; rewrite pow2_53 in *.
  - destruct M0 as [|M|M] eqn:HeqM0; try lia.
    exists M, 0, (Z.pos M).
    assert (Hd : Z.pos (digits2_pos M) = 53).
    { apply Z.le_antisymm.
      - apply digits2_pos_le; [lia | rewrite pow2_53; lia].
      - pose proof (digits2_pos_ge M 52 ltac:(lia)) as Hg.
        rewrite pow2_52 in Hg. lia. }
    cbn [Zdigits2]. rewrite Hd.
    replace (fexp JS.prec JS.emax (53 + (ex + n)) - (ex + n)) with 0
      by (unfold fexp, emin, JS.prec, JS.emax; lia).
    cbn [shr shr_record_of_loc shr_m].
    destruct (Z.leb_spec (ex + n) (JS.emax - JS.prec)) as [_|Hgt];
      [|unfold JS.emax, JS.prec in Hgt; lia].
    rewrite Z.add_0_r, Z.pow_0_r, Z.mul_1_r, ?pow2_52, ?pow2_53.
    repeat split; try lia; exact Herr.
  - assert (HM : M0 = 9007199254740992) by lia.
    exists 4503599627370496%positive, 1, M0.
    rewrite HM.
    replace (Zdigits2 9007199254740992) with 54 by reflexivity.
    replace (fexp JS.prec JS.emax (54 + (ex + n)) - (ex + n)) with 1
      by (unfold fexp, emin, JS.prec, JS.emax; lia).
    cbn [shr shr_record_of_loc shr_m iter_pos shr_1 orb].
    destruct (Z.leb_spec (ex + n + 1) (JS.emax - JS.prec)) as [_|Hgt];
      [|unfold JS.emax, JS.prec in Hgt; lia].
    rewrite ?pow2_52, ?pow2_53.
    rewrite HM in Herr.
    repeat split; try lia; exact Herr.
Qed.

End RoundAux.

Section DivisionFacts.

(** The location [SFdiv] computes from the remainder of the integer
    division. *)
Lemma new_location_located b r q A :
  0 <= r < b -> A = q * b + r -> located q (new_location b r) A b.
Proof.
  intros Hr HA. unfold new_location, new_location_even, new_location_odd.
  pose proof (Zmod_even b) as Hev.
  destruct (Z.even b); cbv iota in Hev.
  - destruct (Z.eqb_spec r 0) as [E|E]; cbn [located]; [lia|].
    destruct (Z.compare_spec (2 * r) b); cbn [located]; lia.
  - destruct (Z.eqb_spec r 0) as [E|E]; cbn [located]; [lia|].
    destruct (Z.compare_spec (2 * r + 1) b) as [Hc|Hc|Hc]; cbn [located];
      [lia | lia |].
    pose proof (Z.div_mod b 2 ltac:(lia)) as Hdm. lia.
Qed.

(** The integer division behind the quotient of two integers held as
    numbers. *)
Lemma SFdiv_core_binary_integers (p b : positive) s :
  s = 53 + Z.pos (digits2_pos b) - Z.pos (digits2_pos p) ->
  0 < s <= 1000 ->
  SFdiv_core_binary JS.prec JS.emax (Z.pos p) 0 (Z.pos b) 0
  = ((Z.pos p * 2 ^ s) / Z.pos b, - s,
     new_location (Z.pos b) ((Z.pos p * 2 ^ s) mod Z.pos b)).
Proof.
  intros Hs Hr. unfold SFdiv_core_binary. cbn [Zdigits2]. cbv zeta.
  assert (He : Z.min (fexp JS.prec JS.emax
                        (Z.pos (digits2_pos p) + 0 - (Z.pos (digits2_pos b) + 0)))
                 (0 - 0) = - s)
    by (unfold fexp, emin, JS.prec, JS.emax; lia).
  rewrite He. replace (0 - 0 - - s) with s by lia.
  destruct s as [|sp|sp]; try lia.
  rewrite Z.shiftl_mul_pow2 by lia.
  unfold Z.div, Z.modulo.
  destruct (Z.div_eucl (Z.pos p * 2 ^ Z.pos sp) (Z.pos b)); reflexivity.
Qed.

Lemma pow10_22_bound : 10 ^ 22 < 2 ^ 74.
Proof. reflexivity. Qed.

(** The number a decimal literal [p / 10^n] denotes: a mantissa of 53
    bits, within half a unit of its last place of the decimal. *)
Lemma of_decimal_rounded (p : positive) n :
  0 <= n <= 22 -> Z.pos p < 2 ^ 51 ->
  exists (M : positive) (g s : Z),
    JS.of_decimal (Z.pos p) n = S754_finite false M (g - s)
    /\ 2 ^ 52 <= Z.pos M < 2 ^ 53
    /\ 0 <= g <= 2 /\ 0 < s <= 126
    /\ 2 * Z.abs (Z.pos M * 2 ^ g * 10 ^ n - Z.pos p * 2 ^ s) <= 10 ^ n * 2 ^ g.
Proof.
  intros Hn Hp.
  assert (H10 : 0 < 10 ^ n) by (apply Z.pow_pos_nonneg; lia).
  set (b := Z.to_pos (10 ^ n)).
  assert (Hb : Z.pos b = 10 ^ n) by (apply Z2Pos.id; lia).
  assert (Hb74 : Z.pos b < 2 ^ 74).
  { rewrite Hb. pose proof pow10_22_bound.
    assert (10 ^ n <= 10 ^ 22) by (apply Z.pow_le_mono_r; lia). lia. }
  set (d1 := Z.pos (digits2_pos p)).
  set (d2 := Z.pos (digits2_pos b)).
  assert (Hd1 : 1 <= d1 <= 51)
    by (split; [subst d1; lia | apply digits2_pos_le; lia]).
  assert (Hd2 : 1 <= d2 <= 74)
    by (split; [subst d2; lia | apply digits2_pos_le; lia]).
  set (s := 53 + d2 - d1).
  assert (Hs : 0 < s <= 126) by lia.
  unfold JS.of_decimal, JS.div, SFdiv. fold b.
  rewrite (SFdiv_core_binary_integers p b s eq_refl) by lia.
  cbn [xorb].
  set (A := Z.pos p * 2 ^ s).
  assert (HS : 0 < 2 ^ s) by (apply Z.pow_pos_nonneg; lia).
  assert (Hq : 2 ^ 52 <= A / Z.pos b < 2 ^ 54).
  { pose proof (digits2_pos_lower p) as Hpl. fold d1 in Hpl.
    pose proof (digits2_pos_bound p) as Hpu. fold d1 in Hpu.
    pose proof (digits2_pos_lower b) as Hbl. fold d2 in Hbl.
    pose proof (digits2_pos_bound b) as Hbu. fold d2 in Hbu.
    assert (E1 : 2 ^ (d1 - 1) * 2 ^ s = 2 ^ 52 * 2 ^ d2)
      by (rewrite <- !Z.pow_add_r by lia; f_equal; lia).
    assert (E2 : 2 ^ d1 * 2 ^ s = 2 ^ 54 * 2 ^ (d2 - 1))
      by (rewrite <- !Z.pow_add_r by lia; f_equal; lia).
    assert (0 < 2 ^ (d2 - 1)) by (apply Z.pow_pos_nonneg; lia).
    assert (0 < 2 ^ (d1 - 1)) by (apply Z.pow_pos_nonneg; lia).
    split.
    - apply Z.div_le_lower_bound; [lia|]. subst A.
      change (2 ^ 52) with 4503599627370496 in *. nia.
    - apply Z.div_lt_upper_bound; [lia|]. subst A.
      change (2 ^ 54) with 18014398509481984 in *. nia. }
  destruct (A / Z.pos b) as [|qp|qp] eqn:HA; try lia.
  assert (Hdq : 53 <= Z.pos (digits2_pos qp) <= 54).
  { split.
    - pose proof (digits2_pos_ge qp 52 ltac:(lia) (proj1 Hq)). lia.
    - apply digits2_pos_le; lia. }
  assert (Hloc : located (Z.pos qp) (new_location (Z.pos b) (A mod Z.pos b))
                   A (Z.pos b)).
  { apply new_location_located.
    - apply Z.mod_pos_bound. lia.
    - pose proof (Z.div_mod A (Z.pos b) ltac:(lia)) as Hdm.
      rewrite HA in Hdm. lia. }
  destruct (binary_round_aux_located false qp (- s) _ A (Z.pos b)
              ltac:(lia) ltac:(lia) ltac:(lia) ltac:(lia) Hloc)
    as (M & c & M0 & Heq & Hc & HM0 & HM & Herr).
  rewrite Heq.
  exists M, (Z.pos (digits2_pos qp) - 53 + c), s.
  split; [f_equal; lia|].
  split; [exact HM|].
  split; [lia|].
  split; [lia|].
  rewrite Hb in Herr. subst A M0.
  set (n1 := Z.pos (digits2_pos qp) - 53) in *.
  rewrite (Z.pow_add_r 2 n1 c) by lia.
  assert (Hpn : 0 < 2 ^ n1) by (apply Z.pow_pos_nonneg; lia).
  assert (Hpc : 1 <= 2 ^ c) by (destruct Hc as [-> | ->]; cbn; lia).
  replace (Z.pos M * (2 ^ n1 * 2 ^ c) * 10 ^ n - Z.pos p * 2 ^ s)
    with (Z.pos M * 2 ^ c * (10 ^ n * 2 ^ n1) - Z.pos p * 2 ^ s) by ring.
  nia.
Qed.

End DivisionFacts.

Section ScalingFacts.

(** The powers of ten up to [10 ** 22], with the size of the mantissa. *)
Lemma pow10_mantissa d :
  0 <= d <= 22 ->
  exists P E,
    JS.pow10 d = S754_finite false P E
    /\ -52 <= E <= 21
    /\ 2 ^ 52 <= Z.pos P < 2 ^ 53
    /\ Z.pos P * 2 ^ (E + 52) = 10 ^ d * 2 ^ 52.
Proof.
  intros Hd.
  assert (Hk : exists k : nat, (k <= 22)%nat /\ d = Z.of_nat k)
    by (exists (Z.to_nat d); lia).
  destruct Hk as (k & Hk & ->).
  do 23 (destruct k as [|k];
         [eexists; eexists; split; [vm_compute; reflexivity|];
          split; [split; apply Z.leb_le; vm_compute; reflexivity|];
          split; [split; [apply Z.leb_le | apply Z.ltb_lt]|];
          vm_compute; reflexivity|]).
  lia.
Qed.

(** The product of a number with a power of ten: a mantissa of 53 bits,
    within half a unit [e2 / 2^52] of its last place of the exact
    product. *)
Lemma mul_pow10_rounded (M : positive) ex d :
  2 ^ 52 <= Z.pos M < 2 ^ 53 -> 0 <= d <= 22 -> -1074 <= ex <= 800 ->
  exists (M2 : positive) (h e2 : Z),
    JS.mul (S754_finite false M ex) (JS.pow10 d) = S754_finite false M2 (ex + h)
    /\ 2 ^ 52 <= Z.pos M2 < 2 ^ 53
    /\ 0 <= h
    /\ 2 * Z.abs (Z.pos M2 * 2 ^ (h + 52) - Z.pos M * 10 ^ d * 2 ^ 52) <= e2
    /\ e2 * 2 ^ 52 <= Z.pos M * 10 ^ d * 2 ^ 52.
Proof.
  intros HM Hd Hex.
  destruct (pow10_mantissa d Hd) as (P & E & Hp & HE & HP & HPval).
  unfold JS.mul. rewrite Hp. cbn [SFmul xorb].
  set (MP := (M * P)%positive).
  assert (HMP : Z.pos MP = Z.pos M * Z.pos P) by apply Pos2Z.inj_mul.
  assert (Hsize : 2 ^ 104 <= Z.pos MP < 2 ^ 106).
  { rewrite HMP.
    change (2 ^ 104) with (2 ^ 52 * 2 ^ 52).
    change (2 ^ 106) with (2 ^ 53 * 2 ^ 53).
    rewrite pow2_52, pow2_53 in *. nia. }
  assert (Hdm : 105 <= Z.pos (digits2_pos MP) <= 106).
  { split.
    - pose proof (digits2_pos_ge MP 104 ltac:(lia) (proj1 Hsize)). lia.
    - apply digits2_pos_le; lia. }
  pose proof (digits2_pos_lower MP) as Hlow.
  assert (Hloc : located (Z.pos MP) loc_Exact (Z.pos MP) 1)
    by (cbn [located]; lia).
  destruct (binary_round_aux_located false MP (ex + E) _ (Z.pos MP) 1
              ltac:(lia) ltac:(lia) ltac:(lia) ltac:(lia) Hloc)
    as (M2 & c & M0 & Heq & Hc & HM0 & HM2 & Herr).
  rewrite Heq.
  set (n2 := Z.pos (digits2_pos MP) - 53) in *.
  replace (Z.pos (digits2_pos MP) - 1) with (n2 + 52) in Hlow by lia.
  exists M2, (E + n2 + c), (2 ^ n2 * 2 ^ (E + 52)).
  split; [f_equal; lia|].
  split; [exact HM2|].
  split; [lia|].
  assert (Hpe : 0 < 2 ^ (E + 52)) by (apply Z.pow_pos_nonneg; lia).
  assert (Hpn : 0 < 2 ^ n2) by (apply Z.pow_pos_nonneg; lia).
  assert (Hprod : Z.pos M * 10 ^ d * 2 ^ 52 = Z.pos MP * 2 ^ (E + 52))
    by (rewrite HMP, <- !Z.mul_assoc, HPval; reflexivity).
  rewrite Hprod. split.
  - replace (E + n2 + c + 52) with (c + n2 + (E + 52)) by lia.
    rewrite !Z.pow_add_r by lia.
    replace (Z.pos M2 * (2 ^ c * 2 ^ n2 * 2 ^ (E + 52)) - Z.pos MP * 2 ^ (E + 52))
      with ((M0 * 2 ^ n2 - Z.pos MP) * 2 ^ (E + 52))
      by (subst M0; ring).
    rewrite Z.abs_mul, (Z.abs_eq (2 ^ (E + 52))) by lia.
    rewrite Z.mul_assoc. apply Z.mul_le_mono_nonneg_r; [lia|].
    rewrite Z.mul_1_l in Herr. exact Herr.
  - rewrite Z.pow_add_r in Hlow by lia.
    rewrite <- Z.mul_assoc, (Z.mul_comm (2 ^ (E + 52))), Z.mul_assoc.
    apply Z.mul_le_mono_nonneg_r; [lia | exact Hlow].
Qed.

(** Two roundings of at most [2^-53] each, on a value below [2^51], stay
    within one half. *)
Lemma rounding_budget A2 B2 C T e1 e2 :
  2 * Z.abs (B2 - C) <= e1 -> 2 * Z.abs (A2 - B2) <= e2 ->
  e1 * 2 ^ 52 <= B2 -> e2 * 2 ^ 52 <= B2 ->
  0 <= C <= (2 ^ 51 - 1) * T -> 0 < T ->
  2 * C - T < 2 * A2 < 2 * C + T.
Proof.
  change (2 ^ 52) with 4503599627370496.
  change (2 ^ 51) with 2251799813685248.
  lia.
Qed.

(** [toTokenAmount] on the decimal [p / 10^n]: the exact scaled integer,
    as long as it is below [2^51]. *)
Lemma toTokenAmount_of_decimal (p : positive) n d :
  0 <= n <= d -> d <= 22 -> Z.pos p * 10 ^ (d - n) < 2 ^ 51 ->
  toTokenAmount (JS.of_decimal (Z.pos p) n) d = Some (Z.pos p * 10 ^ (d - n)).
Proof.
  intros Hn Hd Hbound.
  assert (HK : 0 < 10 ^ (d - n)) by (apply Z.pow_pos_nonneg; lia).
  assert (Hp : Z.pos p < 2 ^ 51) by nia.
  destruct (of_decimal_rounded p n ltac:(lia) Hp)
    as (M & g & s & Hx & HM & Hg & Hs & Herr1).
  destruct (mul_pow10_rounded M (g - s) d HM ltac:(lia) ltac:(lia))
    as (M2 & h & e2 & Hy & HM2 & Hh & Herr2 & Hsize2).
  unfold toTokenAmount, scaled. rewrite Hx, Hy.
  assert (HG : 1 <= 2 ^ g) by (pose proof (Z.pow_pos_nonneg 2 g); lia).
  assert (HS : 0 < 2 ^ s) by (apply Z.pow_pos_nonneg; lia).
  assert (HH : 0 < 2 ^ (h + 52)) by (apply Z.pow_pos_nonneg; lia).
  assert (HTn : 0 < 10 ^ n) by (apply Z.pow_pos_nonneg; lia).
  assert (HTd : 10 ^ d = 10 ^ n * 10 ^ (d - n))
    by (rewrite <- Z.pow_add_r by lia; f_equal; lia).
  remember (Z.pos p * 10 ^ (d - n)) as N eqn:HN.
  assert (H52 : 0 < 2 ^ 52) by reflexivity.
  set (W := 2 ^ (h + 52) * 2 ^ g).
  set (T := 2 ^ s * 2 ^ 52).
  assert (HW : 0 < W) by (subst W; nia).
  assert (HT : 0 < T) by (subst T; nia).
  (* the three values, on the common scale [2^(s+52)] *)
  set (A2 := Z.pos M2 * W).
  set (B2 := Z.pos M * 2 ^ g * 10 ^ d * 2 ^ 52).
  set (C := N * T).
  assert (F1 : 2 * Z.abs (B2 - C) <= 10 ^ d * 2 ^ g * 2 ^ 52).
  { replace (B2 - C)
      with ((Z.pos M * 2 ^ g * 10 ^ n - Z.pos p * 2 ^ s) * (10 ^ (d - n) * 2 ^ 52))
      by (subst B2 C T N; rewrite HTd; ring).
    rewrite Z.abs_mul, (Z.abs_eq (10 ^ (d - n) * 2 ^ 52)) by nia.
    replace (10 ^ d * 2 ^ g * 2 ^ 52)
      with (10 ^ n * 2 ^ g * (10 ^ (d - n) * 2 ^ 52)) by (rewrite HTd; ring).
    rewrite Z.mul_assoc. apply Z.mul_le_mono_nonneg_r; [nia | exact Herr1]. }
  assert (F2 : 2 * Z.abs (A2 - B2) <= e2 * 2 ^ g).
  { replace (A2 - B2)
      with ((Z.pos M2 * 2 ^ (h + 52) - Z.pos M * 10 ^ d * 2 ^ 52) * 2 ^ g)
      by (subst A2 B2 W; ring).
    rewrite Z.abs_mul, (Z.abs_eq (2 ^ g)) by lia.
    rewrite Z.mul_assoc. apply Z.mul_le_mono_nonneg_r; [lia | exact Herr2]. }
  assert (F3 : 10 ^ d * 2 ^ g * 2 ^ 52 * 2 ^ 52 <= B2).
  { subst B2.
    assert (0 < 10 ^ d * 2 ^ g * 2 ^ 52) by (rewrite HTd; nia).
    replace (Z.pos M * 2 ^ g * 10 ^ d * 2 ^ 52)
      with (10 ^ d * 2 ^ g * 2 ^ 52 * Z.pos M) by ring.
    apply Z.mul_le_mono_nonneg_l; lia. }
  assert (F4 : e2 * 2 ^ g * 2 ^ 52 <= B2).
  { subst B2.
    replace (e2 * 2 ^ g * 2 ^ 52) with (e2 * 2 ^ 52 * 2 ^ g) by ring.
    replace (Z.pos M * 2 ^ g * 10 ^ d * 2 ^ 52)
      with (Z.pos M * 10 ^ d * 2 ^ 52 * 2 ^ g) by ring.
    apply Z.mul_le_mono_nonneg_r; lia. }
  assert (F5 : 0 <= C <= (2 ^ 51 - 1) * T).
  { subst C. split; [nia|]. apply Z.mul_le_mono_nonneg_r; lia. }
  pose proof (rounding_budget A2 B2 C T _ _ F1 F2 F3 F4 F5 HT) as [Hlo Hhi].
  (* the exponent of the product is negative *)
  set (k := s - g - h).
  assert (Hk : 1 <= k).
  { assert (Hlt : 2 ^ (h + 52 + g + 1) < 2 ^ (s + 52)).
    { rewrite (Z.pow_add_r 2 (h + 52 + g) 1), (Z.pow_add_r 2 (h + 52) g),
        (Z.pow_add_r 2 s 52) by lia.
      fold W. fold T. change (2 ^ 1) with 2.
      assert (2 ^ 52 * W <= A2) by (subst A2; apply Z.mul_le_mono_nonneg_r; lia).
      assert (2 * C + T <= 2 ^ 52 * T).
      { subst C. change (2 ^ 52) with (2 * 2 ^ 51) in *.
        replace (2 * (N * T) + T) with ((2 * N + 1) * T) by ring.
        apply Z.mul_le_mono_nonneg_r; lia. }
      rewrite pow2_52 in *. lia. }
    apply Z.pow_lt_mono_r_iff in Hlt; lia. }
  assert (HTk : T = 2 ^ k * W).
  { subst T W k. rewrite <- !Z.pow_add_r by lia. f_equal. lia. }
  assert (Hpk : 0 < 2 ^ k) by (apply Z.pow_pos_nonneg; lia).
  assert (Hlo' : (2 * N - 1) * 2 ^ k < 2 * Z.pos M2).
  { apply (Z.mul_lt_mono_pos_r W); [exact HW|].
    replace ((2 * N - 1) * 2 ^ k * W) with (2 * C - T) by (subst C; rewrite HTk; ring).
    replace (2 * Z.pos M2 * W) with (2 * A2) by (subst A2; ring).
    exact Hlo. }
  assert (Hhi' : 2 * Z.pos M2 < (2 * N + 1) * 2 ^ k).
  { apply (Z.mul_lt_mono_pos_r W); [exact HW|].
    replace ((2 * N + 1) * 2 ^ k * W) with (2 * C + T) by (subst C; rewrite HTk; ring).
    replace (2 * Z.pos M2 * W) with (2 * A2) by (subst A2; ring).
    exact Hhi. }
  (* Math.round and BigInt *)
  unfold JS.Math_round.
  destruct (Z.leb_spec 0 (g - s + h)) as [Hge|_]; [lia|].
  replace (- (g - s + h)) with k by lia.
  cbn [cond_Zopp]. cbv zeta.
  assert (Hz : (2 * Z.pos M2 + 2 ^ k) / 2 ^ (k + 1) = N).
  { symmetry.
    apply Z.div_unique with (r := 2 * Z.pos M2 + 2 ^ k - N * (2 * 2 ^ k)).
    - left. rewrite Z.pow_add_r by lia. change (2 ^ 1) with 2. lia.
    - rewrite Z.pow_add_r by lia. change (2 ^ 1) with 2. ring. }
  rewrite Hz.
  destruct N as [|Np|Np]; try lia.
  cbn [Z.eqb].
  assert (HnN : Z.pos (digits2_pos Np) <= 53)
    by (apply digits2_pos_le; change (2 ^ 51) with 2251799813685248 in *;
        change (2 ^ 53) with 9007199254740992; lia).
  change (JS.of_Z (Z.pos Np)) with (binary_round JS.prec JS.emax false Np 0).
  rewrite binary_round_exact by exact HnN.
  destruct (integral_number false Np HnN) as [_ Hbig]. exact Hbig.
Qed.

End ScalingFacts.

(** C1 (as amended).  For a non-negative decimal [m / 10^n], at most 22
    decimals and [n <= decimals], whenever the scaled value
    [m * 10^(decimals - n)] is below [2^51]: [toTokenAmount] on the number
    the decimal denotes returns exactly the scaled value, and
    [fromTokenAmount] gives back the canonical string of the decimal. *)
Theorem round_trip_bounded m n decimals :
  0 <= m -> 0 <= n <= decimals -> decimals <= 22 ->
  m * 10 ^ (decimals - n) < 2 ^ 51 ->
  toTokenAmount (JS.of_decimal m n) decimals = Some (m * 10 ^ (decimals - n))
  /\ round_trip m n decimals = Some (decimal_string m n).
Proof.
  intros Hm Hn Hd Hbound.
  assert (Hto : toTokenAmount (JS.of_decimal m n) decimals
                = Some (m * 10 ^ (decimals - n))).
  { destruct m as [|p|p]; [| |lia].
    - destruct (pow10_finite decimals ltac:(lia)) as (P & E & HP & _).
      unfold toTokenAmount, scaled, JS.mul. rewrite HP. reflexivity.
    - apply toTokenAmount_of_decimal; assumption. }
  split; [exact Hto|].
  apply round_trip_from_exact; assumption.
Qed.

(** 1.5 at 9 decimals is 1500000000 base units and comes back as "1.5";
    0.1, which no number holds exactly, is 100000000 base units and comes
    back as "0.1"; so does 0.29 at 2 decimals. *)
Lemma round_trip_bounded_witness :
  (toTokenAmount (JS.of_decimal 15 1) 9 = Some 1500000000
   /\ round_trip 15 1 9 = Some "1.5")
  /\ (toTokenAmount (JS.of_decimal 1 1) 9 = Some 100000000
      /\ round_trip 1 1 9 = Some "0.1")
  /\ (toTokenAmount (JS.of_decimal 29 2) 2 = Some 29
      /\ round_trip 29 2 2 = Some "0.29").
Proof.
  split; [|split].
  - apply (round_trip_bounded 15 1 9); try lia; reflexivity.
  - apply (round_trip_bounded 1 1 9); try lia; reflexivity.
  - apply (round_trip_bounded 29 2 2); try lia; reflexivity.
Defined.

(** The bound is of the right size: 0.00000023846462949 at 22 decimals
    scales to 2384646294900000, between [2^51] and [2^52], and is
    converted to 2384646294900001. *)
Example round_trip_above_bound :
  2 ^ 51 < 23846462949 * 10 ^ (22 - 17) < 2 ^ 52
  /\ toTokenAmount (JS.of_decimal 23846462949 17) 22 = Some 2384646294900001.
Proof. split; [split; reflexivity | vm_compute; reflexivity]. Qed.

(** Beyond 308 decimals no amount is converted: [10 ** 309] is
    [Infinity], and [BigInt] throws. *)
Example round_trip_309_decimals :
  toTokenAmount (JS.of_decimal 1 0) 309 = None
  /\ round_trip 1 0 309 = None.
Proof. split; vm_compute; reflexivity. Qed.

(** ** The swap script: one attempt *)

Import Attempts.

Section AttemptFacts.
Context `{Platform}.
Variable w : World.

Lemma no_submission_none l :
  Forall (fun e => is_submission e = false) l -> submissions l = O.
Proof.
  unfold submissions. induction 1 as [|e l He Hl IH]; cbn [filter];
    [reflexivity|]. rewrite He. exact IH.
Qed.

Lemma single_attempt_stops o st :
  throughout (fun e => is_submission e = false) st ->
  single_attempt w (result_of (failure_prefix SwapJupiter) o st).
Proof.
  intros Hst. left. apply no_submission_none.
  destruct o as [a|msg|code]; cbn [result_of events]; try exact Hst.
  apply Forall_app. split; [exact Hst | repeat constructor].
Qed.

Lemma single_attempt_tail c raw st :
  throughout (fun e => is_submission e = false) st ->
  wp (sig <- rpc c (SendRawTransaction raw false 3) (w_sendRaw w) ;;
      rpc c (ConfirmTransaction sig None "confirmed") (w_confirm w) ;;
      console_log ("✓ Swap confirmed: " ++ sig))
     (fun o st' => single_attempt w (result_of (failure_prefix SwapJupiter) o st'))
     st.
Proof.
  intros Hst. right. exists c, raw. cbv zeta.
  unfold rpc, console_log, bind, emit, lift, ret, throw.
  destruct (w_sendRaw w) as [sig|msg];
    [destruct (w_confirm w) as [[]|msg]|];
    cbn [fst snd result_of events exit_code trace];
    (split; [|reflexivity]); exists (trace st);
    (split; [rewrite <- ?app_assoc; reflexivity | exact Hst]).
Qed.

Lemma single_attempt_once r :
  single_attempt w r -> (submissions (events r) <= 1)%nat.
Proof.
  intros [H0 | (c & raw & Hrun)]; [lia|]. cbv zeta in Hrun.
  assert (Hend : forall tail,
             ends_with r tail -> submissions tail = 1%nat ->
             (submissions (events r) <= 1)%nat).
  { intros tail (before & -> & Hb) Ht.
    rewrite submissions_app, (no_submission_none _ Hb), Ht. lia. }
  destruct (w_sendRaw w) as [sig|msg];
    [destruct (w_confirm w) as [[]|msg]|];
    destruct Hrun as [He _]; apply (Hend _ He); reflexivity.
Qed.

End AttemptFacts.

Ltac attempt_fin :=
  cbv beta iota;
  first [ assumption | apply single_attempt_stops; assumption ].

Ltac attempt_step := throughout_step ltac:(attempt_fin) ltac:(reflexivity).

Section AttemptRun.
Context `{Platform}.
Variable w : World.

Lemma swap_single_attempt : single_attempt w (script SwapJupiter w).
Proof.
  unfold script. destruct (Config.load w) as [cfg|msg];
    [|left; reflexivity].
  apply wp_run_main.
  assert (H0 : throughout (fun e => is_submission e = false) initial)
    by constructor.
  revert H0. generalize initial. intros st Hst.
  cbn [main_of]. unfold swap_main.
  repeat attempt_step.
  apply single_attempt_tail. assumption.
Qed.

End AttemptRun.



(** ** The key file and the failure line *)

Section KeyFileFacts.
Context `{Platform}.

(** Without WALLET_PRIVATE_KEY the key file is read; when its text is no
    JSON, [resolveKeypair] throws what [JSON.parse] throws. *)
Lemma resolveKeypair_json_error cfg w st raw msg :
  JS.truthy (w_env w "WALLET_PRIVATE_KEY") = None ->
  w_readFile w (WALLET_PATH cfg) = Val raw ->
  Uint8Array_from_JSON raw = Throw msg ->
  resolveKeypair cfg w st
  = (Thrown msg,
     {| _connection := _connection st; next_id := next_id st;
        trace := (trace st ++ [EvReadFile (WALLET_PATH cfg)])%list |}).
Proof.
  intros Henv Hfile Hjson. unfold resolveKeypair.
  assert (Hfb : match w_env w "WALLET_PRIVATE_KEY" with
                | Some envKey =>
                    if JS.nonempty envKey then loadKeypairFromBase58 envKey
                    else loadKeypairFromFile cfg w None
                | None => loadKeypairFromFile cfg w None
                end = loadKeypairFromFile cfg w None).
  { destruct (w_env w "WALLET_PRIVATE_KEY") as [envKey|]; [|reflexivity].
    cbn [JS.truthy] in Henv.
    destruct (JS.nonempty envKey); [discriminate Henv | reflexivity]. }
  rewrite Hfb.
  unfold loadKeypairFromFile, readFileSync, bind, emit, lift, ret, throw.
  rewrite Hfile. unfold keypair_of_json. rewrite Hjson. reflexivity.
Qed.

End KeyFileFacts.

(** C8, where the code is at fault.  When WALLET_PRIVATE_KEY is not set
    and the key file is read but is no JSON, the exception of
    [JSON.parse] ends the script, and the catch handler prints its message
    as it is.  The run of create-token, and the run of swap-jupiter with
    its three arguments, is the construction of the connection, the read
    of the key file and the failure line with that message, with status
    1: whatever [JSON.parse] puts into its message about the text of the
    key file is on the console. *)
Theorem key_file_error_is_printed `{Platform} (w : World) (cfg : Config.t)
    (raw msg : string) :
  Config.load w = Val cfg ->
  Connection_check (RPC_URL cfg) = Val tt ->
  JS.truthy (w_env w "WALLET_PRIVATE_KEY") = None ->
  w_readFile w (WALLET_PATH cfg) = Val raw ->
  Uint8Array_from_JSON raw = Throw msg ->
  script CreateToken w
  = {| exit_code := 1;
       events := [EvNewConnection (the_connection cfg);
                  EvReadFile (WALLET_PATH cfg);
                  EvError ("Create token failed: " ++ msg)] |}
  /\ (JS.truthy (nth_error (w_argv w) 0) <> None ->
      JS.truthy (nth_error (w_argv w) 1) <> None ->
      JS.truthy (nth_error (w_argv w) 2) <> None ->
      script SwapJupiter w
      = {| exit_code := 1;
           events := [EvNewConnection (the_connection cfg);
                      EvReadFile (WALLET_PATH cfg);
                      EvError ("Swap failed: " ++ msg)] |}).
Proof.
  intros Hload Hcheck Henv Hfile Hjson.
  set (st1 := {| _connection := Some (the_connection cfg); next_id := 1;
                 trace := [EvNewConnection (the_connection cfg)] |}).
  assert (Hconn : getConnection cfg initial = (Done (the_connection cfg), st1)).
  { unfold getConnection, new_Connection, set_connection, bind, lift, ret.
    cbn [_connection initial]. rewrite Hcheck. reflexivity. }
  pose proof (resolveKeypair_json_error cfg w st1 raw msg Henv Hfile Hjson)
    as Hres.
  split.
  - unfold script. rewrite Hload. cbn [main_of failure_prefix].
    unfold run_main, create_token_main.
    rewrite (bind_done _ _ _ _ _ Hconn). cbv beta zeta.
    rewrite (bind_thrown _ _ _ _ _ Hres).
    reflexivity.
  - intros H0 H1 H2.
    unfold script. rewrite Hload. cbn [main_of failure_prefix].
    unfold run_main, swap_main, arg.
    destruct (JS.truthy (nth_error (w_argv w) 0)) as [a0|]; [|congruence].
    destruct (JS.truthy (nth_error (w_argv w) 1)) as [a1|]; [|congruence].
    destruct (JS.truthy (nth_error (w_argv w) 2)) as [a2|]; [|congruence].
    rewrite (bind_done _ _ _ _ _ Hconn). cbv beta zeta.
    rewrite (bind_thrown _ _ _ _ _ Hres).
    reflexivity.
Qed.

(** On Node, with WALLET_PRIVATE_KEY unset and a key file that holds the
    text s3cr3t, both scripts put that text on the standard error
    stream. *)
Lemma key_file_error_is_printed_witness :
  w_readFile Node.misformatted_world (WALLET_PATH Sample.config) = Val "s3cr3t"
  /\ console (events (@script Node.platform CreateToken Node.misformatted_world))
  = [(Stderr,
      "Create token failed: Unexpected token 's', " ++ JS.dq ++ "s3cr3t"
      ++ JS.dq ++ " is not valid JSON")]
  /\ console (events (@script Node.platform SwapJupiter Node.misformatted_world))
     = [(Stderr,
         "Swap failed: Unexpected token 's', " ++ JS.dq ++ "s3cr3t"
         ++ JS.dq ++ " is not valid JSON")].
Proof.
  destruct (@key_file_error_is_printed Node.platform Node.misformatted_world
              Sample.config "s3cr3t" (Node.JSON_parse_error "s3cr3t")
              eq_refl eq_refl eq_refl eq_refl eq_refl) as [Hcreate Hswap].
  split; [reflexivity|]. split.
  - rewrite Hcreate. reflexivity.
  - rewrite Hswap by discriminate. reflexivity.
Defined.
